(** * komerce-lp-helper: the HTTP client and its hooks

    A shallow embedding of [ApiInstance] (api.ts) and of the hook layer
    built on it (createApi: useMutation, useInfiniteFetch), with the
    properties of the cache, the retry loop, the request pipeline, the
    request deduplication and the infinite pagination.

    Conventions of the embedding.
    - JavaScript numbers that the code uses as counters, sizes, timestamps
      and milliseconds are integers ([Z]); strings are [string], a
      character code being the code of the [ascii] character.
    - [Map<string, V>] is [gmap string V]; the array [cacheAccessOrder] is a
      [list string].
    - An [async] method is a computation over the instance and the outside
      world (clock, network); [await] is sequencing.  A thrown value is an
      explicit result.
    - What the platform provides and the repository does not define
      ([JSON.stringify], [encodeURIComponent]) is a field of the class
      [Platform]. *)

From Stdlib Require Import ZArith String Ascii List Lia Bool DecimalString.
From stdpp Require Import gmap strings list fin_maps sorting.

(* ===================================================================== *)
(** ** JavaScript values                                                  *)
(* ===================================================================== *)

#[local] Set Warnings "-register-all".

(** The values that cross the API: request parameters and bodies, parsed
    JSON, texts, blobs and [FormData] objects.  An object is the list of its
    own properties in the order JavaScript enumerates them. *)
Inductive JsValue : Type :=
| JUndefined
| JNull
| JBool (b : bool)
| JNumber (n : Z)
| JString (s : string)
| JArray (items : list JsValue)
| JObject (props : list (string * JsValue))
| JBlob (content : string)
| JFormData (fields : list (string * string)).

(** Truthiness, as [if (v)], [a || b] and [a && b] test it. *)
Definition truthy (v : JsValue) : bool :=
  match v with
  | JUndefined | JNull => false
  | JBool b => b
  | JNumber n => negb (n =? 0)%Z
  | JString s => negb (String.eqb s "")
  | JArray _ | JObject _ | JBlob _ | JFormData _ => true
  end.

(** [a || b] on values. *)
Definition js_or (a b : JsValue) : JsValue := if truthy a then a else b.

(** A thrown value.  [ErrorInstance] stands for [Error] and the built-in
    classes below it ([TypeError], [SyntaxError], [DOMException]) with their
    [name]; [ApiMeta] is the class of api.ts, whose [name] is the inherited
    "Error"; [ThrownValue] is any value that is not an [Error], such as a
    parsed JSON body thrown as it is. *)
Inductive Thrown : Type :=
| ErrorInstance (name message : string)
| ApiMeta (code message status : JsValue)
| ThrownValue (v : JsValue).

Inductive Result (A : Type) : Type :=
| Ok (a : A)
| Throw (e : Thrown).
Arguments Ok {A} a.
Arguments Throw {A} e.

(** [err instanceof Error && err.name === "AbortError"] *)
Definition isAbortError (err : Thrown) : bool :=
  match err with
  | ErrorInstance name _ => String.eqb name "AbortError"
  | ApiMeta _ _ _ => false
  | ThrownValue _ => false
  end.

(** Reading a property off a parsed body ([meta], [status], [code],
    [message]): a property of [null] or [undefined] cannot be read, which
    throws a [TypeError]; a value that is not an object has none of them. *)
Definition cannot_read : Thrown :=
  ErrorInstance "TypeError" "Cannot read properties of undefined".

Fixpoint assoc_get (name : string) (props : list (string * JsValue)) : JsValue :=
  match props with
  | [] => JUndefined
  | (k, v) :: rest => if String.eqb k name then v else assoc_get name rest
  end.

Definition get_field (v : JsValue) (name : string) : Result JsValue :=
  match v with
  | JUndefined | JNull => Throw cannot_read
  | JObject props => Ok (assoc_get name props)
  | _ => Ok JUndefined
  end.

(** The platform functions the code calls. *)
Class Platform : Type := {
  JSON_stringify : JsValue -> string;
  encodeURIComponent : JsValue -> string;
  Object_entries : JsValue -> list (string * JsValue)
}.

(* ===================================================================== *)
(** ** Number.prototype.toString(36) and ApiInstance.hash                 *)
(* ===================================================================== *)

(** ToInt32: the value of a bitwise operator's operand. *)
Definition ToInt32 (z : Z) : Z := ((z + 2 ^ 31) mod 2 ^ 32 - 2 ^ 31)%Z.

(** [a << n] *)
Definition shl32 (a n : Z) : Z := ToInt32 (Z.shiftl (ToInt32 a) n).

(** [a & b] *)
Definition and32 (a b : Z) : Z := ToInt32 (Z.land (ToInt32 a) (ToInt32 b)).

Definition digit36 (d : Z) : ascii :=
  if (d <? 10)%Z then ascii_of_nat (48 + Z.to_nat d)
  else ascii_of_nat (87 + Z.to_nat d).

Fixpoint digits36 (fuel : nat) (n : Z) (acc : string) : string :=
  match fuel with
  | O => acc
  | S fuel' =>
      let acc' := String (digit36 (n mod 36)) acc in
      if (n / 36 =? 0)%Z then acc' else digits36 fuel' (n / 36) acc'
  end.

(** [n.toString(36)] for an integer [n]: a number below 2^k has at most k
    digits in base 36, which bounds the loop. *)
Definition toString36 (n : Z) : string :=
  let mag := Z.abs n in
  let body := digits36 (S (Z.to_nat (Z.log2 mag))) mag "" in
  if (n <? 0)%Z then String "-" body else body.

(** [str.charCodeAt(i)] for each [i], in order. *)
Definition charCodes (str : string) : list Z :=
  map (fun c => Z.of_nat (nat_of_ascii c)) (list_ascii_of_string str).

(** One round of the loop of [hash]:
    [hash = (hash << 5) - hash + char; hash = hash & hash]. *)
Definition hash_round (hash char : Z) : Z :=
  let hash1 := (shl32 hash 5 - hash + char)%Z in
  and32 hash1 hash1.

(** [hash(str)]: the loop over the character codes, from [hash = 0]. *)
Definition hash_codes (codes : list Z) : Z := fold_left hash_round codes 0%Z.

Definition hash (str : string) : string := toString36 (hash_codes (charCodes str)).

(* ===================================================================== *)
(** ** Configuration, responses, interceptors                            *)
(* ===================================================================== *)

Inductive Method : Type := GET | POST | PUT | PATCH | DELETE.

Definition Method_eqb (a b : Method) : bool :=
  match a, b with
  | GET, GET | POST, POST | PUT, PUT | PATCH, PATCH | DELETE, DELETE => true
  | _, _ => false
  end.

Definition Method_name (m : Method) : string :=
  match m with
  | GET => "GET" | POST => "POST" | PUT => "PUT"
  | PATCH => "PATCH" | DELETE => "DELETE"
  end.

(** [cache?: { enabled?: boolean; revalidate?: number }] *)
Record TCacheConfig : Type := {
  enabled : option bool;
  revalidate : option Z
}.

(** [TApiConfig] = the request fields and [THttpConfig].  An absent [body]
    or [params] is [JUndefined]; [signal] names the abort controller the
    signal belongs to; [onUpload] and [onDownload] record whether a progress
    callback was given. *)
Record TApiConfig : Type := {
  cfg_baseURL : option string;
  url : string;
  method : option Method;
  body : JsValue;
  mode : option string;
  retry : option Z;
  headers : option (gmap string string);
  params : JsValue;
  cache : option TCacheConfig;
  signal : option nat;
  onUpload : bool;
  onDownload : bool
}.

(** [TCacheEntry<T>] *)
Record TCacheEntry (T : Type) : Type := {
  data : T;
  timestamp : Z;
  ttl : option Z
}.
Arguments data {T} _.
Arguments timestamp {T} _.
Arguments ttl {T} _.

(** [TApiResponse<T>] *)
Record TApiResponse (T : Type) : Type := {
  res_data : T;
  cacheKey : option string;
  fromCache : bool
}.
Arguments res_data {T} _.
Arguments cacheKey {T} _.
Arguments fromCache {T} _.

(** A [Response] as the client reads it: the status line, the content-type
    header and what each way of reading the body gives. *)
Record Response : Type := {
  ok : bool;
  status : Z;
  statusText : string;
  content_type : option string;
  json : Result JsValue;
  text : Result string;
  blob : Result JsValue
}.

(** [IApiInterceptor]: three optional hooks. *)
Record IApiInterceptor : Type := {
  icp_request : option (TApiConfig -> Result TApiConfig);
  icp_response : option (Response -> Result Response);
  icp_error : option (Thrown -> Result (TApiResponse JsValue))
}.

(** The fields of an [ApiInstance]. *)
Record ApiInstance : Type := {
  baseURL : string;
  defaultHeaders : gmap string string;
  interceptors : IApiInterceptor;
  source : string;
  cache_map : gmap string (TCacheEntry JsValue);
  maxCacheSize : Z;
  cacheAccessOrder : list string
}.

(** [TApiInstanceOptions] *)
Record TApiInstanceOptions : Type := {
  opt_baseURL : option string;
  opt_headers : option (gmap string string);
  opt_source : option string;
  opt_maxCacheSize : option Z
}.

(** [a || b] for an optional string and for an optional number. *)
Definition string_or (a : option string) (b : string) : string :=
  match a with
  | Some s => if String.eqb s "" then b else s
  | None => b
  end.

Definition number_or (a : option Z) (b : Z) : Z :=
  match a with
  | Some n => if (n =? 0)%Z then b else n
  | None => b
  end.

(** [constructor(options)] *)
Definition new_ApiInstance (options : TApiInstanceOptions) : ApiInstance :=
  {| baseURL := string_or (opt_baseURL options) "";
     defaultHeaders := default ∅ (opt_headers options);
     interceptors := {| icp_request := None; icp_response := None; icp_error := None |};
     source := "komcards-" +:+ string_or (opt_source options) "default";
     cache_map := ∅;
     maxCacheSize := number_or (opt_maxCacheSize options) 100;
     cacheAccessOrder := [] |}.

Definition setInterceptors (icp : IApiInterceptor) (this : ApiInstance) : ApiInstance :=
  {| baseURL := baseURL this;
     defaultHeaders := defaultHeaders this;
     interceptors := icp;
     source := source this;
     cache_map := cache_map this;
     maxCacheSize := maxCacheSize this;
     cacheAccessOrder := cacheAccessOrder this |}.

(** The instance with another cache map and access order. *)
Definition with_cache (this : ApiInstance)
    (m : gmap string (TCacheEntry JsValue)) (order : list string) : ApiInstance :=
  {| baseURL := baseURL this;
     defaultHeaders := defaultHeaders this;
     interceptors := interceptors this;
     source := source this;
     cache_map := m;
     maxCacheSize := maxCacheSize this;
     cacheAccessOrder := order |}.

(* ===================================================================== *)
(** ** The cache key                                                      *)
(* ===================================================================== *)

(** [buildcacheKey(config)] *)
Definition buildcacheKey `{Platform} (this : ApiInstance) (config : TApiConfig) : string :=
  let keyObj := JObject [("url", JString (url config));
                         ("params", params config)] in
  let keyString := JSON_stringify keyObj in
  if (200 <? String.length keyString)%nat
  then source this +:+ ":" +:+ hash keyString
  else source this +:+ ":" +:+ keyString.

(* ===================================================================== *)
(** ** The cache: a bounded map and its access order                      *)
(* ===================================================================== *)

(** [arr.indexOf(key)] followed by [arr.splice(index, 1)] when the index is
    not -1: the first occurrence of [key] is removed. *)
Fixpoint splice_first (key : string) (arr : list string) : list string :=
  match arr with
  | [] => []
  | k :: rest => if String.eqb k key then rest else k :: splice_first key rest
  end.

(** [getCacheEntry(key)]: the entry, and the instance after the call. *)
Definition getCacheEntry (key : string) (this : ApiInstance)
    : option (TCacheEntry JsValue) * ApiInstance :=
  match cache_map this !! key with
  | Some entry =>
      (Some entry,
       with_cache this (cache_map this)
         (splice_first key (cacheAccessOrder this) ++ [key]))
  | None => (None, this)
  end.

(** The eviction step of [setCacheEntry]: [shift()] the access order and
    delete the shifted key when it is truthy. *)
Definition evict_oldest (this : ApiInstance) : ApiInstance :=
  match cacheAccessOrder this with
  | [] => this
  | oldestKey :: rest =>
      if negb (String.eqb oldestKey "")
      then with_cache this (delete oldestKey (cache_map this)) rest
      else with_cache this (cache_map this) rest
  end.

(** [setCacheEntry(key, entry)] *)
Definition setCacheEntry (key : string) (entry : TCacheEntry JsValue)
    (this : ApiInstance) : ApiInstance :=
  let this1 :=
    if (maxCacheSize this <=? Z.of_nat (size (cache_map this)))%Z
       && negb (bool_decide (is_Some (cache_map this !! key)))
    then evict_oldest this
    else this in
  with_cache this1 (<[key := entry]> (cache_map this1))
    (splice_first key (cacheAccessOrder this1) ++ [key]).

(** [removeCacheEntry(key)] *)
Definition removeCacheEntry (key : string) (this : ApiInstance) : ApiInstance :=
  with_cache this (delete key (cache_map this))
    (splice_first key (cacheAccessOrder this)).

(** [getCache(key)]: [entry?.data]. *)
Definition getCache (key : string) (this : ApiInstance) : option JsValue * ApiInstance :=
  let '(entry, this') := getCacheEntry key this in
  (data <$> entry, this').

(** [setCache(key, data, ttl)] at the time [now] that [Date.now()] gives. *)
Definition setCache (key : string) (d : JsValue) (t : option Z) (now : Z)
    (this : ApiInstance) : ApiInstance :=
  setCacheEntry key {| data := d; timestamp := now; ttl := t |} this.

Definition removeCache (key : string) (this : ApiInstance) : ApiInstance :=
  removeCacheEntry key this.

(** [clearCache()] *)
Definition clearCache (this : ApiInstance) : ApiInstance :=
  with_cache this ∅ [].

(* ===================================================================== *)
(** ** Computations: state, thrown values, bounded loops                  *)
(* ===================================================================== *)

(** A computation over a state [S]: it ends with a value or a thrown value
    and the state it leaves, or does not end within the fuel of one of its
    loops ([None]). *)
Definition M (S A : Type) : Type := S -> option (Result A * S).

Definition ret {S A : Type} (a : A) : M S A := fun s => Some (Ok a, s).

Definition throw {S A : Type} (e : Thrown) : M S A := fun s => Some (Throw e, s).

Definition lift_result {S A : Type} (r : Result A) : M S A := fun s => Some (r, s).

Definition bind {S A B : Type} (m : M S A) (k : A -> M S B) : M S B :=
  fun s =>
    match m s with
    | Some (Ok a, s') => k a s'
    | Some (Throw e, s') => Some (Throw e, s')
    | None => None
    end.

(** [try { m } catch (e) { handler e }] *)
Definition try_catch {S A : Type} (m : M S A) (handler : Thrown -> M S A) : M S A :=
  fun s =>
    match m s with
    | Some (Throw e, s') => handler e s'
    | other => other
    end.

Notation "'let*' x ':=' m 'in' k" := (bind m (fun x => k))
  (at level 10, x name, m at level 100, k at level 200).

(** Sequencing inside [Result]. *)
Definition rbind {A B : Type} (r : Result A) (k : A -> Result B) : Result B :=
  match r with
  | Ok a => k a
  | Throw e => Throw e
  end.

(* ===================================================================== *)
(** ** The outside world: clock and network                               *)
(* ===================================================================== *)

(** What is sent with a request: [RequestInit]. *)
Inductive SentBody : Type :=
| SentFormData (fields : list (string * string))
| SentString (s : string).

Record RequestInit : Type := {
  init_method : string;
  init_headers : gmap string string;
  init_body : option SentBody;
  init_signal : option nat
}.

(** What the program does to the world, in order. *)
Inductive Event : Type :=
| EvFetch (xhr : bool) (input : string) (init : RequestInit)
| EvDelay (ms : Z).

(** The answer to one network call: a response or a rejection, and the time
    it took. *)
Record NetReply : Type := {
  reply : Result Response;
  elapsed : Z
}.

(** The world: the clock [Date.now()] reads, the answers of the network to
    the first, second, ... call, how many calls were made, and the log. *)
Record World : Type := {
  now : Z;
  net : nat -> NetReply;
  sent : nat;
  log : list Event
}.

(** [fetch(input, init)] or [fetchWithXHR(input, init, ...)]: one network
    call; the next answer of the network is consumed. *)
Definition network (xhr : bool) (input : string) (init : RequestInit) : M World Response :=
  fun w =>
    let r := net w (sent w) in
    Some (reply r,
          {| now := (now w + elapsed r)%Z;
             net := net w;
             sent := S (sent w);
             log := log w ++ [EvFetch xhr input init] |}).

(** [await new Promise(r => setTimeout(r, delay))] *)
Definition sleep (delay : Z) : M World unit :=
  fun w =>
    Some (Ok tt,
          {| now := (now w + delay)%Z;
             net := net w;
             sent := sent w;
             log := log w ++ [EvDelay delay] |}).

(* ===================================================================== *)
(** ** fetchWithRetry                                                     *)
(* ===================================================================== *)

(** [a || b || c] where [b] is read off [meta], which may be undefined. *)
Definition first_truthy `{Platform} (error meta : JsValue) (name : string)
    (fallback : JsValue) : Result JsValue :=
  rbind (get_field error name) (fun a =>
  if truthy a then Ok a else
  rbind (get_field meta name) (fun b =>
  if truthy b then Ok b else Ok fallback)).

(** The block run on a response that is not ok, in [fetchWithRetry] and
    again in [request]: it parses the body as JSON and throws, either an
    [ApiMeta] built from it or the parsed body itself.  Every path throws;
    the function gives the thrown value. *)
Definition notOk_thrown `{Platform} (res : Response) : Thrown :=
  let r :=
    rbind (json res) (fun error =>
    rbind (get_field error "meta") (fun meta =>
    rbind (get_field error "status") (fun st =>
    if truthy (js_or meta st) then
      rbind (first_truthy error meta "code" (JNumber (status res))) (fun code =>
      rbind (first_truthy error meta "message" (JString (JSON_stringify error))) (fun message =>
      rbind (first_truthy error meta "status" (JString (statusText res))) (fun status' =>
      Throw (ApiMeta code message status'))))
    else Throw (ThrownValue error)))) in
  match r with
  | Ok v => ThrownValue v
  | Throw e => e
  end.

(** The body of the [try] of one round: one network call, then the check
    of [res.ok]. *)
Definition attempt_once `{Platform} (xhr : bool) (input : string) (init : RequestInit)
    : M World Response :=
  let* res := network xhr input init in
  if negb (ok res) then throw (notOk_thrown res) else ret res.

(** The [while (attempt <= retry)] loop, from the current [attempt] and
    [lastErr]. *)
Fixpoint fetchWithRetry_loop `{Platform} (fuel : nat) (xhr : bool) (input : string)
    (init : RequestInit) (retry attempt : Z) (lastErr : Thrown) : M World Response :=
  fun w =>
    match fuel with
    | O => None
    | S fuel' =>
        if (attempt <=? retry)%Z then
          try_catch (attempt_once xhr input init)
            (fun err =>
               if isAbortError err then throw err
               else if (attempt =? retry)%Z then throw err
               else
                 let delay := (2 ^ attempt * 200)%Z in
                 let* _ := sleep delay in
                 fetchWithRetry_loop fuel' xhr input init retry (attempt + 1) err)
            w
        else throw lastErr w
    end.

(** [{ ...init, signal }] *)
Definition init_with_signal (init : RequestInit) (signal' : option nat) : RequestInit :=
  {| init_method := init_method init;
     init_headers := init_headers init;
     init_body := init_body init;
     init_signal := signal' |}.

(** [fetchWithRetry(input, init, retry, signal, onUpload, onDownload)]:
    XHR is used when a progress callback is given.  The loop has at most
    [retry + 1] rounds, which is the fuel it gets. *)
Definition fetchWithRetry `{Platform} (input : string) (init : RequestInit) (retry : Z)
    (signal' : option nat) (onUpload' onDownload' : bool) : M World Response :=
  fetchWithRetry_loop (S (Z.to_nat retry)) (onUpload' || onDownload') input
    (init_with_signal init signal') retry 0 (ThrownValue JUndefined).

(* ===================================================================== *)
(** ** buildURL                                                           *)
(* ===================================================================== *)

(** [arr.join(sep)] *)
Fixpoint join (sep : string) (parts : list string) : string :=
  match parts with
  | [] => ""
  | [p] => p
  | p :: rest => p +:+ sep +:+ join sep rest
  end.

(** [str.includes(sub)] *)
Definition includes (sub str : string) : bool :=
  match String.index 0 sub str with
  | Some _ => true
  | None => false
  end.

(** One [key=value] of the query string. *)
Definition query_entry `{Platform} (kv : string * JsValue) : string :=
  let '(key, value) := kv in
  match value with
  | JArray items =>
      encodeURIComponent (JString key) +:+ "=" +:+ join "," (map encodeURIComponent items)
  | _ => encodeURIComponent (JString key) +:+ "=" +:+ encodeURIComponent value
  end.

(** [buildURL(url, params)] *)
Definition buildURL `{Platform} (url' : string) (params' : JsValue) : string :=
  if negb (truthy params') then url'
  else
    let queryString := join "&" (map query_entry (Object_entries params')) in
    if includes "?" url' then url' +:+ "&" +:+ queryString
    else url' +:+ "?" +:+ queryString.

(* ===================================================================== *)
(** ** ApiInstance.request                                                *)
(* ===================================================================== *)

(** The state of a request: the instance and the world. *)
Definition get_this : M (ApiInstance * World) ApiInstance :=
  fun s => Some (Ok (fst s), s).

Definition Date_now : M (ApiInstance * World) Z :=
  fun s => Some (Ok (now (snd s)), s).

(** A method of the cache run on [this]. *)
Definition on_this {A : Type} (f : ApiInstance -> A * ApiInstance)
    : M (ApiInstance * World) A :=
  fun s => let '(a, this') := f (fst s) in Some (Ok a, (this', snd s)).

Definition update_this (f : ApiInstance -> ApiInstance) : M (ApiInstance * World) unit :=
  fun s => Some (Ok tt, (f (fst s), snd s)).

(** A computation over the world alone, run in a request. *)
Definition in_world {A : Type} (m : M World A) : M (ApiInstance * World) A :=
  fun s =>
    match m (snd s) with
    | Some (r, w') => Some (r, (fst s, w'))
    | None => None
    end.

Definition handleInterceptors (this : ApiInstance) (config : TApiConfig) : Result TApiConfig :=
  match icp_request (interceptors this) with
  | Some f => f config
  | None => Ok config
  end.

Definition handleResponse (this : ApiInstance) (response : Response) : Result Response :=
  match icp_response (interceptors this) with
  | Some f => f response
  | None => Ok response
  end.

Definition handleError (this : ApiInstance) (error : Thrown) : Result (TApiResponse JsValue) :=
  match icp_error (interceptors this) with
  | Some f => f error
  | None => Throw error
  end.

(** [finalConfig.cache && finalConfig.cache.enabled && finalConfig.method === "GET"] *)
Definition cache_wanted (c : TApiConfig) : bool :=
  match cache c with
  | Some cc =>
      default false (enabled cc)
      && match method c with Some GET => true | _ => false end
  | None => false
  end.

(** [cached.ttl && Date.now() - cached.timestamp > cached.ttl] *)
Definition expired (cached : TCacheEntry JsValue) (now' : Z) : bool :=
  match ttl cached with
  | Some t => negb (t =? 0)%Z && (t <? now' - timestamp cached)%Z
  | None => false
  end.

(** The cache part of [request]: the data to answer with, if any. *)
Definition cache_lookup (key : string) : M (ApiInstance * World) (option JsValue) :=
  let* cached := on_this (getCacheEntry key) in
  match cached with
  | Some c =>
      let* now' := Date_now in
      if negb (expired c now') then ret (Some (data c))
      else
        let* _ := update_this (removeCacheEntry key) in
        ret None
  | None => ret None
  end.

(** The [if (!finalResponse.ok)] block of [request]: the [try] always
    throws, so its [catch] always runs and throws an [Error] with the text
    of the body, or with the status text when the text is empty. *)
Definition request_notOk_thrown `{Platform} (finalResponse : Response) : Thrown :=
  let _swallowed := notOk_thrown finalResponse in
  match text finalResponse with
  | Ok errorText =>
      ErrorInstance "Error"
        (if String.eqb errorText "" then statusText finalResponse else errorText)
  | Throw e => e
  end.

(** The body is read according to the content type. *)
Definition read_body (finalResponse : Response) : Result JsValue :=
  let contentType := string_or (content_type finalResponse) "" in
  if includes "application/json" contentType then json finalResponse
  else if includes "text/" contentType
       then rbind (text finalResponse) (fun t => Ok (JString t))
       else blob finalResponse.

(** The [RequestInit] that [request] passes to [fetchWithRetry]. *)
Definition request_init `{Platform} (this : ApiInstance) (finalConfig : TApiConfig)
    : RequestInit :=
  let isFormData :=
    match body finalConfig with JFormData _ => true | _ => false end in
  {| init_method :=
       match method finalConfig with Some m => Method_name m | None => "GET" end;
     init_headers :=
       default ∅ (headers finalConfig)
       ∪ defaultHeaders this
       ∪ (if isFormData then ∅ else {[ "Content-Type" := "application/json" ]});
     init_body :=
       match body finalConfig with
       | JFormData fields => Some (SentFormData fields)
       | v => if truthy v then Some (SentString (JSON_stringify v)) else None
       end;
     init_signal := None |}.

(** [finalURL]: the url after the base URL, with the query string. *)
Definition request_url `{Platform} (this : ApiInstance) (finalConfig : TApiConfig) : string :=
  let url' :=
    if negb (String.eqb (baseURL this) "") then baseURL this +:+ url finalConfig
    else url finalConfig in
  buildURL url' (params finalConfig).

(** [finalConfig.cache?.revalidate] *)
Definition revalidate_of (c : TApiConfig) : option Z :=
  match cache c with
  | Some cc => revalidate cc
  | None => None
  end.

(** [request] from the response of [fetchWithRetry] on. *)
Definition request_finish `{Platform} (this : ApiInstance) (finalConfig : TApiConfig)
    (key : string) (response : Response) : M (ApiInstance * World) (TApiResponse JsValue) :=
  let* finalResponse := lift_result (handleResponse this response) in
  if negb (ok finalResponse) then throw (request_notOk_thrown finalResponse)
  else
    let* data' := lift_result (read_body finalResponse) in
    let* _ :=
      (if cache_wanted finalConfig then
         let* now' := Date_now in
         update_this
           (setCacheEntry key
              {| data := data';
                 timestamp := now';
                 ttl := revalidate_of finalConfig |})
       else ret tt) in
    ret {| res_data := data'; cacheKey := Some key; fromCache := false |}.

(** [request] from the network call on. *)
Definition request_network `{Platform} (this : ApiInstance) (finalConfig : TApiConfig)
    (key : string) : M (ApiInstance * World) (TApiResponse JsValue) :=
  let* response :=
    in_world (fetchWithRetry (request_url this finalConfig)
                (request_init this finalConfig)
                (default 0%Z (retry finalConfig)) (signal finalConfig)
                (onUpload finalConfig) (onDownload finalConfig)) in
  request_finish this finalConfig key response.

(** The [try] block of [request] once [finalConfig] is known. *)
Definition request_from `{Platform} (this : ApiInstance) (finalConfig : TApiConfig)
    : M (ApiInstance * World) (TApiResponse JsValue) :=
  let key := buildcacheKey this finalConfig in
  let* hit := (if cache_wanted finalConfig then cache_lookup key else ret None) in
  match hit with
  | Some d => ret {| res_data := d; cacheKey := Some key; fromCache := true |}
  | None => request_network this finalConfig key
  end.

(** The [try] block of [request]. *)
Definition request_try `{Platform} (config : TApiConfig)
    : M (ApiInstance * World) (TApiResponse JsValue) :=
  let* this := get_this in
  let* finalConfig := lift_result (handleInterceptors this config) in
  request_from this finalConfig.

(** The [catch] block of [request]: [return this.handleError(error)]. *)
Definition request_catch (error' : Thrown) : M (ApiInstance * World) (TApiResponse JsValue) :=
  let* this := get_this in lift_result (handleError this error').

(** [request(config)]: the [try] block, and [handleError] on what it
    throws. *)
Definition request `{Platform} (config : TApiConfig)
    : M (ApiInstance * World) (TApiResponse JsValue) :=
  try_catch (request_try config) request_catch.

(** [get(url, config)]: [request({ ...config, url, method: "GET" })]. *)
Definition with_url_method (config : TApiConfig) (url' : string) (m : Method)
    (body' : JsValue) : TApiConfig :=
  {| cfg_baseURL := cfg_baseURL config;
     url := url';
     method := Some m;
     body := body';
     mode := mode config;
     retry := retry config;
     headers := headers config;
     params := params config;
     cache := cache config;
     signal := signal config;
     onUpload := onUpload config;
     onDownload := onDownload config |}.

Definition get `{Platform} (url' : string) (config : TApiConfig)
    : M (ApiInstance * World) (TApiResponse JsValue) :=
  request (with_url_method config url' GET (body config)).

(** [post], [put], [patch] and [delete]:
    [request({ ...config, url, method, body })]. *)
Definition post `{Platform} (url' : string) (body' : JsValue) (config : TApiConfig)
    : M (ApiInstance * World) (TApiResponse JsValue) :=
  request (with_url_method config url' POST body').

Definition put `{Platform} (url' : string) (body' : JsValue) (config : TApiConfig)
    : M (ApiInstance * World) (TApiResponse JsValue) :=
  request (with_url_method config url' PUT body').

Definition patch `{Platform} (url' : string) (body' : JsValue) (config : TApiConfig)
    : M (ApiInstance * World) (TApiResponse JsValue) :=
  request (with_url_method config url' PATCH body').

Definition delete_ `{Platform} (url' : string) (body' : JsValue) (config : TApiConfig)
    : M (ApiInstance * World) (TApiResponse JsValue) :=
  request (with_url_method config url' DELETE body').

(** The public operations on an instance, for sequences of calls. *)
Inductive Op : Type :=
| OpRequest (config : TApiConfig)
| OpGetCache (key : string)
| OpSetCache (key : string) (d : JsValue) (t : option Z)
| OpRemoveCache (key : string)
| OpClearCache.

Definition run_op `{Platform} (op : Op) : M (ApiInstance * World) unit :=
  match op with
  | OpRequest config =>
      try_catch (let* _ := request config in ret tt) (fun _ => ret tt)
  | OpGetCache key => let* _ := on_this (getCache key) in ret tt
  | OpSetCache key d t =>
      let* now' := Date_now in update_this (setCache key d t now')
  | OpRemoveCache key => update_this (removeCache key)
  | OpClearCache => update_this clearCache
  end.

Fixpoint run_ops `{Platform} (ops : list Op) : M (ApiInstance * World) unit :=
  match ops with
  | [] => ret tt
  | op :: rest => let* _ := run_op op in run_ops rest
  end.

(* ===================================================================== *)
(** ** The hook layer: what it shares                                     *)
(* ===================================================================== *)

(** A request made through the instance by a hook is in flight until its
    promise settles.  A promise is named by the position of its request in
    [issued]; abort controllers are numbered as they are created.
    [pendingRequests] is the module-level map of createApi. *)
Record Runtime : Type := {
  pendingRequests : gmap string nat;
  issued : list TApiConfig;
  controllers : nat;
  aborted : list nat
}.

(** [if (abortControllerRef.current) abortControllerRef.current.abort();
     abortControllerRef.current = new AbortController()] *)
Definition renew_controller (current : option nat) (rt : Runtime) : nat * Runtime :=
  (controllers rt,
   {| pendingRequests := pendingRequests rt;
      issued := issued rt;
      controllers := S (controllers rt);
      aborted := match current with
                 | Some c => aborted rt ++ [c]
                 | None => aborted rt
                 end |}).

(** A call of [instance.request(config)]: the promise it returns. *)
Definition issue (config : TApiConfig) (rt : Runtime) : nat * Runtime :=
  (length (issued rt),
   {| pendingRequests := pendingRequests rt;
      issued := issued rt ++ [config];
      controllers := controllers rt;
      aborted := aborted rt |}).

Definition with_pending (rt : Runtime) (m : gmap string nat) : Runtime :=
  {| pendingRequests := m;
     issued := issued rt;
     controllers := controllers rt;
     aborted := aborted rt |}.

(* ===================================================================== *)
(** ** useMutation                                                        *)
(* ===================================================================== *)

Inductive ProgressKind : Type := ProgressUpload | ProgressDownload.

(** [TMutationOptions] *)
Record TMutationOptions : Type := {
  mo_cache : option TCacheConfig;
  mo_headers : option (gmap string string);
  mo_method : option Method;
  mo_signal : option nat;
  mo_progress : option ProgressKind;
  mo_queryMutation : option bool
}.

Record TProgress : Type := {
  loaded : Z;
  total : Z;
  percentage : Z
}.

(** The state of the hook, without [mutate]. *)
Record MutationState : Type := {
  mut_isLoading : bool;
  mut_cacheKey : option string;
  mut_progress : option TProgress
}.

(** One use of the hook: its arguments, its abort controller ref and its
    state. *)
Record MutationHook : Type := {
  mh_url : string;
  mh_config : option TMutationOptions;
  mh_controller : option nat;
  mh_state : MutationState
}.

Definition mutation_method (hook : MutationHook) : Method :=
  match mh_config hook with
  | Some c => default GET (mo_method c)
  | None => GET
  end.

(** [JSON.stringify({ url, method, request })] *)
Definition requestKey `{Platform} (hook : MutationHook) (request' : JsValue) : string :=
  JSON_stringify
    (JObject [("url", JString (mh_url hook));
              ("method", JString (Method_name (mutation_method hook)));
              ("request", request')]).

(** The config [mutate] passes to the instance: through [instance.get] for
    GET, to [instance.request] otherwise. *)
Definition mutation_request `{Platform} (hook : MutationHook) (request' : JsValue)
    (controller : nat) : TApiConfig :=
  let cfg := mh_config hook in
  let progress_is k :=
    match cfg with
    | Some c => match mo_progress c, k with
                | Some ProgressUpload, ProgressUpload => true
                | Some ProgressDownload, ProgressDownload => true
                | _, _ => false
                end
    | None => false
    end in
  let queryMutation :=
    match cfg with Some c => default false (mo_queryMutation c) | None => false end in
  match mutation_method hook with
  | GET =>
      {| cfg_baseURL := None;
         url := mh_url hook;
         method := Some GET;
         body := JUndefined;
         mode := None;
         retry := None;
         headers := cfg ≫= mo_headers;
         params := request';
         cache := cfg ≫= mo_cache;
         signal := Some controller;
         onUpload := false;
         onDownload := progress_is ProgressDownload |}
  | m =>
      {| cfg_baseURL := None;
         url := if queryMutation then buildURL (mh_url hook) request' else mh_url hook;
         method := Some m;
         body := if truthy request' then request' else JUndefined;
         mode := None;
         retry := None;
         headers := cfg ≫= mo_headers;
         params := JUndefined;
         cache := cfg ≫= mo_cache;
         signal := Some controller;
         onUpload := progress_is ProgressUpload;
         onDownload := false |}
  end.

Definition set_mutation_state (hook : MutationHook) (controller : option nat)
    (st : MutationState) : MutationHook :=
  {| mh_url := mh_url hook;
     mh_config := mh_config hook;
     mh_controller := controller;
     mh_state := st |}.

(** [finally { if (pendingRequests.has(requestKey)) pendingRequests.delete(requestKey) }] *)
Definition mutate_finally (key : string) (rt : Runtime) : Runtime :=
  with_pending rt (delete key (pendingRequests rt)).

(** Where a call of [mutate] stands once it has run up to its first
    [await] or [return]. *)
Inductive MutateStep : Type :=
| Deduplicated (promise : nat)
| Awaiting (key : string) (promise : nat).

(** [mutate(request)] up to [await requestPromise], or to the [return] of
    the pending promise, after which the [finally] block has run. *)
Definition mutate_begin `{Platform} (request' : JsValue) (s : MutationHook * Runtime)
    : MutateStep * (MutationHook * Runtime) :=
  let '(hook, rt) := s in
  let '(controller, rt1) := renew_controller (mh_controller hook) rt in
  let hook1 :=
    set_mutation_state hook (Some controller)
      {| mut_isLoading := true;
         mut_cacheKey := mut_cacheKey (mh_state hook);
         mut_progress := None |} in
  let key := requestKey hook request' in
  match pendingRequests rt1 !! key with
  | Some promise => (Deduplicated promise, (hook1, mutate_finally key rt1))
  | None =>
      let '(requestPromise, rt2) := issue (mutation_request hook request' controller) rt1 in
      (Awaiting key requestPromise,
       (hook1, with_pending rt2 (<[key := requestPromise]> (pendingRequests rt2))))
  end.

(** [mutate] from the moment [requestPromise] settles with [outcome]: what
    the call gives its caller. *)
Definition mutate_settle (key : string) (outcome : Result (TApiResponse JsValue))
    (s : MutationHook * Runtime)
    : Result (TApiResponse JsValue) * (MutationHook * Runtime) :=
  let '(hook, rt) := s in
  match outcome with
  | Ok response =>
      (Ok response,
       (set_mutation_state hook (mh_controller hook)
          {| mut_isLoading := false;
             mut_cacheKey := cacheKey response;
             mut_progress := None |},
        mutate_finally key rt))
  | Throw err =>
      (Throw err,
       (set_mutation_state hook (mh_controller hook)
          {| mut_isLoading := false; mut_cacheKey := None; mut_progress := None |},
        mutate_finally key rt))
  end.

(** What the caller of [mutate] gets once the promises have settled as
    [settled] says: a call that returned the pending promise follows it. *)
Definition mutate_result (step : MutateStep) (settled : nat -> Result (TApiResponse JsValue))
    (s : MutationHook * Runtime) : Result (TApiResponse JsValue) :=
  match step with
  | Deduplicated promise => settled promise
  | Awaiting key promise => fst (mutate_settle key (settled promise) s)
  end.

(* ===================================================================== *)
(** ** useInfiniteFetch                                                   *)
(* ===================================================================== *)

(** [TInfiniteFetchOptions<T>]; [setOffset] gives [None] for [null]. *)
Record TInfiniteFetchOptions : Type := {
  initialOffset : Z;
  offsetKey : option string;
  setOffset : JsValue -> list JsValue -> Z -> option Z
}.

(** The six state cells of the hook. *)
Record InfiniteState : Type := {
  items : list JsValue;
  offset : Z;
  isLoading : bool;
  isFetchingNextPage : bool;
  hasNextPage : bool;
  error : option Thrown
}.

(** One use of the hook.  [fetchPage] is memoised with [useCallback] on
    [url, stableConfig, offsetKey]: the function in use is the one created in
    the last render in which one of these changed, and the [items] it reads
    is the [items] of that render, kept in [fetchPage_items]. *)
Record InfiniteHook : Type := {
  ih_url : string;
  ih_options : TInfiniteFetchOptions;
  ih_config : option TApiConfig;
  ih_controller : option nat;
  ih_state : InfiniteState;
  fetchPage_items : list JsValue
}.

Definition with_infinite (hook : InfiniteHook) (controller : option nat)
    (st : InfiniteState) : InfiniteHook :=
  {| ih_url := ih_url hook;
     ih_options := ih_options hook;
     ih_config := ih_config hook;
     ih_controller := controller;
     ih_state := st;
     fetchPage_items := fetchPage_items hook |}.

(** [obj[key] = value] on the list of properties. *)
Fixpoint set_prop (key : string) (value : JsValue) (props : list (string * JsValue))
    : list (string * JsValue) :=
  match props with
  | [] => [(key, value)]
  | (k, v) :: rest =>
      if String.eqb k key then (k, value) :: rest else (k, v) :: set_prop key value rest
  end.

(** [{ ...(config?.params ?? {}), [offsetKey ?? 'offset']: offsetValue }] *)
Definition page_params `{Platform} (hook : InfiniteHook) (offsetValue : Z) : JsValue :=
  let base :=
    match ih_config hook with
    | Some c =>
        match params c with
        | JUndefined | JNull => []
        | p => Object_entries p
        end
    | None => []
    end in
  JObject (set_prop (default "offset" (offsetKey (ih_options hook)))
             (JNumber offsetValue) base).

(** The config [fetchPage] passes to [instance.get]. *)
Definition page_request `{Platform} (hook : InfiniteHook) (offsetValue : Z)
    (controller : nat) : TApiConfig :=
  let cfg := ih_config hook in
  {| cfg_baseURL := cfg ≫= cfg_baseURL;
     url := ih_url hook;
     method := Some GET;
     body := match cfg with Some c => body c | None => JUndefined end;
     mode := cfg ≫= mode;
     retry := cfg ≫= retry;
     headers := cfg ≫= headers;
     params := page_params hook offsetValue;
     cache := cfg ≫= cache;
     signal := Some controller;
     onUpload := match cfg with Some c => onUpload c | None => false end;
     onDownload := match cfg with Some c => onDownload c | None => false end |}.

(** The first render: the initial state, and [fetchPage] created over it. *)
Definition useInfiniteFetch (url' : string) (options : TInfiniteFetchOptions)
    (config : option TApiConfig) : InfiniteHook :=
  let st := {| items := [];
               offset := initialOffset options;
               isLoading := false;
               isFetchingNextPage := false;
               hasNextPage := true;
               error := None |} in
  {| ih_url := url';
     ih_options := options;
     ih_config := config;
     ih_controller := None;
     ih_state := st;
     fetchPage_items := items st |}.

(** [fetchPage(offsetValue, append)] up to [await instance.get(...)]: the
    promise awaited. *)
Definition fetchPage_begin `{Platform} (offsetValue : Z) (append : bool)
    (s : InfiniteHook * Runtime) : nat * (InfiniteHook * Runtime) :=
  let '(hook, rt) := s in
  let '(controller, rt1) := renew_controller (ih_controller hook) rt in
  let st := ih_state hook in
  let st1 :=
    {| items := items st;
       offset := offset st;
       isLoading := if negb append then true else isLoading st;
       isFetchingNextPage := if negb append then isFetchingNextPage st else true;
       hasNextPage := hasNextPage st;
       error := error st |} in
  let '(promise, rt2) := issue (page_request hook offsetValue controller) rt1 in
  (promise, (with_infinite hook (Some controller) st1, rt2)).

(** [fetchPage(offsetValue, append)] once the request has settled with
    [outcome]. *)
Definition fetchPage_settle (offsetValue : Z) (append : bool)
    (outcome : Result (TApiResponse JsValue)) (hook : InfiniteHook) : InfiniteHook :=
  let st := ih_state hook in
  match outcome with
  | Ok response =>
      let data' := res_data response in
      let items' := if append then items st ++ [data'] else [data'] in
      let allItems := if append then fetchPage_items hook ++ [data'] else [data'] in
      let nextOffset := setOffset (ih_options hook) data' allItems offsetValue in
      with_infinite hook (ih_controller hook)
        {| items := items';
           offset := match nextOffset with Some o => o | None => offset st end;
           isLoading := false;
           isFetchingNextPage := false;
           hasNextPage := match nextOffset with Some _ => true | None => false end;
           error := None |}
  | Throw err =>
      with_infinite hook (ih_controller hook)
        {| items := items st;
           offset := offset st;
           isLoading := false;
           isFetchingNextPage := false;
           hasNextPage := hasNextPage st;
           error := if isAbortError err then error st else Some err |}
  end.

(** [fetchNextPage()]: the promise awaited, or [None] when the call returns
    at once. *)
Definition fetchNextPage `{Platform} (s : InfiniteHook * Runtime)
    : option nat * (InfiniteHook * Runtime) :=
  let st := ih_state (fst s) in
  if negb (hasNextPage st) || isFetchingNextPage st then (None, s)
  else
    let '(promise, s') := fetchPage_begin (offset st) true s in
    (Some promise, s').

(** [fetchNextPage()] with the answer to its request, if it made one. *)
Definition fetchNextPage_settled `{Platform} (outcome : Result (TApiResponse JsValue))
    (s : InfiniteHook * Runtime) : InfiniteHook * Runtime :=
  let offsetValue := offset (ih_state (fst s)) in
  match fetchNextPage s with
  | (Some _, (hook', rt')) => (fetchPage_settle offsetValue true outcome hook', rt')
  | (None, s') => s'
  end.

(** The effect run after the first render: [fetchPage(initialOffset)]. *)
Definition mount_effect `{Platform} (s : InfiniteHook * Runtime)
    : nat * (InfiniteHook * Runtime) :=
  fetchPage_begin (initialOffset (ih_options (fst s))) false s.

(** [refetch()] up to the [await]. *)
Definition infinite_refetch `{Platform} (s : InfiniteHook * Runtime)
    : nat * (InfiniteHook * Runtime) :=
  let '(hook, rt) := s in
  let st := ih_state hook in
  let hook1 :=
    with_infinite hook (ih_controller hook)
      {| items := [];
         offset := initialOffset (ih_options hook);
         isLoading := isLoading st;
         isFetchingNextPage := isFetchingNextPage st;
         hasNextPage := true;
         error := error st |} in
  fetchPage_begin (initialOffset (ih_options hook)) false (hook1, rt).

(* ===================================================================== *)
(** ** A platform to run the definitions on                               *)
(* ===================================================================== *)

(** A plain rendering of values, enough to evaluate the definitions above
    on concrete requests: strings are quoted without escapes, properties
    whose value is [undefined] are left out, as [JSON.stringify] does. *)
Fixpoint sample_stringify (v : JsValue) : string :=
  match v with
  | JUndefined => "undefined"
  | JNull => "null"
  | JBool b => if b then "true" else "false"
  | JNumber n => NilZero.string_of_int (Z.to_int n)
  | JString str => String.append (String (ascii_of_nat 34) str) (String (ascii_of_nat 34) "")
  | JArray items' => "[" +:+ join "," (map sample_stringify items') +:+ "]"
  | JObject props =>
      "{" +:+
      join ","
        ((fix render (ps : list (string * JsValue)) : list string :=
            match ps with
            | [] => []
            | (_, JUndefined) :: rest => render rest
            | (k, v') :: rest =>
                String.append (String (ascii_of_nat 34) k)
                  (String (ascii_of_nat 34) (":" +:+ sample_stringify v'))
                :: render rest
            end) props)
      +:+ "}"
  | JBlob _ => "{}"
  | JFormData _ => "{}"
  end.

Definition sample_encode (v : JsValue) : string :=
  match v with
  | JString str => str
  | other => sample_stringify other
  end.

Definition sample_entries (v : JsValue) : list (string * JsValue) :=
  match v with
  | JObject props => props
  | _ => []
  end.

Definition sample_platform : Platform :=
  {| JSON_stringify := sample_stringify;
     encodeURIComponent := sample_encode;
     Object_entries := sample_entries |}.

(* ===================================================================== *)
(** ** Vocabulary of the statements                                       *)
(* ===================================================================== *)

(** The polynomial the loop evaluates, without the wrap-around. *)
Definition poly31 (codes : list Z) : Z :=
  fold_left (fun acc c => (31 * acc + c)%Z) codes 0%Z.

(** The key text of the claim: the JSON string of [{url, params}], or its
    hash in base 36 when the string has more than 200 characters. *)
Definition stated_key_text `{Platform} (url' : string) (params' : JsValue) : string :=
  let jsonText := JSON_stringify (JObject [("url", JString url'); ("params", params')]) in
  if decide (200 < String.length jsonText)%nat
  then toString36 (hash_codes (charCodes jsonText))
  else jsonText.

(** What round [i] of a loop started in the world [w] ends with: the
    response of the network when it is ok, what the round throws
    otherwise. *)
Definition round_outcome `{Platform} (w : World) (i : nat) : Result Response :=
  match reply (net w (sent w + i)) with
  | Ok res => if negb (ok res) then Throw (notOk_thrown res) else Ok res
  | Throw e => Throw e
  end.

(** The events of [n] rounds from round number [attempt] on: a network call
    per round, and between two rounds a wait of [2 ^ attempt * 200] ms. *)
Fixpoint retry_trace (xhr : bool) (input : string) (init : RequestInit)
    (attempt : Z) (n : nat) : list Event :=
  match n with
  | O => []
  | S n' =>
      EvFetch xhr input init ::
      match n' with
      | O => []
      | S _ => EvDelay (2 ^ attempt * 200) :: retry_trace xhr input init (attempt + 1) n'
      end
  end.

Definition after_network (xhr : bool) (input : string) (init : RequestInit) (w : World)
    : World :=
  {| now := (now w + elapsed (net w (sent w)))%Z;
     net := net w;
     sent := S (sent w);
     log := log w ++ [EvFetch xhr input init] |}.

(** The events of a request: the calls and waits of one run of
    [fetchWithRetry] with the url and the init computed from [fc]. *)
Definition request_events `{Platform} (this : ApiInstance) (fc : TApiConfig) (n : nat)
    : list Event :=
  retry_trace (onUpload fc || onDownload fc) (request_url this fc)
    (init_with_signal (request_init this fc) (signal fc)) 0 n.

(* ===================================================================== *)
(** ** Sample instances, requests and worlds                              *)
(* ===================================================================== *)

(** An instance that holds at most [maxSize] entries. *)
Definition sample_instance (maxSize : Z) : ApiInstance :=
  new_ApiInstance {| opt_baseURL := Some "https://api.test";
                     opt_headers := None;
                     opt_source := None;
                     opt_maxCacheSize := Some maxSize |}.

(** [{ url, method: "GET", cache: { enabled: true, revalidate }, retry }] *)
Definition sample_get (url' : string) (revalidate' : option Z) (retry' : option Z)
    : TApiConfig :=
  {| cfg_baseURL := None;
     url := url';
     method := Some GET;
     body := JUndefined;
     mode := None;
     retry := retry';
     headers := None;
     params := JUndefined;
     cache := Some {| enabled := Some true; revalidate := revalidate' |};
     signal := None;
     onUpload := false;
     onDownload := false |}.

(** A JSON response with the given status. *)
Definition sample_response (status' : Z) (body' : JsValue) : Response :=
  {| ok := (200 <=? status')%Z && (status' <? 300)%Z;
     status := status';
     statusText := "";
     content_type := Some "application/json";
     json := Ok body';
     text := Ok (sample_stringify body');
     blob := Ok (JBlob (sample_stringify body')) |}.

Definition network_failed : Thrown := ErrorInstance "TypeError" "Network request failed".

Definition aborted_error : Thrown := ErrorInstance "AbortError" "The operation was aborted.".

(** A world at time [now'] whose network gives [replies] in order, each
    after 10 ms, and fails afterwards. *)
Definition sample_world (now' : Z) (replies : list (Result Response)) : World :=
  {| now := now';
     net := fun i => {| reply := nth i replies (Throw network_failed); elapsed := 10 |};
     sent := 0;
     log := [] |}.

(** Expiry as the claim on the cache words it: an entry is not expired when
    it has no ttl, or when now minus its timestamp is at most its ttl. *)
Definition stated_expired (entry : TCacheEntry JsValue) (now' : Z) : bool :=
  match ttl entry with
  | None => false
  | Some t => negb (now' - timestamp entry <=? t)%Z
  end.

(** An instance whose cache holds, under the key of [sample_get "/users"],
    an entry stored at time 0 with a ttl of 0. *)
Definition zero_ttl_instance : ApiInstance :=
  setCache (@buildcacheKey sample_platform (sample_instance 2)
              (sample_get "/users" (Some 0%Z) None))
    (JString "old") (Some 0%Z) 0 (sample_instance 2).

(** The three private operations on the cache, as steps of the instance. *)
Inductive cache_step (key : string) : ApiInstance -> ApiInstance -> Prop :=
| step_get (st : ApiInstance) :
    cache_step key st (snd (getCacheEntry key st))
| step_set (st : ApiInstance) (entry : TCacheEntry JsValue) :
    cache_step key st (setCacheEntry key entry st)
| step_remove (st : ApiInstance) :
    cache_step key st (removeCacheEntry key st).

(** The response path as the claim on the interceptors words it: the raw
    response of the network goes through the response interceptor, and the
    status check and the parsing come after it. *)
Definition stated_response_path `{Platform} (this : ApiInstance) (fc : TApiConfig)
    (key : string) : M (ApiInstance * World) (TApiResponse JsValue) :=
  let* response :=
    in_world (network (onUpload fc || onDownload fc) (request_url this fc)
                (init_with_signal (request_init this fc) (signal fc))) in
  request_finish this fc key response.

(** [{ url, method: "GET" }] *)
Definition plain_get (url' : string) : TApiConfig :=
  {| cfg_baseURL := None;
     url := url';
     method := Some GET;
     body := JUndefined;
     mode := None;
     retry := None;
     headers := None;
     params := JUndefined;
     cache := None;
     signal := None;
     onUpload := false;
     onDownload := false |}.

(** A response interceptor that answers every response with a fixed ok
    response, and an instance that has it. *)
Definition recover (_ : Response) : Result Response :=
  Ok (sample_response 200 (JString "recovered")).

Definition recovering_instance : ApiInstance :=
  setInterceptors {| icp_request := None; icp_response := Some recover; icp_error := None |}
    (sample_instance 2).

(** A response with status 500 and a JSON body without [meta] or
    [status]. *)
Definition response_500 : Response :=
  sample_response 500 (JObject [("message", JString "boom")]).

(** A runtime in which nothing has happened yet. *)
Definition fresh_runtime : Runtime :=
  {| pendingRequests := ∅; issued := []; controllers := 0; aborted := [] |}.

(** [api.mutation(url, { method })] on its first render. *)
Definition sample_mutation (url' : string) (m : Method) : MutationHook :=
  {| mh_url := url';
     mh_config := Some {| mo_cache := None;
                          mo_headers := None;
                          mo_method := Some m;
                          mo_signal := None;
                          mo_progress := None;
                          mo_queryMutation := None |};
     mh_controller := None;
     mh_state := {| mut_isLoading := false; mut_cacheKey := None; mut_progress := None |} |}.

(** [api.infinite("/items", { initialOffset: 0, setOffset })] where the next
    offset is ten times the number of pages loaded so far. *)
Definition count_pages : TInfiniteFetchOptions :=
  {| initialOffset := 0;
     offsetKey := None;
     setOffset := fun _ allItems _ => Some (Z.of_nat (length allItems) * 10)%Z |}.

Definition page (n : Z) : JsValue := JArray [JNumber n].

Definition page_response (d : JsValue) : TApiResponse JsValue :=
  {| res_data := d; cacheKey := None; fromCache := false |}.

(** The hook after its first render, its effect and the arrival of the
    first page. *)
Definition first_page_loaded : InfiniteHook * Runtime :=
  let '(_, (hook, rt)) :=
    @mount_effect sample_platform
      (useInfiniteFetch "/items" count_pages None, fresh_runtime) in
  (fetchPage_settle 0 false (Ok (page_response (page 0))) hook, rt).

(** The access order lists the keys of the cache map, each once. *)
Definition order_inv (st : ApiInstance) : Prop :=
  NoDup (cacheAccessOrder st)
  /\ forall k, k ∈ cacheAccessOrder st <-> is_Some (cache_map st !! k).

(** The invariant of the cache: it is within its bound and the access
    order lists exactly its keys. *)
Definition cache_inv (st : ApiInstance) : Prop :=
  (Z.of_nat (size (cache_map st)) <= maxCacheSize st)%Z /\ order_inv st.

(** The keys a sequence of operations names in [setCache]. *)
Definition set_keys (ops : list Op) : list string :=
  flat_map (fun op => match op with OpSetCache key _ _ => [key] | _ => [] end) ops.

(** Two calls of [setCache] on an instance that holds one entry at most. *)
Definition empty_key_ops : list Op :=
  [OpSetCache "" (JNumber 1) None; OpSetCache "a" (JNumber 2) None].

(** An instance on which the bound of the cache can be kept: the bound is
    at least one, the invariant holds and the empty string is not a key. *)
Definition well_kept (st : ApiInstance) : Prop :=
  (1 <= maxCacheSize st)%Z /\ cache_inv st /\ "" ∉ cacheAccessOrder st.

(** [{ url, method: "POST", body, headers }] *)
Definition sample_post (url' : string) (body' : JsValue) : TApiConfig :=
  {| cfg_baseURL := None;
     url := url';
     method := Some POST;
     body := body';
     mode := None;
     retry := None;
     headers := Some {[ "X-Trace" := "1" ]};
     params := JUndefined;
     cache := None;
     signal := None;
     onUpload := false;
     onDownload := false |}.

(** The [RequestInit] of a plain GET. *)
Definition sample_init : RequestInit :=
  {| init_method := "GET"; init_headers := ∅; init_body := None; init_signal := None |}.

(** What is seen of a run over the world: its result, the events and the
    number of network calls. *)
Definition observe {A : Type} (run : option (Result A * World))
    : option (Result A * list Event * nat) :=
  match run with
  | Some (r, w) => Some (r, log w, sent w)
  | None => None
  end.

(** The private operations of the cache, as calls; every public operation
    is a sequence of them. *)
Inductive CacheCall : Type :=
| CallGet (key : string)
| CallSet (key : string) (entry : TCacheEntry JsValue)
| CallRemove (key : string)
| CallClear.

(** An instance with a history of its cache: a clock that ticks at every
    access, and the time of the last access of each key.  An access is a
    read that finds the key ([getCache], the cache hit of a request) or a
    write ([setCache], a response being cached). *)
Record Tracked : Type := {
  tk_instance : ApiInstance;
  tk_clock : nat;
  tk_last : gmap string nat
}.

Definition accessed (key : string) (st' : ApiInstance) (t : Tracked) : Tracked :=
  {| tk_instance := st';
     tk_clock := S (tk_clock t);
     tk_last := <[key := tk_clock t]> (tk_last t) |}.

Definition tracked_call (c : CacheCall) (t : Tracked) : Tracked :=
  match c with
  | CallGet key =>
      match cache_map (tk_instance t) !! key with
      | Some _ => accessed key (snd (getCacheEntry key (tk_instance t))) t
      | None => t
      end
  | CallSet key entry => accessed key (setCacheEntry key entry (tk_instance t)) t
  | CallRemove key =>
      {| tk_instance := removeCacheEntry key (tk_instance t);
         tk_clock := tk_clock t;
         tk_last := tk_last t |}
  | CallClear =>
      {| tk_instance := clearCache (tk_instance t);
         tk_clock := tk_clock t;
         tk_last := tk_last t |}
  end.

Definition tracked_new (options : TApiInstanceOptions) : Tracked :=
  {| tk_instance := new_ApiInstance options; tk_clock := 0; tk_last := ∅ |}.

(** The calls that write under the empty string. *)
Definition writes_empty_key (c : CacheCall) : Prop :=
  match c with
  | CallSet key _ => key = ""
  | _ => False
  end.

(** The time of the last access of a key. *)
Definition last_access (last : gmap string nat) (key : string) : nat :=
  default 0 (last !! key).

(** The access order runs from the least to the most recently accessed
    key. *)
Definition lru_sorted (last : gmap string nat) (clock : nat) (order : list string) : Prop :=
  StronglySorted (fun a b => last_access last a < last_access last b) order
  /\ Forall (fun a => last_access last a < clock) order.

(** The invariant of a tracked instance. *)
Definition tracked_inv (t : Tracked) : Prop :=
  well_kept (tk_instance t)
  /\ lru_sorted (tk_last t) (tk_clock t) (cacheAccessOrder (tk_instance t)).

(** The tracked instance after a sequence of calls. *)
Definition tracked_run (calls : list CacheCall) (t : Tracked) : Tracked :=
  fold_left (fun t' c => tracked_call c t') calls t.

(** A url of 250 characters. *)
Definition long_url : string := string_of_list_ascii (repeat "a"%char 250).

(* ===================================================================== *)
(** ** Further vocabulary and samples                                     *)
(* ===================================================================== *)

Definition sample_entry (n : Z) : TCacheEntry JsValue :=
  {| data := JNumber n; timestamp := n; ttl := None |}.

(** Three writes, a read and a removal on an instance that holds two
    entries. *)
Definition sample_ops : list Op :=
  [OpSetCache "a" (JNumber 1) None; OpSetCache "b" (JNumber 2) None;
   OpGetCache "a"; OpSetCache "c" (JNumber 3) (Some 50%Z); OpRemoveCache "b"].

(** "a" and "b" are written, then "a" is read. *)
Definition sample_calls : list CacheCall :=
  [CallSet "a" (sample_entry 1); CallSet "b" (sample_entry 2); CallGet "a"].

Definition sample_options (maxSize : Z) : TApiInstanceOptions :=
  {| opt_baseURL := Some "https://api.test";
     opt_headers := None;
     opt_source := None;
     opt_maxCacheSize := Some maxSize |}.

(** The value of a digit of base 36 and of a numeral: what reading the text
    back in base 36 gives. *)
Definition digit_value (c : ascii) : Z :=
  let n := Z.of_nat (nat_of_ascii c) in
  if (n <? 58)%Z then (n - 48)%Z else (n - 87)%Z.

Fixpoint value36 (acc : Z) (text : string) : Z :=
  match text with
  | EmptyString => acc
  | String c rest => value36 (acc * 36 + digit_value c) rest
  end.

Definition parse36 (text : string) : Z :=
  match text with
  | String c rest => if Ascii.eqb c "-" then (- value36 0 rest)%Z else value36 0 text
  | EmptyString => 0%Z
  end.

(** The time spent waiting in a list of events. *)
Fixpoint total_delay (events : list Event) : Z :=
  match events with
  | [] => 0%Z
  | EvDelay ms :: rest => (ms + total_delay rest)%Z
  | EvFetch _ _ _ :: rest => total_delay rest
  end.

(** [{ url, method: "GET", retry }] *)
Definition plain_get_retry (url' : string) (retry' : Z) : TApiConfig :=
  {| cfg_baseURL := None;
     url := url';
     method := Some GET;
     body := JUndefined;
     mode := None;
     retry := Some retry';
     headers := None;
     params := JUndefined;
     cache := None;
     signal := None;
     onUpload := false;
     onDownload := false |}.

(** [api.mutation(url, { method, headers })] on its first render. *)
Definition sample_mutation_with (url' : string) (m : Method)
    (headers' : gmap string string) : MutationHook :=
  {| mh_url := url';
     mh_config := Some {| mo_cache := None;
                          mo_headers := Some headers';
                          mo_method := Some m;
                          mo_signal := None;
                          mo_progress := None;
                          mo_queryMutation := None |};
     mh_controller := None;
     mh_state := {| mut_isLoading := false; mut_cacheKey := None; mut_progress := None |} |}.

(** A pagination that ends with its first page. *)
Definition single_page : TInfiniteFetchOptions :=
  {| initialOffset := 0; offsetKey := Some "from"; setOffset := fun _ _ _ => None |}.

Definition single_page_loaded : InfiniteHook * Runtime :=
  let '(_, (hook, rt)) :=
    @mount_effect sample_platform
      (useInfiniteFetch "/items" single_page None, fresh_runtime) in
  (fetchPage_settle 0 false (Ok (page_response (page 0))) hook, rt).

(** [{ url, method: "GET", params }] *)
Definition get_with_params (url' : string) (params' : JsValue) : TApiConfig :=
  {| cfg_baseURL := None;
     url := url';
     method := Some GET;
     body := JUndefined;
     mode := None;
     retry := None;
     headers := None;
     params := params';
     cache := None;
     signal := None;
     onUpload := false;
     onDownload := false |}.

(* ===================================================================== *)
(** ** useFetch                                                           *)
(* ===================================================================== *)

(** [TFetchState<T>]; [null] is [None]. *)
Record FetchState : Type := {
  fs_data : option JsValue;
  fs_error : option Thrown;
  fs_isLoading : bool;
  fs_cacheKey : option string
}.

(** One use of the hook.  [fetchData] is memoised on
    [enabled, url, stableConfig]; the [state] it returns when its request is
    aborted is the state of the render that created it, kept in
    [fetchData_state]. *)
Record FetchHook : Type := {
  fh_url : string;
  fh_config : option TApiConfig;
  fh_enabled : bool;
  fh_controller : option nat;
  fh_state : FetchState;
  fetchData_state : FetchState
}.

(** The first render. *)
Definition useFetch (url' : string) (config : option TApiConfig) (enabled' : bool)
    : FetchHook :=
  let st := {| fs_data := None; fs_error := None;
               fs_isLoading := enabled'; fs_cacheKey := None |} in
  {| fh_url := url';
     fh_config := config;
     fh_enabled := enabled';
     fh_controller := None;
     fh_state := st;
     fetchData_state := st |}.

(** The config [fetchData] passes to [instance.get]. *)
Definition fetch_request (hook : FetchHook) (controller : nat) : TApiConfig :=
  let cfg := fh_config hook in
  {| cfg_baseURL := cfg ≫= cfg_baseURL;
     url := fh_url hook;
     method := Some GET;
     body := match cfg with Some c => body c | None => JUndefined end;
     mode := cfg ≫= mode;
     retry := cfg ≫= retry;
     headers := cfg ≫= headers;
     params := match cfg with Some c => params c | None => JUndefined end;
     cache := cfg ≫= cache;
     signal := Some controller;
     onUpload := match cfg with Some c => onUpload c | None => false end;
     onDownload := match cfg with Some c => onDownload c | None => false end |}.

(** Where a call of [fetchData] stands once it has run up to its [await]
    or [return]. *)
Inductive FetchStep : Type :=
| FetchReturned (st : FetchState)
| FetchWaiting (promise : nat).

Definition with_fetch (hook : FetchHook) (controller : option nat) (st : FetchState)
    : FetchHook :=
  {| fh_url := fh_url hook;
     fh_config := fh_config hook;
     fh_enabled := fh_enabled hook;
     fh_controller := controller;
     fh_state := st;
     fetchData_state := fetchData_state hook |}.

(** [fetchData(refetch)] up to [await instance.get(...)]. *)
Definition fetchData_begin (refetch : bool) (s : FetchHook * Runtime)
    : FetchStep * (FetchHook * Runtime) :=
  let '(hook, rt) := s in
  if negb (fh_enabled hook) && negb refetch then
    (FetchReturned {| fs_data := None; fs_error := None;
                      fs_isLoading := false; fs_cacheKey := None |}, s)
  else
    let '(controller, rt1) := renew_controller (fh_controller hook) rt in
    let st := fh_state hook in
    let st1 :=
      if fs_isLoading st then st
      else {| fs_data := fs_data st; fs_error := fs_error st;
              fs_isLoading := true; fs_cacheKey := fs_cacheKey st |} in
    let '(promise, rt2) := issue (fetch_request hook controller) rt1 in
    (FetchWaiting promise, (with_fetch hook (Some controller) st1, rt2)).

(** [fetchData] once its request has settled: the state it returns and
    the hook. *)
Definition fetchData_settle (outcome : Result (TApiResponse JsValue)) (hook : FetchHook)
    : FetchState * FetchHook :=
  match outcome with
  | Ok response =>
      let newState := {| fs_data := Some (res_data response); fs_error := None;
                         fs_isLoading := false; fs_cacheKey := cacheKey response |} in
      (newState, with_fetch hook (fh_controller hook) newState)
  | Throw err =>
      if isAbortError err then (fetchData_state hook, hook)
      else
        let newState := {| fs_data := None; fs_error := Some err;
                           fs_isLoading := false; fs_cacheKey := None |} in
        (newState, with_fetch hook (fh_controller hook) newState)
  end.

(* ===================================================================== *)
(** * Properties                                                          *)
(* ===================================================================== *)

(* ===================================================================== *)
(** ** The hash and the cache key                                         *)
(* ===================================================================== *)

Lemma ToInt32_range (z : Z) : (- 2 ^ 31 <= ToInt32 z < 2 ^ 31)%Z.
Proof.
  unfold ToInt32.
  change (2 ^ 31)%Z with 2147483648%Z; change (2 ^ 32)%Z with 4294967296%Z.
  pose proof (Z.mod_pos_bound (z + 2147483648) 4294967296 eq_refl). lia.
Qed.

Lemma ToInt32_id (z : Z) : (- 2 ^ 31 <= z < 2 ^ 31)%Z -> ToInt32 z = z.
Proof.
  unfold ToInt32.
  change (2 ^ 31)%Z with 2147483648%Z; change (2 ^ 32)%Z with 4294967296%Z.
  intros Hz. rewrite Z.mod_small by lia. lia.
Qed.

Lemma ToInt32_congr (a b : Z) :
  (a mod 2 ^ 32 = b mod 2 ^ 32)%Z -> ToInt32 a = ToInt32 b.
Proof.
  unfold ToInt32.
  change (2 ^ 31)%Z with 2147483648%Z; change (2 ^ 32)%Z with 4294967296%Z.
  intros Hab. f_equal.
  rewrite (Z.add_mod a), (Z.add_mod b), Hab by lia. reflexivity.
Qed.

Lemma ToInt32_mod (z : Z) : (ToInt32 z mod 2 ^ 32 = z mod 2 ^ 32)%Z.
Proof.
  unfold ToInt32.
  change (2 ^ 31)%Z with 2147483648%Z; change (2 ^ 32)%Z with 4294967296%Z.
  Z.div_mod_to_equations. lia.
Qed.

Lemma and32_diag (z : Z) : and32 z z = ToInt32 z.
Proof.
  unfold and32. rewrite Z.land_diag. apply ToInt32_id, ToInt32_range.
Qed.

(** One round of the loop is [31 * hash + char], wrapped to 32 bits. *)
Lemma hash_round_31 (h c : Z) : hash_round h c = ToInt32 (31 * h + c).
Proof.
  unfold hash_round. rewrite and32_diag. apply ToInt32_congr.
  unfold shl32. rewrite Z.shiftl_mul_pow2 by lia.
  pose proof (ToInt32_mod (ToInt32 h * 2 ^ 5)) as H1.
  pose proof (ToInt32_mod h) as H2.
  change (2 ^ 5)%Z with 32%Z in *. change (2 ^ 32)%Z with 4294967296%Z in *.
  Z.div_mod_to_equations. lia.
Qed.

Lemma hash_codes_from (codes : list Z) (h p : Z) :
  h = ToInt32 p ->
  fold_left hash_round codes h
  = ToInt32 (fold_left (fun acc c => (31 * acc + c)%Z) codes p).
Proof.
  revert h p. induction codes as [|c codes IH]; intros h p Hh; simpl.
  - exact Hh.
  - apply IH. rewrite hash_round_31. apply ToInt32_congr. subst h.
    pose proof (ToInt32_mod p) as Hp.
    change (2 ^ 32)%Z with 4294967296%Z in *.
    Z.div_mod_to_equations. lia.
Qed.

(** The hash is the 32-bit signed value of the base-31 polynomial of the
    character codes. *)
Lemma hash_codes_poly31 (codes : list Z) : hash_codes codes = ToInt32 (poly31 codes).
Proof.
  unfold hash_codes, poly31. apply hash_codes_from. reflexivity.
Qed.

Lemma hash_codes_range (codes : list Z) : (- 2 ^ 31 <= hash_codes codes < 2 ^ 31)%Z.
Proof. rewrite hash_codes_poly31. apply ToInt32_range. Qed.

Example hash_abc : hash "abc" = "22ci".
Proof. reflexivity. Qed.

Example toString36_negative : toString36 (-71) = "-1z".
Proof. reflexivity. Qed.

(** C6.  The cache key is a function of the source, the url and the params
    alone: two instances with the same source and two requests with the same
    url and params (whatever their method, headers and body) get the same
    key, and the key is the source, a colon and the JSON string of
    [{url, params}], the string being replaced by its base-36 hash when it
    is longer than 200 characters. *)
Theorem buildcacheKey_of_source_url_params `{Platform}
    (this1 this2 : ApiInstance) (c1 c2 : TApiConfig) :
  source this1 = source this2 ->
  url c1 = url c2 ->
  params c1 = params c2 ->
  buildcacheKey this1 c1 = buildcacheKey this2 c2
  /\ buildcacheKey this1 c1
     = source this1 +:+ ":" +:+ stated_key_text (url c1) (params c1).
Proof.
  intros Hs Hu Hp. unfold buildcacheKey, stated_key_text.
  rewrite Hs, Hu, Hp. split; [reflexivity|].
  destruct (200 <? _)%nat eqn:Hlen.
  - apply Nat.ltb_lt in Hlen. rewrite decide_True by exact Hlen. reflexivity.
  - apply Nat.ltb_ge in Hlen. rewrite decide_False by lia. reflexivity.
Qed.

(** A GET with a cache and a POST with a body and headers, on two
    instances with the same source: one key. *)
Lemma buildcacheKey_of_source_url_params_witness :
  @buildcacheKey sample_platform (sample_instance 2) (sample_get "/users" None None)
  = @buildcacheKey sample_platform (sample_instance 5) (sample_post "/users" (JNumber 1))
  /\ @buildcacheKey sample_platform (sample_instance 2) (sample_get "/users" None None)
     = source (sample_instance 2) +:+ ":" +:+
       @stated_key_text sample_platform "/users" JUndefined.
Proof.
  apply (@buildcacheKey_of_source_url_params sample_platform
           (sample_instance 2) (sample_instance 5)
           (sample_get "/users" None None) (sample_post "/users" (JNumber 1)));
    reflexivity.
Defined.

(** A key text of more than 200 characters is replaced by its hash. *)
Example buildcacheKey_long_url :
  @buildcacheKey sample_platform (sample_instance 2) (plain_get long_url)
  = "komcards-default:-pfzgn7".
Proof. vm_compute. reflexivity. Qed.

(* ===================================================================== *)
(** ** The cache operations                                               *)
(* ===================================================================== *)

Lemma cache_map_with_cache this m order : cache_map (with_cache this m order) = m.
Proof. reflexivity. Qed.

Lemma order_with_cache this m order : cacheAccessOrder (with_cache this m order) = order.
Proof. reflexivity. Qed.

Lemma maxCacheSize_with_cache this m order :
  maxCacheSize (with_cache this m order) = maxCacheSize this.
Proof. reflexivity. Qed.

Lemma setCacheEntry_lookup (key : string) (entry : TCacheEntry JsValue) (this : ApiInstance) :
  cache_map (setCacheEntry key entry this) !! key = Some entry.
Proof.
  unfold setCacheEntry. rewrite cache_map_with_cache. apply lookup_insert_eq.
Qed.

(** C9.  [getCache(k)] after [setCache(k, d, t)] gives [d], from every
    prior state of the instance and whatever the time of the two calls:
    [getCache] reads no clock and no [ttl]. *)
Theorem getCache_after_setCache (k : string) (d : JsValue) (t : option Z)
    (now' : Z) (this : ApiInstance) :
  fst (getCache k (setCache k d t now' this)) = Some d.
Proof.
  unfold getCache, getCacheEntry, setCache.
  rewrite setCacheEntry_lookup. reflexivity.
Qed.

(* ===================================================================== *)
(** ** fetchWithRetry                                                     *)
(* ===================================================================== *)

Lemma attempt_once_outcome `{Platform} xhr input init (w : World) :
  attempt_once xhr input init w = Some (round_outcome w 0, after_network xhr input init w).
Proof.
  unfold attempt_once, bind, network, round_outcome, after_network.
  rewrite Nat.add_0_r.
  destruct (reply (net w (sent w))) as [res|e]; [|reflexivity].
  destruct (ok res); reflexivity.
Qed.

Lemma round_outcome_shift `{Platform} (w w2 : World) (i : nat) :
  net w2 = net w -> sent w2 = S (sent w) ->
  round_outcome w2 i = round_outcome w (S i).
Proof.
  intros Hn Hs. unfold round_outcome. rewrite Hn, Hs.
  replace (S (sent w) + i) with (sent w + S i) by lia. reflexivity.
Qed.

Lemma fetchWithRetry_loop_S `{Platform} fuel xhr input init retry' attempt lastErr w :
  fetchWithRetry_loop (S fuel) xhr input init retry' attempt lastErr w
  = if (attempt <=? retry')%Z then
      try_catch (attempt_once xhr input init)
        (fun err =>
           if isAbortError err then throw err
           else if (attempt =? retry')%Z then throw err
           else
             let* _ := sleep (2 ^ attempt * 200) in
             fetchWithRetry_loop fuel xhr input init retry' (attempt + 1) err)
        w
    else throw lastErr w.
Proof. reflexivity. Qed.

(** The loop, from any round on: it ends, with the outcome of the last
    round it ran. *)
Lemma fetchWithRetry_loop_spec `{Platform} xhr input init (retry' : Z) (m : nat) :
  forall (attempt : Z) (lastErr : Thrown) (w : World),
    retry' = (attempt + Z.of_nat m)%Z ->
    exists (n : nat) (w' : World),
      1 <= n <= S m
      /\ fetchWithRetry_loop (S m) xhr input init retry' attempt lastErr w
         = Some (round_outcome w (n - 1), w')
      /\ sent w' = sent w + n
      /\ net w' = net w
      /\ log w' = log w ++ retry_trace xhr input init attempt n
      /\ (forall i, i < n - 1 ->
            exists e, round_outcome w i = Throw e /\ isAbortError e = false)
      /\ (n < S m ->
            match round_outcome w (n - 1) with
            | Ok _ => True
            | Throw e => isAbortError e = true
            end).
Proof.
  induction m as [|m IH]; intros attempt lastErr w Hretry.
  - exists 1, (after_network xhr input init w).
    rewrite fetchWithRetry_loop_S.
    replace (attempt <=? retry')%Z with true by (symmetry; apply Z.leb_le; lia).
    unfold try_catch. rewrite attempt_once_outcome. simpl.
    split; [lia|]. split.
    + destruct (round_outcome w 0) as [res|e]; [reflexivity|].
      destruct (isAbortError e); [reflexivity|].
      replace (attempt =? retry')%Z with true by (symmetry; apply Z.eqb_eq; lia).
      reflexivity.
    + repeat split; intros; try lia; try reflexivity.
  - rewrite fetchWithRetry_loop_S.
    replace (attempt <=? retry')%Z with true by (symmetry; apply Z.leb_le; lia).
    unfold try_catch at 1. rewrite attempt_once_outcome.
    destruct (round_outcome w 0) as [res|e] eqn:Hout.
    { exists 1, (after_network xhr input init w). simpl. rewrite Hout.
      repeat split; intros; try lia; try reflexivity. }
    destruct (isAbortError e) eqn:Habort.
    { exists 1, (after_network xhr input init w). simpl. rewrite Hout.
      repeat split; intros; try lia; try assumption; try reflexivity. }
    replace (attempt =? retry')%Z with false by (symmetry; apply Z.eqb_neq; lia).
    unfold bind, sleep.
    set (w2 := {| now := (now (after_network xhr input init w) + 2 ^ attempt * 200)%Z;
                  net := net (after_network xhr input init w);
                  sent := sent (after_network xhr input init w);
                  log := log (after_network xhr input init w) ++ [EvDelay (2 ^ attempt * 200)] |}).
    destruct (IH (attempt + 1)%Z e w2 ltac:(lia))
      as (n & w' & Hn & Hrun & Hsent & Hnet & Hlog & Hfail & Hstop).
    exists (S n), w'.
    assert (Hshift : forall i, round_outcome w2 i = round_outcome w (S i)).
    { intros i. apply round_outcome_shift; reflexivity. }
    split; [lia|]. split.
    { rewrite Hrun. replace (S n - 1) with (S (n - 1)) by lia.
      rewrite Hshift. reflexivity. }
    split; [rewrite Hsent; simpl; lia|].
    split; [rewrite Hnet; reflexivity|].
    split.
    { rewrite Hlog. subst w2. simpl. destruct n as [|n']; [lia|].
      rewrite <- !app_assoc. reflexivity. }
    split.
    { intros i Hi. destruct i as [|i].
      - exists e. split; assumption.
      - destruct (Hfail i ltac:(lia)) as (e' & He' & Hab').
        exists e'. rewrite <- Hshift. split; assumption. }
    intros Hlt. replace (S n - 1) with (S (n - 1)) by lia.
    rewrite <- Hshift. apply Hstop. lia.
Qed.

(** The whole loop, for a retry count that is not negative. *)
Lemma fetchWithRetry_runs `{Platform} (input : string) (init : RequestInit)
    (r : Z) (signal' : option nat) (onUpload' onDownload' : bool) (w : World) :
  (0 <= r)%Z ->
  exists (n : nat) (w' : World),
    1 <= n <= Z.to_nat r + 1
    /\ fetchWithRetry input init r signal' onUpload' onDownload' w
       = Some (round_outcome w (n - 1), w')
    /\ sent w' = sent w + n
    /\ log w' = log w ++ retry_trace (onUpload' || onDownload') input
                           (init_with_signal init signal') 0 n
    /\ (forall i, i < n - 1 ->
          exists e, round_outcome w i = Throw e /\ isAbortError e = false)
    /\ (n < Z.to_nat r + 1 ->
          match round_outcome w (n - 1) with
          | Ok _ => True
          | Throw e => isAbortError e = true
          end).
Proof.
  intros Hr. unfold fetchWithRetry.
  destruct (fetchWithRetry_loop_spec (onUpload' || onDownload') input
              (init_with_signal init signal') r (Z.to_nat r) 0%Z
              (ThrownValue JUndefined) w ltac:(lia))
    as (n & w' & Hn & Hrun & Hsent & _ & Hlog & Hfail & Hstop).
  exists n, w'. repeat split; try lia; try assumption.
  intros Hlt. apply Hstop. lia.
Qed.

(** C4.  For a retry count [r >= 0], [fetchWithRetry] ends after [n] rounds
    with [1 <= n <= r + 1]: it makes [n] network calls, one per round; the
    events are a call, a wait of 200 ms, a call, a wait of 400 ms, ... with
    a wait of [2 ^ attempt * 200] ms after every round but the last; every
    round before the last failed; the result is the outcome of the last
    round (the first ok response, or the error of the last round); and the
    loop stops before round [r + 1] only on an ok response or on an abort,
    so that when all [r + 1] rounds fail the error of round [r + 1] is
    thrown. *)
Theorem fetchWithRetry_rounds `{Platform} (input : string) (init : RequestInit)
    (r : Z) (signal' : option nat) (onUpload' onDownload' : bool) (w : World) :
  (0 <= r)%Z ->
  exists (n : nat) (w' : World),
    1 <= n <= Z.to_nat r + 1
    /\ fetchWithRetry input init r signal' onUpload' onDownload' w
       = Some (round_outcome w (n - 1), w')
    /\ sent w' = sent w + n
    /\ log w' = log w ++ retry_trace (onUpload' || onDownload') input
                           (init_with_signal init signal') 0 n
    /\ (forall i, i < n - 1 ->
          exists e, round_outcome w i = Throw e /\ isAbortError e = false)
    /\ (n < Z.to_nat r + 1 ->
          match round_outcome w (n - 1) with
          | Ok _ => True
          | Throw e => isAbortError e = true
          end).
Proof. apply fetchWithRetry_runs. Qed.

(** Two retries against a network that fails, answers 500 and then 200. *)
Lemma fetchWithRetry_rounds_witness :
  let w := sample_world 0 [Throw network_failed;
                           Ok (sample_response 500 JNull);
                           Ok (sample_response 200 (JString "done"))] in
  exists (n : nat) (w' : World),
    1 <= n <= Z.to_nat 2 + 1
    /\ @fetchWithRetry sample_platform "/users" sample_init 2 None false false w
       = Some (@round_outcome sample_platform w (n - 1), w')
    /\ sent w' = sent w + n
    /\ log w' = log w ++ retry_trace (false || false) "/users"
                           (init_with_signal sample_init None) 0 n
    /\ (forall i, i < n - 1 ->
          exists e, @round_outcome sample_platform w i = Throw e /\ isAbortError e = false)
    /\ (n < Z.to_nat 2 + 1 ->
          match @round_outcome sample_platform w (n - 1) with
          | Ok _ => True
          | Throw e => isAbortError e = true
          end).
Proof.
  intros w.
  apply (@fetchWithRetry_rounds sample_platform "/users" sample_init 2 None false false w).
  lia.
Defined.

Example fetchWithRetry_third_round :
  let w := sample_world 0 [Throw network_failed;
                           Ok (sample_response 500 JNull);
                           Ok (sample_response 200 (JString "done"))] in
  observe (@fetchWithRetry sample_platform "/users" sample_init 2 None false false w)
  = Some (Ok (sample_response 200 (JString "done")),
          [EvFetch false "/users" sample_init; EvDelay 200;
           EvFetch false "/users" sample_init; EvDelay 400;
           EvFetch false "/users" sample_init],
          3).
Proof. vm_compute. reflexivity. Qed.

Example retry_trace_three xhr input init :
  retry_trace xhr input init 0 3
  = [EvFetch xhr input init; EvDelay 200; EvFetch xhr input init; EvDelay 400;
     EvFetch xhr input init].
Proof. reflexivity. Qed.

(** When all [r + 1] rounds fail and none with an abort, all of them are
    run and the error thrown is the one of the last. *)
Corollary fetchWithRetry_all_fail `{Platform} (input : string) (init : RequestInit)
    (r : Z) (signal' : option nat) (onUpload' onDownload' : bool) (w : World) :
  (0 <= r)%Z ->
  (forall i, i <= Z.to_nat r ->
     exists e, round_outcome w i = Throw e /\ isAbortError e = false) ->
  exists w',
    fetchWithRetry input init r signal' onUpload' onDownload' w
    = Some (round_outcome w (Z.to_nat r), w')
    /\ sent w' = sent w + (Z.to_nat r + 1).
Proof.
  intros Hr Hall.
  destruct (fetchWithRetry_runs input init r signal' onUpload' onDownload' w Hr)
    as (n & w' & Hn & Hrun & Hsent & _ & _ & Hstop).
  assert (n = Z.to_nat r + 1) as ->.
  { destruct (decide (n < Z.to_nat r + 1)) as [Hlt|]; [|lia].
    specialize (Hstop Hlt).
    destruct (Hall (n - 1) ltac:(lia)) as (e & He & Hab).
    rewrite He in Hstop. congruence. }
  exists w'. replace (Z.to_nat r + 1 - 1) with (Z.to_nat r) in Hrun by lia.
  split; assumption.
Qed.

(** C10.  At every round number and with any number of rounds left, a round
    that fails with an [Error] named "AbortError" ends the loop: that error
    is thrown, after the one network call of the round, with no wait and no
    further call. *)
Theorem abort_is_not_retried `{Platform} (fuel : nat) (xhr : bool) (input : string)
    (init : RequestInit) (retry' attempt : Z) (lastErr e : Thrown) (w : World) :
  (attempt <= retry')%Z ->
  round_outcome w 0 = Throw e ->
  isAbortError e = true ->
  exists w',
    fetchWithRetry_loop (S fuel) xhr input init retry' attempt lastErr w
    = Some (Throw e, w')
    /\ log w' = log w ++ [EvFetch xhr input init]
    /\ sent w' = S (sent w).
Proof.
  intros Hle Hout Habort.
  exists (after_network xhr input init w).
  rewrite fetchWithRetry_loop_S.
  replace (attempt <=? retry')%Z with true by (symmetry; apply Z.leb_le; lia).
  unfold try_catch. rewrite attempt_once_outcome, Hout, Habort.
  repeat split.
Qed.

(** The second of five rounds is aborted. *)
Lemma abort_is_not_retried_witness :
  let w := sample_world 0 [Throw aborted_error; Ok (sample_response 200 JNull)] in
  exists w',
    @fetchWithRetry_loop sample_platform (S 3) false "/users" sample_init 4 1
      network_failed w
    = Some (Throw aborted_error, w')
    /\ log w' = log w ++ [EvFetch false "/users" sample_init]
    /\ sent w' = S (sent w).
Proof.
  intros w.
  apply (@abort_is_not_retried sample_platform 3 false "/users" sample_init 4 1
           network_failed aborted_error w); [lia|reflexivity|reflexivity].
Defined.

(** A thrown value that is not an [Error] is retried even when it has the
    name "AbortError": the parsed body of a response that is not ok is such
    a value. *)
Remark named_abort_body_is_retried :
  let body' := JObject [("name", JString "AbortError")] in
  let w := sample_world 0 [Ok (sample_response 500 body');
                           Ok (sample_response 200 JNull)] in
  @round_outcome sample_platform w 0 = Throw (ThrownValue body')
  /\ observe (@fetchWithRetry sample_platform "/users" sample_init 1 None false false w)
     = Some (Ok (sample_response 200 JNull),
             [EvFetch false "/users" sample_init; EvDelay 200;
              EvFetch false "/users" sample_init],
             2).
Proof. intros body' w. split; [reflexivity|]. vm_compute. reflexivity. Qed.

(* ===================================================================== *)
(** ** ApiInstance.request                                                *)
(* ===================================================================== *)

(** With a negative retry count the loop body never runs. *)
Lemma fetchWithRetry_negative `{Platform} input init (r : Z) signal' up down (w : World) :
  (r < 0)%Z ->
  fetchWithRetry input init r signal' up down w = Some (Throw (ThrownValue JUndefined), w).
Proof.
  intros Hr. unfold fetchWithRetry. rewrite fetchWithRetry_loop_S.
  replace (0 <=? r)%Z with false by (symmetry; apply Z.leb_gt; lia).
  reflexivity.
Qed.

(** [fetchWithRetry] always ends; it only makes network calls and waits,
    all calls with the same url and init; what it returns is an ok response
    of the network. *)
Lemma fetchWithRetry_ends `{Platform} input init (r : Z) signal' up down (w : World) :
  exists (n : nat) (res : Result Response) (w' : World),
    fetchWithRetry input init r signal' up down w = Some (res, w')
    /\ sent w' = sent w + n
    /\ log w' = log w ++ retry_trace (up || down) input (init_with_signal init signal') 0 n
    /\ ((0 <= r)%Z -> 1 <= n)
    /\ (forall response, res = Ok response ->
          ok response = true
          /\ exists i, i < n /\ reply (net w (sent w + i)) = Ok response).
Proof.
  destruct (Z_lt_le_dec r 0) as [Hneg|Hpos].
  - exists 0, (Throw (ThrownValue JUndefined)), w.
    rewrite fetchWithRetry_negative by exact Hneg.
    repeat split; try lia.
    + simpl. rewrite app_nil_r. reflexivity.
    + discriminate.
    + discriminate.
  - destruct (fetchWithRetry_runs input init r signal' up down w Hpos)
      as (n & w' & Hn & Hrun & Hsent & Hlog & _ & _).
    exists n, (round_outcome w (n - 1)), w'.
    split; [exact Hrun|]. split; [exact Hsent|]. split; [exact Hlog|].
    split; [intros _; lia|].
    intros response Hresponse. unfold round_outcome in Hresponse.
    destruct (reply (net w (sent w + (n - 1)))) as [res|e] eqn:Hreply; [|discriminate].
    destruct (ok res) eqn:Hok; simpl in Hresponse; [|discriminate].
    injection Hresponse as ->. split; [exact Hok|].
    exists (n - 1). split; [lia|exact Hreply].
Qed.

(** [request] is its [try] block, with [handleError] on what it throws. *)
Lemma request_unfold `{Platform} (config : TApiConfig) (s : ApiInstance * World) :
  request config s
  = match request_try config s with
    | Some (Throw e, s') => Some (handleError (fst s') e, s')
    | other => other
    end.
Proof. reflexivity. Qed.

Lemma request_try_unfold `{Platform} (config : TApiConfig) (this : ApiInstance) (w : World) :
  request_try config (this, w)
  = match handleInterceptors this config with
    | Ok finalConfig => request_from this finalConfig (this, w)
    | Throw e => Some (Throw e, (this, w))
    end.
Proof.
  unfold request_try, bind, get_this, lift_result. simpl.
  destruct (handleInterceptors this config); reflexivity.
Qed.

(** The three ways through the cache part of [request]. *)
Lemma request_from_unfold `{Platform} (this : ApiInstance) (fc : TApiConfig)
    (st : ApiInstance) (w : World) :
  let key := buildcacheKey this fc in
  request_from this fc (st, w)
  = if cache_wanted fc then
      match cache_map st !! key with
      | Some entry =>
          if expired entry (now w)
          then request_network this fc key
                 (removeCacheEntry key (snd (getCacheEntry key st)), w)
          else Some (Ok {| res_data := data entry; cacheKey := Some key; fromCache := true |},
                     (snd (getCacheEntry key st), w))
      | None => request_network this fc key (st, w)
      end
    else request_network this fc key (st, w).
Proof.
  intros key. unfold request_from. fold key.
  destruct (cache_wanted fc); [|reflexivity].
  unfold bind at 1. unfold cache_lookup, bind, on_this, Date_now, update_this, ret.
  simpl. unfold getCacheEntry at 1.
  destruct (cache_map st !! key) as [entry|] eqn:Hget.
  - simpl. unfold getCacheEntry. rewrite Hget. simpl.
    destruct (expired entry (now w)); reflexivity.
  - reflexivity.
Qed.

(** What [request_finish] does when it returns. *)
Lemma request_finish_ok `{Platform} (this : ApiInstance) (fc : TApiConfig) (key : string)
    (response : Response) (st st' : ApiInstance) (w w' : World)
    (resp : TApiResponse JsValue) :
  request_finish this fc key response (st, w) = Some (Ok resp, (st', w')) ->
  w' = w
  /\ fromCache resp = false
  /\ cacheKey resp = Some key
  /\ (exists finalResponse,
        handleResponse this response = Ok finalResponse
        /\ ok finalResponse = true
        /\ read_body finalResponse = Ok (res_data resp))
  /\ st' = (if cache_wanted fc
            then setCacheEntry key
                   {| data := res_data resp; timestamp := now w; ttl := revalidate_of fc |} st
            else st).
Proof.
  unfold request_finish, bind, lift_result.
  destruct (handleResponse this response) as [fr|e] eqn:Hfr; [|discriminate].
  destruct (ok fr) eqn:Hok; simpl; [|discriminate].
  destruct (read_body fr) as [d|e] eqn:Hread; [|discriminate].
  destruct (cache_wanted fc) eqn:Hwanted.
  - unfold Date_now, update_this, ret, bind. simpl.
    intros [= <- <- <-]. simpl.
    repeat split. exists fr. repeat split; assumption.
  - unfold ret. simpl. intros [= <- <- <-]. simpl.
    repeat split. exists fr. repeat split; assumption.
Qed.

(** [request_finish] always ends and leaves the world as it is. *)
Lemma request_finish_ends `{Platform} (this : ApiInstance) (fc : TApiConfig) (key : string)
    (response : Response) (st : ApiInstance) (w : World) :
  exists r st', request_finish this fc key response (st, w) = Some (r, (st', w)).
Proof.
  unfold request_finish, bind, lift_result.
  destruct (handleResponse this response) as [fr|e]; [|eauto].
  destruct (ok fr); simpl; [|unfold throw; eauto].
  destruct (read_body fr) as [d|e]; [|eauto].
  destruct (cache_wanted fc); unfold Date_now, update_this, ret, bind; simpl; eauto.
Qed.

(** The network part of [request]: [fetchWithRetry], then [request_finish]
    on the response it returns. *)
Lemma request_network_unfold `{Platform} (this : ApiInstance) (fc : TApiConfig)
    (key : string) (st : ApiInstance) (w : World) :
  request_network this fc key (st, w)
  = match fetchWithRetry (request_url this fc) (request_init this fc)
            (default 0%Z (retry fc)) (signal fc) (onUpload fc) (onDownload fc) w with
    | Some (Ok response, w1) => request_finish this fc key response (st, w1)
    | Some (Throw e, w1) => Some (Throw e, (st, w1))
    | None => None
    end.
Proof.
  unfold request_network, bind, in_world. simpl.
  destruct (fetchWithRetry _ _ _ _ _ _ w) as [[[response|e] w1]|]; reflexivity.
Qed.

Lemma request_network_ends `{Platform} (this : ApiInstance) (fc : TApiConfig)
    (key : string) (st : ApiInstance) (w : World) :
  exists r st' w' n,
    request_network this fc key (st, w) = Some (r, (st', w'))
    /\ sent w' = sent w + n
    /\ log w' = log w ++ request_events this fc n
    /\ ((0 <= default 0 (retry fc))%Z -> 1 <= n)
    /\ (st' = st \/ exists entry, st' = setCacheEntry key entry st).
Proof.
  rewrite request_network_unfold.
  destruct (fetchWithRetry_ends (request_url this fc) (request_init this fc)
              (default 0%Z (retry fc)) (signal fc) (onUpload fc) (onDownload fc) w)
    as (n & res & w1 & Hrun & Hsent & Hlog & Hn & _).
  rewrite Hrun. destruct res as [response|e].
  - destruct (request_finish_ends this fc key response st w1) as (r & st' & Hfin).
    exists r, st', w1, n. repeat split; try assumption.
    destruct r as [resp|e]; [|].
    + apply request_finish_ok in Hfin as (_ & _ & _ & _ & ->).
      destruct (cache_wanted fc); eauto.
    + revert Hfin. unfold request_finish, bind, lift_result.
      destruct (handleResponse this response) as [fr|e']; [|intros [= _ <-]; auto].
      destruct (ok fr); simpl; [|intros [= _ <-]; auto].
      destruct (read_body fr) as [d|e']; [|intros [= _ <-]; auto].
      destruct (cache_wanted fc); unfold Date_now, update_this, ret, bind; simpl;
        discriminate.
  - exists (Throw e), st, w1, n. repeat split; try assumption. auto.
Qed.

Lemma request_network_sends `{Platform} (this : ApiInstance) (fc : TApiConfig)
    (key : string) (s : ApiInstance * World) :
  (0 <= default 0 (retry fc))%Z ->
  forall r s',
    try_catch (request_network this fc key) request_catch s = Some (r, s') ->
    sent (snd s) < sent (snd s').
Proof.
  intros Hretry r s'. destruct s as [st w].
  destruct (request_network_ends this fc key st w)
    as (r0 & st' & w' & n & Hrun & Hsent & _ & Hn & _).
  unfold try_catch. rewrite Hrun. specialize (Hn Hretry).
  destruct r0 as [resp|e].
  - intros [= _ <-]. simpl. lia.
  - unfold request_catch, bind, get_this, lift_result. simpl.
    intros [= _ <-]. simpl. lia.
Qed.

Lemma removeCacheEntry_lookup (key : string) (this : ApiInstance) :
  cache_map (removeCacheEntry key this) !! key = None.
Proof. unfold removeCacheEntry. rewrite cache_map_with_cache. apply lookup_delete_eq. Qed.

(** An entry that is not expired is served. *)
Lemma request_fresh_hit `{Platform} (this : ApiInstance) (config fc : TApiConfig)
    (w : World) (entry : TCacheEntry JsValue) :
  handleInterceptors this config = Ok fc ->
  cache_wanted fc = true ->
  cache_map this !! buildcacheKey this fc = Some entry ->
  expired entry (now w) = false ->
  request config (this, w)
  = Some (Ok {| res_data := data entry;
                cacheKey := Some (buildcacheKey this fc);
                fromCache := true |},
          (snd (getCacheEntry (buildcacheKey this fc) this), w)).
Proof.
  intros Hfc Hwanted Hentry Hfresh.
  rewrite request_unfold, request_try_unfold, Hfc, request_from_unfold.
  cbv zeta. rewrite Hwanted, Hentry, Hfresh. reflexivity.
Qed.

(** C1, as the code has it.  Let [fc] be the config of the request (the one
    the request interceptor returns, if there is one), a GET with
    [cache.enabled], and [key] its cache key.
    - If the cache has an entry under [key] that is not expired, [request]
      resolves to the data of the entry with [fromCache = true]; the world
      is unchanged: no network call.
    - If the entry is expired, it is removed and the request goes on to the
      network from the cache without it; the network is called at least once
      (for a retry count that is not negative).
    - When the [try] block ends with a response that is not from the cache,
      the response is stored under [key] with [ttl = cache.revalidate] and
      the time of the store.
    An entry is expired when its ttl is a number other than 0 and smaller
    than now minus its timestamp. *)
Theorem request_cache_protocol `{Platform} (this : ApiInstance) (config fc : TApiConfig)
    (w : World) :
  handleInterceptors this config = Ok fc ->
  cache_wanted fc = true ->
  let key := buildcacheKey this fc in
  (forall entry,
      cache_map this !! key = Some entry ->
      (expired entry (now w) = false <->
       ttl entry = None \/ ttl entry = Some 0%Z
       \/ exists t, ttl entry = Some t /\ (now w - timestamp entry <= t)%Z)
      /\ (expired entry (now w) = false ->
          request config (this, w)
          = Some (Ok {| res_data := data entry; cacheKey := Some key; fromCache := true |},
                  (snd (getCacheEntry key this), w)))
      /\ (expired entry (now w) = true ->
          let this1 := removeCacheEntry key (snd (getCacheEntry key this)) in
          cache_map this1 !! key = None
          /\ request config (this, w)
             = try_catch (request_network this fc key) request_catch (this1, w)
          /\ ((0 <= default 0 (retry fc))%Z ->
              forall r s', request config (this, w) = Some (r, s') ->
                           sent w < sent (snd s'))))
  /\ (forall resp s',
        request_try config (this, w) = Some (Ok resp, s') ->
        fromCache resp = false ->
        request config (this, w) = Some (Ok resp, s')
        /\ cache_map (fst s') !! key
           = Some {| data := res_data resp;
                     timestamp := now (snd s');
                     ttl := revalidate_of fc |}).
Proof.
  intros Hfc Hwanted key.
  assert (Htry : request_try config (this, w) = request_from this fc (this, w)).
  { rewrite request_try_unfold, Hfc. reflexivity. }
  pose proof (request_from_unfold this fc this w) as Hfrom.
  cbv zeta in Hfrom. fold key in Hfrom. rewrite Hwanted in Hfrom.
  split.
  - intros entry Hentry. rewrite Hentry in Hfrom. split; [|split].
    + unfold expired. destruct (ttl entry) as [t|] eqn:Httl.
      * destruct (Z.eqb_spec t 0) as [->|Hnz]; simpl.
        { split; auto. }
        rewrite Z.ltb_ge. split.
        { intros Hle. right. right. exists t. split; [reflexivity|exact Hle]. }
        { intros [Hn|[Hz|(t' & Ht' & Hle)]]; [discriminate|congruence|].
          injection Ht' as ->. exact Hle. }
      * split; auto.
    + intros Hfresh. apply (request_fresh_hit this config fc w entry); assumption.
    + intros Hexpired this1. rewrite Hexpired in Hfrom.
      assert (Hreq : request config (this, w)
                     = try_catch (request_network this fc key) request_catch (this1, w)).
      { unfold request, try_catch. rewrite Htry, Hfrom. reflexivity. }
      split; [apply removeCacheEntry_lookup|]. split; [exact Hreq|].
      intros Hretry r s' Hrun. rewrite Hreq in Hrun.
      apply (request_network_sends this fc key (this1, w) Hretry r s' Hrun).
  - intros resp s' Hrun Hnet. split.
    { rewrite request_unfold, Hrun. reflexivity. }
    rewrite Htry, Hfrom in Hrun.
    assert (Hstore : forall st,
               request_network this fc key (st, w) = Some (Ok resp, s') ->
               cache_map (fst s') !! key
               = Some {| data := res_data resp; timestamp := now (snd s');
                         ttl := revalidate_of fc |}).
    { intros st Hn. rewrite request_network_unfold in Hn.
      destruct (fetchWithRetry _ _ _ _ _ _ w) as [[[response|e] w1]|]; try discriminate.
      destruct s' as [st' w'].
      apply request_finish_ok in Hn as (-> & _ & _ & _ & ->).
      rewrite Hwanted. simpl. apply setCacheEntry_lookup. }
    destruct (cache_map this !! key) as [entry|]; [|exact (Hstore _ Hrun)].
    destruct (expired entry (now w)); [exact (Hstore _ Hrun)|].
    injection Hrun as <- _. discriminate.
Qed.

(** A request served from the cache at time 5: the entry was stored at
    time 0 with a ttl of 1000. *)
Lemma request_cache_protocol_witness :
  exists s',
    @request sample_platform (sample_get "/users" (Some 1000%Z) None)
      (setCache (@buildcacheKey sample_platform (sample_instance 2)
                   (sample_get "/users" (Some 1000%Z) None))
         (JString "cached") (Some 1000%Z) 0 (sample_instance 2),
       sample_world 5 [])
    = Some (Ok {| res_data := JString "cached";
                  cacheKey := Some (@buildcacheKey sample_platform (sample_instance 2)
                                      (sample_get "/users" (Some 1000%Z) None));
                  fromCache := true |}, s')
    /\ log (snd s') = [].
Proof.
  pose proof (@request_cache_protocol sample_platform
                (setCache (@buildcacheKey sample_platform (sample_instance 2)
                             (sample_get "/users" (Some 1000%Z) None))
                   (JString "cached") (Some 1000%Z) 0 (sample_instance 2))
                (sample_get "/users" (Some 1000%Z) None)
                (sample_get "/users" (Some 1000%Z) None)
                (sample_world 5 []) eq_refl eq_refl) as [Hhit _].
  destruct (Hhit {| data := JString "cached"; timestamp := 0; ttl := Some 1000%Z |})
    as (_ & Hfresh & _).
  { vm_compute. reflexivity. }
  eexists. split; [apply Hfresh; reflexivity|reflexivity].
Defined.

(** A ttl of 0 is falsy: the entry never expires. *)
Remark zero_ttl_never_expires (entry : TCacheEntry JsValue) (now' : Z) :
  ttl entry = Some 0%Z -> expired entry now' = false.
Proof. intros Httl. unfold expired. rewrite Httl. reflexivity. Qed.

(** The claim on C1 fails for a ttl of 0.  The entry was stored at time 0
    with [ttl = 0]; at time 5, now minus its timestamp is more than its ttl,
    so the claim has it expired, removed and fetched again; the request is
    served from the cache, calls no network and leaves the entry. *)
Lemma zero_ttl_entry_is_served :
  let config := sample_get "/users" (Some 0%Z) None in
  let key := @buildcacheKey sample_platform zero_ttl_instance config in
  let entry := {| data := JString "old"; timestamp := 0; ttl := Some 0%Z |} in
  let w := sample_world 5 [Ok (sample_response 200 (JString "new"))] in
  cache_map zero_ttl_instance !! key = Some entry
  /\ stated_expired entry (now w) = true
  /\ exists s',
       @request sample_platform config (zero_ttl_instance, w)
       = Some (Ok {| res_data := JString "old"; cacheKey := Some key; fromCache := true |}, s')
       /\ sent (snd s') = 0
       /\ cache_map (fst s') !! key = Some entry.
Proof.
  intros config key entry w.
  assert (Hentry : cache_map zero_ttl_instance !! key = Some entry).
  { apply setCacheEntry_lookup. }
  split; [exact Hentry|]. split; [reflexivity|].
  eexists. split.
  { apply (@request_fresh_hit sample_platform zero_ttl_instance config config w entry);
      [reflexivity|reflexivity|exact Hentry|reflexivity]. }
  split; [reflexivity|].
  simpl. unfold getCacheEntry. fold key. rewrite Hentry. exact Hentry.
Qed.

(* ===================================================================== *)
(** ** The interceptors                                                   *)
(* ===================================================================== *)

(** The cache operations leave the rest of the instance as it is. *)
Lemma cache_step_interceptors (key : string) (st st' : ApiInstance) :
  rtc (cache_step key) st st' ->
  interceptors st' = interceptors st /\ maxCacheSize st' = maxCacheSize st.
Proof.
  induction 1 as [st|st st1 st2 Hstep _ [IH1 IH2]]; [auto|].
  rewrite IH1, IH2. destruct Hstep.
  - unfold getCacheEntry. destruct (cache_map st !! key); auto.
  - unfold setCacheEntry. rewrite maxCacheSize_with_cache. simpl.
    destruct (_ && _); [|auto]. unfold evict_oldest.
    destruct (cacheAccessOrder st) as [|k rest]; [auto|].
    destruct (negb _); auto.
  - auto.
Qed.

(** The [try] block after the request interceptor: it ends; its events are
    those of one run of [fetchWithRetry] for [fc]; the instance changes by
    cache operations on the key of [fc]. *)
Lemma request_from_ends `{Platform} (this : ApiInstance) (fc : TApiConfig)
    (st : ApiInstance) (w : World) :
  exists r st' w' n,
    request_from this fc (st, w) = Some (r, (st', w'))
    /\ sent w' = sent w + n
    /\ log w' = log w ++ request_events this fc n
    /\ rtc (cache_step (buildcacheKey this fc)) st st'.
Proof.
  rewrite request_from_unfold. cbv zeta.
  set (key := buildcacheKey this fc).
  assert (Hnet : forall st0, rtc (cache_step key) st st0 ->
            exists r st' w' n,
              request_network this fc key (st0, w) = Some (r, (st', w'))
              /\ sent w' = sent w + n
              /\ log w' = log w ++ request_events this fc n
              /\ rtc (cache_step key) st st').
  { intros st0 Hst0.
    destruct (request_network_ends this fc key st0 w)
      as (r & st' & w' & n & Hrun & Hsent & Hlog & _ & Hst').
    exists r, st', w', n. repeat split; try assumption.
    destruct Hst' as [->|[entry ->]]; [exact Hst0|].
    eapply rtc_r; [exact Hst0|constructor]. }
  destruct (cache_wanted fc); [|apply Hnet; constructor].
  destruct (cache_map st !! key) as [entry|] eqn:Hentry; [|apply Hnet; constructor].
  destruct (expired entry (now w)).
  - apply Hnet. eapply rtc_l; [apply step_get|]. apply rtc_once, step_remove.
  - do 2 eexists. exists w, 0. split; [reflexivity|].
    repeat split; [lia|simpl; rewrite app_nil_r; reflexivity|].
    apply rtc_once, step_get.
Qed.

(** Every request ends.  Its events are those of one run of
    [fetchWithRetry] for the final config, and its effect on the instance is
    a sequence of cache operations on the key of the final config. *)
Lemma request_ends `{Platform} (config : TApiConfig) (this : ApiInstance) (w : World) :
  exists r st' w',
    request config (this, w) = Some (r, (st', w'))
    /\ match handleInterceptors this config with
       | Ok fc =>
           (exists n, log w' = log w ++ request_events this fc n)
           /\ rtc (cache_step (buildcacheKey this fc)) this st'
       | Throw _ => st' = this /\ w' = w
       end.
Proof.
  rewrite request_unfold, request_try_unfold.
  destruct (handleInterceptors this config) as [fc|e].
  - destruct (request_from_ends this fc this w)
      as (r & st' & w' & n & Hrun & _ & Hlog & Hsteps).
    rewrite Hrun. destruct r as [resp|e]; do 3 eexists; (split; [reflexivity|]); eauto.
  - do 3 eexists. split; [reflexivity|]. auto.
Qed.

(** What a response that does not come from the cache is made of: an ok
    response of the network, passed through the response interceptor, whose
    result is ok and is parsed. *)
Lemma request_from_network_response `{Platform} (this : ApiInstance) (fc : TApiConfig)
    (st : ApiInstance) (w : World) (resp : TApiResponse JsValue) (s' : ApiInstance * World) :
  request_from this fc (st, w) = Some (Ok resp, s') ->
  cacheKey resp = Some (buildcacheKey this fc)
  /\ (fromCache resp = false ->
      exists i response finalResponse,
        reply (net w (sent w + i)) = Ok response
        /\ ok response = true
        /\ handleResponse this response = Ok finalResponse
        /\ ok finalResponse = true
        /\ read_body finalResponse = Ok (res_data resp)).
Proof.
  rewrite request_from_unfold. cbv zeta.
  set (key := buildcacheKey this fc).
  assert (Hnet : forall st0,
            request_network this fc key (st0, w) = Some (Ok resp, s') ->
            cacheKey resp = Some key
            /\ (fromCache resp = false ->
                exists i response finalResponse,
                  reply (net w (sent w + i)) = Ok response
                  /\ ok response = true
                  /\ handleResponse this response = Ok finalResponse
                  /\ ok finalResponse = true
                  /\ read_body finalResponse = Ok (res_data resp))).
  { intros st0. rewrite request_network_unfold.
    destruct (fetchWithRetry_ends (request_url this fc) (request_init this fc)
                (default 0%Z (retry fc)) (signal fc) (onUpload fc) (onDownload fc) w)
      as (n & res & w1 & Hrun & _ & _ & _ & Hres).
    rewrite Hrun. destruct res as [response|e]; [|discriminate].
    destruct s' as [st' w']. intros Hfin.
    apply request_finish_ok in Hfin as (_ & _ & Hkey & (fr & Hfr & Hok & Hread) & _).
    split; [exact Hkey|]. intros _.
    destruct (Hres response eq_refl) as (Hokr & i & _ & Hi).
    exists i, response, fr. repeat split; assumption. }
  destruct (cache_wanted fc); [|apply Hnet].
  destruct (cache_map st !! key) as [entry|]; [|apply Hnet].
  destruct (expired entry (now w)); [apply Hnet|].
  intros [= <- _]. simpl. split; [reflexivity|discriminate].
Qed.

(** A response that is not ok does not leave [fetchWithRetry]: with one
    round, the request fails with what the round throws, whatever the
    response interceptor is. *)
Lemma request_network_not_ok `{Platform} (this : ApiInstance) (fc : TApiConfig)
    (key : string) (st : ApiInstance) (w : World) (res : Response) :
  default 0%Z (retry fc) = 0%Z ->
  reply (net w (sent w)) = Ok res ->
  ok res = false ->
  request_network this fc key (st, w)
  = Some (Throw (notOk_thrown res),
          (st, after_network (onUpload fc || onDownload fc) (request_url this fc)
                 (init_with_signal (request_init this fc) (signal fc)) w)).
Proof.
  intros Hretry Hreply Hok.
  rewrite request_network_unfold, Hretry. unfold fetchWithRetry.
  change (Z.to_nat 0) with 0. rewrite fetchWithRetry_loop_S.
  change (0 <=? 0)%Z with true. cbv iota.
  unfold try_catch. rewrite attempt_once_outcome.
  unfold round_outcome. rewrite Nat.add_0_r, Hreply, Hok. simpl.
  destruct (isAbortError (notOk_thrown res)); reflexivity.
Qed.

Lemma request_try_throw_state `{Platform} (config : TApiConfig) (this : ApiInstance)
    (w : World) (r : Result (TApiResponse JsValue)) (s' : ApiInstance * World) :
  request_try config (this, w) = Some (r, s') ->
  interceptors (fst s') = interceptors this.
Proof.
  rewrite request_try_unfold.
  destruct (handleInterceptors this config) as [fc|e].
  - destruct (request_from_ends this fc this w)
      as (r0 & st' & w' & n & Hrun & _ & _ & Hsteps).
    rewrite Hrun. intros [= _ <-]. simpl.
    apply (cache_step_interceptors _ _ _ Hsteps).
  - intros [= _ <-]. reflexivity.
Qed.

(** C8, as the code has it.
    - Request interceptor: with [fc] the config it returns, the request is
      run from [fc]: its events are the network calls and waits for the url
      and the init computed from [fc], and the key of its response is the
      cache key of [fc].
    - Response interceptor: a response that is not served from the cache is
      made of an ok response of the network, which the response interceptor
      was given, and of the check and the parsing of what the interceptor
      returned.  A network response that is not ok is turned into a thrown
      value inside [fetchWithRetry], before the response interceptor and
      whatever it is.
    - Error interceptor: what the [try] block of [request] throws is given
      to the error interceptor when there is one, and is thrown again as it
      is when there is none. *)
Theorem request_interceptor_order `{Platform} (this : ApiInstance) (config : TApiConfig)
    (w : World) :
  (forall fc,
      handleInterceptors this config = Ok fc ->
      request config (this, w) = try_catch (request_from this fc) request_catch (this, w)
      /\ (forall r s',
            request config (this, w) = Some (r, s') ->
            exists n, log (snd s') = log w ++ request_events this fc n)
      /\ (forall resp s',
            request_try config (this, w) = Some (Ok resp, s') ->
            cacheKey resp = Some (buildcacheKey this fc)
            /\ (fromCache resp = false ->
                exists i response finalResponse,
                  reply (net w (sent w + i)) = Ok response
                  /\ ok response = true
                  /\ handleResponse this response = Ok finalResponse
                  /\ ok finalResponse = true
                  /\ read_body finalResponse = Ok (res_data resp))))
  /\ (forall fc key st res,
        default 0%Z (retry fc) = 0%Z ->
        reply (net w (sent w)) = Ok res ->
        ok res = false ->
        request_network this fc key (st, w)
        = Some (Throw (notOk_thrown res),
                (st, after_network (onUpload fc || onDownload fc) (request_url this fc)
                       (init_with_signal (request_init this fc) (signal fc)) w)))
  /\ (forall e s',
        request_try config (this, w) = Some (Throw e, s') ->
        request config (this, w)
        = Some (match icp_error (interceptors this) with
                | Some f => f e
                | None => Throw e
                end, s')).
Proof.
  split; [|split].
  - intros fc Hfc.
    assert (Htry : request_try config (this, w) = request_from this fc (this, w)).
    { rewrite request_try_unfold, Hfc. reflexivity. }
    split; [|split].
    + unfold request, try_catch. rewrite Htry. reflexivity.
    + intros r s' Hrun.
      destruct (request_ends config this w) as (r0 & st' & w' & Hrun0 & Hshape).
      rewrite Hfc in Hshape. rewrite Hrun0 in Hrun. injection Hrun as _ <-.
      exact (proj1 Hshape).
    + intros resp s' Hrun. rewrite Htry in Hrun.
      exact (request_from_network_response this fc this w resp s' Hrun).
  - intros fc key st res. apply request_network_not_ok.
  - intros e s' Hrun. rewrite request_unfold, Hrun.
    unfold handleError. rewrite (request_try_throw_state config this w _ s' Hrun).
    reflexivity.
Qed.

(** A request whose only response has status 500, on an instance with a
    response interceptor: the value thrown is the parsed body. *)
Lemma request_interceptor_order_witness :
  @request_network sample_platform recovering_instance (plain_get "/users") "key"
    (recovering_instance, sample_world 0 [Ok response_500])
  = Some (Throw (ThrownValue (JObject [("message", JString "boom")])),
          (recovering_instance,
           after_network false
             (@request_url sample_platform recovering_instance (plain_get "/users"))
             (init_with_signal
                (@request_init sample_platform recovering_instance (plain_get "/users"))
                None)
             (sample_world 0 [Ok response_500]))).
Proof.
  apply (proj1 (proj2 (@request_interceptor_order sample_platform recovering_instance
                         (plain_get "/users") (sample_world 0 [Ok response_500])))
           (plain_get "/users") "key" recovering_instance response_500);
    reflexivity.
Defined.

(** The claim on C8 fails for a response that is not ok.  The instance has
    a response interceptor that turns every response into an ok one; the
    network answers with status 500.  Were the raw response passed through
    the interceptor before the status check, the request would resolve to
    the recovered data; the request throws the body of the 500 response. *)
Lemma not_ok_response_skips_interceptor :
  let this := recovering_instance in
  let config := plain_get "/users" in
  let key := @buildcacheKey sample_platform this config in
  let w := sample_world 0 [Ok response_500] in
  icp_response (interceptors this) = Some recover
  /\ reply (net w (sent w)) = Ok response_500
  /\ (exists s',
        @stated_response_path sample_platform this config key (this, w)
        = Some (Ok {| res_data := JString "recovered";
                      cacheKey := Some key;
                      fromCache := false |}, s'))
  /\ (exists s',
        @request sample_platform config (this, w)
        = Some (Throw (ThrownValue (JObject [("message", JString "boom")])), s')).
Proof.
  intros this config key w.
  split; [reflexivity|]. split; [reflexivity|]. split.
  - eexists. reflexivity.
  - eexists. rewrite request_unfold, request_try_unfold.
    change (handleInterceptors this config) with (Ok config).
    cbv iota. rewrite request_from_unfold. cbv zeta.
    change (cache_wanted config) with false. cbv iota.
    rewrite (@request_network_not_ok sample_platform this config
               (@buildcacheKey sample_platform this config) this w response_500)
      by reflexivity.
    reflexivity.
Qed.

(* ===================================================================== *)
(** ** useMutation: deduplication                                         *)
(* ===================================================================== *)

Lemma renew_controller_pending current rt :
  pendingRequests (snd (renew_controller current rt)) = pendingRequests rt
  /\ issued (snd (renew_controller current rt)) = issued rt.
Proof. split; reflexivity. Qed.

(** A call of [mutate] whose key is not pending makes the request and
    registers its promise under the key. *)
Lemma mutate_begin_first `{Platform} (hook : MutationHook) (rt : Runtime)
    (request' : JsValue) :
  pendingRequests rt !! requestKey hook request' = None ->
  exists hook' rt',
    mutate_begin request' (hook, rt)
    = (Awaiting (requestKey hook request') (length (issued rt)), (hook', rt'))
    /\ pendingRequests rt' !! requestKey hook request' = Some (length (issued rt))
    /\ issued rt' = issued rt ++ [mutation_request hook request' (controllers rt)].
Proof.
  intros Hfree. unfold mutate_begin. simpl. rewrite Hfree.
  do 2 eexists. split; [reflexivity|]. simpl.
  split; [apply lookup_insert_eq|reflexivity].
Qed.

(** A call of [mutate] whose key is pending returns the pending promise
    and makes no request. *)
Lemma mutate_begin_pending `{Platform} (hook : MutationHook) (rt : Runtime)
    (request' : JsValue) (promise : nat) :
  pendingRequests rt !! requestKey hook request' = Some promise ->
  exists hook' rt',
    mutate_begin request' (hook, rt) = (Deduplicated promise, (hook', rt'))
    /\ issued rt' = issued rt
    /\ pendingRequests rt' = delete (requestKey hook request') (pendingRequests rt).
Proof.
  intros Hpending. unfold mutate_begin. simpl. rewrite Hpending.
  do 2 eexists. split; [reflexivity|]. split; reflexivity.
Qed.

Lemma mutate_settle_outcome (key : string) (outcome : Result (TApiResponse JsValue))
    (s : MutationHook * Runtime) :
  fst (mutate_settle key outcome s) = outcome
  /\ pendingRequests (snd (snd (mutate_settle key outcome s))) !! key = None
  /\ mut_isLoading (mh_state (fst (snd (mutate_settle key outcome s)))) = false.
Proof.
  destruct s as [hook rt]. unfold mutate_settle.
  destruct outcome as [response|err]; simpl; repeat split; apply lookup_delete_eq.
Qed.

(** C5, on the code.  Three components use the mutation POST /save and
    call [mutate] with the same request, one after the other, while the
    request of the first call is in flight: no promise settles in between.
    The first call makes the request and registers its promise under the
    key.  The second call is answered with that promise and makes no
    request, but its [finally] block runs on the way out and removes the
    key.  The third call finds no key and makes the request a second time,
    although the first one is still in flight and no controller has been
    aborted.  The first two callers end with the outcome of promise 0, the
    third with the outcome of promise 1. *)
Theorem in_flight_request_is_issued_twice :
  let request' := JObject [("name", JString "a")] in
  let hook := sample_mutation "/save" POST in
  let key := @requestKey sample_platform hook request' in
  let first := @mutate_begin sample_platform request' (hook, fresh_runtime) in
  let second := @mutate_begin sample_platform request' (hook, snd (snd first)) in
  let third := @mutate_begin sample_platform request' (hook, snd (snd second)) in
  fst first = Awaiting key 0
  /\ pendingRequests (snd (snd first)) !! key = Some 0
  /\ fst second = Deduplicated 0
  /\ issued (snd (snd second)) = [@mutation_request sample_platform hook request' 0]
  /\ pendingRequests (snd (snd second)) !! key = None
  /\ fst third = Awaiting key 1
  /\ issued (snd (snd third))
     = [@mutation_request sample_platform hook request' 0;
        @mutation_request sample_platform hook request' 2]
  /\ pendingRequests (snd (snd third)) !! key = Some 1
  /\ aborted (snd (snd third)) = []
  /\ (forall settled,
        mutate_result (fst first) settled (snd first) = settled 0
        /\ mutate_result (fst second) settled (snd second) = settled 0
        /\ mutate_result (fst third) settled (snd third) = settled 1).
Proof.
  intros request' hook key first second third.
  assert (H1 : fst first = Awaiting key 0) by (vm_compute; reflexivity).
  assert (H2 : fst second = Deduplicated 0) by (vm_compute; reflexivity).
  assert (H3 : fst third = Awaiting key 1) by (vm_compute; reflexivity).
  do 9 (split; [vm_compute; reflexivity|]).
  intros settled. rewrite H1, H2, H3. unfold mutate_result.
  repeat split; apply mutate_settle_outcome.
Qed.

(** The call that was answered with the pending promise runs its [finally]
    block at once: the key leaves [pendingRequests] while the request is
    still in flight, and the next call with this key makes a new request. *)
Remark deduplicated_call_clears_key `{Platform} (hook : MutationHook) (rt : Runtime)
    (request' : JsValue) (promise : nat) :
  pendingRequests rt !! requestKey hook request' = Some promise ->
  let s1 := snd (mutate_begin request' (hook, rt)) in
  pendingRequests (snd s1) !! requestKey hook request' = None
  /\ fst (mutate_begin request' (hook, snd s1))
     = Awaiting (requestKey hook request') (length (issued rt)).
Proof.
  intros Hpending s1.
  destruct (mutate_begin_pending hook rt request' promise Hpending)
    as (hook' & rt' & Hrun & Hissued & Hmap).
  subst s1. rewrite Hrun. cbn [fst snd].
  assert (Hgone : pendingRequests rt' !! requestKey hook request' = None).
  { rewrite Hmap. apply lookup_delete_eq. }
  split; [exact Hgone|].
  destruct (mutate_begin_first hook rt' request' Hgone) as (h2 & rt2 & Hrun2 & _).
  rewrite Hrun2, Hissued. reflexivity.
Qed.

(* ===================================================================== *)
(** ** useInfiniteFetch                                                   *)
(* ===================================================================== *)

(** A successful [fetchNextPage] appends the new page to [items]; the next
    offset is asked of [setOffset] with the new page, the [items] that
    [fetchPage] closed over followed by the new page, and the offset of the
    page; [null] ends the pagination. *)
Lemma fetchNextPage_success `{Platform} (s : InfiniteHook * Runtime)
    (resp : TApiResponse JsValue) :
  hasNextPage (ih_state (fst s)) = true ->
  isFetchingNextPage (ih_state (fst s)) = false ->
  let st := ih_state (fst s) in
  let st' := ih_state (fst (fetchNextPage_settled (Ok resp) s)) in
  let nextOffset :=
    setOffset (ih_options (fst s)) (res_data resp)
      (fetchPage_items (fst s) ++ [res_data resp]) (offset st) in
  items st' = items st ++ [res_data resp]
  /\ offset st' = default (offset st) nextOffset
  /\ hasNextPage st' = bool_decide (is_Some nextOffset)
  /\ isFetchingNextPage st' = false
  /\ length (issued (snd (fetchNextPage_settled (Ok resp) s))) = S (length (issued (snd s))).
Proof.
  destruct s as [hook rt]. simpl. intros Hnext Hfetching.
  unfold fetchNextPage_settled, fetchNextPage. simpl.
  rewrite Hnext, Hfetching. simpl.
  destruct (setOffset _ _ _ _) as [o|]; simpl;
    repeat split; rewrite length_app; simpl; lia.
Qed.

(** Once [hasNextPage] is false, [fetchNextPage] makes no request and
    changes nothing, whatever the answer would be. *)
Lemma fetchNextPage_exhausted `{Platform} (s : InfiniteHook * Runtime)
    (outcome : Result (TApiResponse JsValue)) :
  hasNextPage (ih_state (fst s)) = false ->
  fetchNextPage s = (None, s) /\ fetchNextPage_settled outcome s = s.
Proof.
  intros Hnext. unfold fetchNextPage_settled, fetchNextPage.
  rewrite Hnext. simpl. split; reflexivity.
Qed.

(** C7, on the code.  The hook loads the first page and then a second one
    with [fetchNextPage].  The pages accumulate in [items], but [setOffset]
    is called with the second page alone as the list of all items: the
    [items] that [fetchPage] reads is the empty list of the render in which
    [fetchPage] was created.  With [setOffset] counting the pages, the next
    offset stays 10 where the accumulated pages give 20. *)
Theorem fetchNextPage_stale_items :
  let s1 := first_page_loaded in
  let s2 := @fetchNextPage_settled sample_platform (Ok (page_response (page 1))) s1 in
  items (ih_state (fst s1)) = [page 0]
  /\ offset (ih_state (fst s1)) = 10%Z
  /\ items (ih_state (fst s2)) = [page 0; page 1]
  /\ offset (ih_state (fst s2)) = 10%Z
  /\ setOffset count_pages (page 1) (items (ih_state (fst s2))) 10 = Some 20%Z.
Proof. repeat split. Qed.

(* ===================================================================== *)
(** ** The cache: bound and access order                                  *)
(* ===================================================================== *)

Lemma filter_ne_id (k : string) (l : list string) :
  k ∉ l -> filter (fun x => x ≠ k) l = l.
Proof.
  induction l as [|a l IH]; intros Hk; [reflexivity|].
  apply not_elem_of_cons in Hk as [Hne Hk].
  rewrite filter_cons_True by congruence. f_equal. apply IH, Hk.
Qed.

(** On a list without duplicates, removing the first occurrence of a key
    removes the key. *)
Lemma splice_first_filter (k : string) (l : list string) :
  NoDup l -> splice_first k l = filter (fun x => x ≠ k) l.
Proof.
  induction 1 as [|a l Ha Hl IH]; [reflexivity|]. simpl.
  destruct (String.eqb_spec a k) as [->|Hne].
  - rewrite filter_cons_False by (intros Hn; apply Hn; reflexivity).
    symmetry. apply filter_ne_id, Ha.
  - rewrite filter_cons_True by exact Hne. f_equal. exact IH.
Qed.

Lemma touch_NoDup (k : string) (l : list string) :
  NoDup l -> NoDup (splice_first k l ++ [k]).
Proof.
  intros Hl. rewrite splice_first_filter by exact Hl.
  apply NoDup_app. split; [apply NoDup_filter, Hl|]. split.
  - intros x Hx%list_elem_of_filter Hk%list_elem_of_singleton. tauto.
  - apply NoDup_singleton.
Qed.

Lemma touch_elem_of (k x : string) (l : list string) :
  NoDup l -> x ∈ splice_first k l ++ [k] <-> x ∈ l \/ x = k.
Proof.
  intros Hl. rewrite splice_first_filter by exact Hl.
  rewrite elem_of_app, list_elem_of_filter, list_elem_of_singleton.
  destruct (decide (x = k)); tauto.
Qed.

(** Putting a key into the map and at the end of the order keeps the two
    in step. *)
Lemma order_inv_insert (k : string) (entry : TCacheEntry JsValue) (st : ApiInstance) :
  order_inv st ->
  order_inv (with_cache st (<[k := entry]> (cache_map st))
               (splice_first k (cacheAccessOrder st) ++ [k])).
Proof.
  intros [Hnd Hdom]. split; simpl.
  - apply touch_NoDup, Hnd.
  - intros x. rewrite touch_elem_of by exact Hnd. rewrite Hdom.
    rewrite lookup_insert. destruct (decide (k = x)) as [->|Hne].
    + split; [intros _; eexists; reflexivity|auto].
    + split; [intros [Hx|Hx]; [exact Hx|congruence]|auto].
Qed.

Lemma order_inv_get (k : string) (st : ApiInstance) :
  order_inv st -> order_inv (snd (getCacheEntry k st)).
Proof.
  intros Hinv. unfold getCacheEntry.
  destruct (cache_map st !! k) as [entry|] eqn:Hk; [|exact Hinv].
  destruct Hinv as [Hnd Hdom]. split; simpl.
  - apply touch_NoDup, Hnd.
  - intros x. rewrite touch_elem_of by exact Hnd. rewrite Hdom.
    split; [intros [Hx| ->]; [exact Hx|eauto]|auto].
Qed.

Lemma order_inv_remove (k : string) (st : ApiInstance) :
  order_inv st -> order_inv (removeCacheEntry k st).
Proof.
  intros [Hnd Hdom]. unfold removeCacheEntry. split; simpl.
  - rewrite splice_first_filter by exact Hnd. apply NoDup_filter, Hnd.
  - intros x. rewrite splice_first_filter by exact Hnd.
    rewrite list_elem_of_filter, Hdom, lookup_delete.
    destruct (decide (k = x)) as [->|Hne].
    + split; [tauto|intros [v Hv]; discriminate].
    + split; [tauto|]. intros Hx. split; [congruence|exact Hx].
Qed.

(** Eviction when the oldest key is not the empty string: the key leaves
    the map and the order together. *)
Lemma order_inv_evict (st : ApiInstance) (oldestKey : string) (rest : list string) :
  cacheAccessOrder st = oldestKey :: rest ->
  oldestKey ≠ "" ->
  order_inv st ->
  evict_oldest st = with_cache st (delete oldestKey (cache_map st)) rest
  /\ order_inv (evict_oldest st)
  /\ S (size (cache_map (evict_oldest st))) = size (cache_map st).
Proof.
  intros Horder Hne [Hnd Hdom].
  assert (Hev : evict_oldest st = with_cache st (delete oldestKey (cache_map st)) rest).
  { unfold evict_oldest. rewrite Horder.
    destruct (String.eqb_spec oldestKey "") as [Heq|_]; [contradiction|reflexivity]. }
  rewrite Hev. rewrite Horder in Hnd, Hdom.
  apply NoDup_cons in Hnd as [Hfresh Hnd].
  assert (Hin : is_Some (cache_map st !! oldestKey)).
  { apply Hdom. left. }
  split; [reflexivity|]. split.
  - split; simpl; [exact Hnd|].
    intros x. rewrite lookup_delete. destruct (decide (oldestKey = x)) as [->|Hx].
    + split; [contradiction|intros [v Hv]; discriminate].
    + rewrite <- Hdom. rewrite elem_of_cons. split; [auto|].
      intros [->|Hin']; [contradiction|exact Hin'].
  - simpl. destruct Hin as [v Hv]. rewrite map_size_delete, Hv.
    assert (size (cache_map st) ≠ 0).
    { apply map_size_non_empty_iff. intros Hempty. rewrite Hempty in Hv.
      rewrite lookup_empty in Hv. discriminate. }
    lia.
Qed.

(** A cache at its bound of at least one entry has a first key in its
    order. *)
Lemma full_cache_has_oldest (st : ApiInstance) :
  order_inv st ->
  (1 <= maxCacheSize st)%Z ->
  (maxCacheSize st <= Z.of_nat (size (cache_map st)))%Z ->
  exists oldestKey rest, cacheAccessOrder st = oldestKey :: rest.
Proof.
  intros [_ Hdom] Hmax Hfull.
  destruct (cacheAccessOrder st) as [|k rest] eqn:Horder; [|eauto].
  exfalso. assert (Hempty : cache_map st = ∅).
  { apply map_empty. intros i. destruct (cache_map st !! i) eqn:Hi; [|reflexivity].
    assert (Hin : i ∈ @nil string) by (apply Hdom; eauto).
    inversion Hin. }
  rewrite Hempty, map_size_empty in Hfull. lia.
Qed.

Lemma cache_inv_set (k : string) (entry : TCacheEntry JsValue) (st : ApiInstance) :
  k ≠ "" ->
  (1 <= maxCacheSize st)%Z ->
  "" ∉ cacheAccessOrder st ->
  cache_inv st ->
  cache_inv (setCacheEntry k entry st) /\ "" ∉ cacheAccessOrder (setCacheEntry k entry st).
Proof.
  intros Hk Hmax Hnoempty [Hsize Hinv]. unfold setCacheEntry.
  destruct (_ && _) eqn:Hevict.
  - apply andb_true_iff in Hevict as [Hfull Habsent].
    apply Z.leb_le in Hfull. apply negb_true_iff, bool_decide_eq_false in Habsent.
    destruct (full_cache_has_oldest st Hinv Hmax Hfull) as (oldest & rest & Horder).
    assert (Hold : oldest ≠ "").
    { intros ->. apply Hnoempty. rewrite Horder. left. }
    destruct (order_inv_evict st oldest rest Horder Hold Hinv) as (Hev & Hinv1 & Hsize1).
    set (st1 := evict_oldest st) in *.
    assert (Hk1 : cache_map st1 !! k = None).
    { rewrite Hev. simpl. rewrite lookup_delete. destruct (decide (oldest = k)); [reflexivity|].
      destruct (cache_map st !! k) eqn:Hlk; [|reflexivity]. exfalso. apply Habsent. eauto. }
    split; [split|].
    + simpl. rewrite (map_size_insert_None _ _ _ Hk1).
      replace (maxCacheSize st1) with (maxCacheSize st) by (rewrite Hev; reflexivity).
      lia.
    + apply order_inv_insert, Hinv1.
    + simpl. rewrite touch_elem_of by apply Hinv1.
      intros [Hin|Heq]; [|congruence].
      apply Hnoempty. rewrite Horder. right. rewrite Hev in Hin. exact Hin.
  - split; [split|].
    + simpl. rewrite map_size_insert.
      destruct (cache_map st !! k) as [v|] eqn:Hlk; [exact Hsize|]. simpl.
      apply andb_false_iff in Hevict as [Hroom|Hpresent].
      * apply Z.leb_gt in Hroom. lia.
      * apply negb_false_iff, bool_decide_eq_true in Hpresent.
        destruct Hpresent as [v Hv]. congruence.
    + apply order_inv_insert, Hinv.
    + simpl. rewrite touch_elem_of by apply Hinv.
      intros [Hin|Heq]; [contradiction|congruence].
Qed.

Lemma cache_inv_get (k : string) (st : ApiInstance) :
  "" ∉ cacheAccessOrder st ->
  cache_inv st ->
  cache_inv (snd (getCacheEntry k st)) /\ "" ∉ cacheAccessOrder (snd (getCacheEntry k st)).
Proof.
  intros Hnoempty [Hsize Hinv]. split; [split|].
  - unfold getCacheEntry. destruct (cache_map st !! k); exact Hsize.
  - apply order_inv_get, Hinv.
  - unfold getCacheEntry. destruct (cache_map st !! k) eqn:Hk; [|exact Hnoempty].
    simpl. rewrite touch_elem_of by apply Hinv.
    intros [Hin|Heq]; [contradiction|]. subst k.
    apply Hnoempty, Hinv. eauto.
Qed.

Lemma cache_inv_remove (k : string) (st : ApiInstance) :
  "" ∉ cacheAccessOrder st ->
  cache_inv st ->
  cache_inv (removeCacheEntry k st) /\ "" ∉ cacheAccessOrder (removeCacheEntry k st).
Proof.
  intros Hnoempty [Hsize Hinv]. split; [split|].
  - unfold removeCacheEntry. simpl. rewrite map_size_delete.
    destruct (cache_map st !! k); simpl; lia.
  - apply order_inv_remove, Hinv.
  - unfold removeCacheEntry. simpl.
    rewrite splice_first_filter by apply Hinv.
    rewrite list_elem_of_filter. tauto.
Qed.

Lemma buildcacheKey_not_empty `{Platform} (this : ApiInstance) (fc : TApiConfig) :
  buildcacheKey this fc ≠ "".
Proof.
  unfold buildcacheKey.
  destruct (200 <? _)%nat; destruct (source this); discriminate.
Qed.

Lemma well_kept_get (key : string) (st : ApiInstance) :
  well_kept st -> well_kept (snd (getCacheEntry key st)).
Proof.
  intros (Hmax & Hinv & Hne). split; [|apply cache_inv_get; assumption].
  unfold getCacheEntry. destruct (cache_map st !! key); exact Hmax.
Qed.

Lemma well_kept_remove (key : string) (st : ApiInstance) :
  well_kept st -> well_kept (removeCacheEntry key st).
Proof.
  intros (Hmax & Hinv & Hne). split; [exact Hmax|].
  apply cache_inv_remove; assumption.
Qed.

Lemma well_kept_set (key : string) (entry : TCacheEntry JsValue) (st : ApiInstance) :
  key ≠ "" ->
  well_kept st -> well_kept (setCacheEntry key entry st).
Proof.
  intros Hkey (Hmax & Hinv & Hne). split; [|apply cache_inv_set; assumption].
  replace (maxCacheSize (setCacheEntry key entry st)) with (maxCacheSize st); [exact Hmax|].
  symmetry. apply (cache_step_interceptors key st), rtc_once, step_set.
Qed.

Lemma well_kept_steps (key : string) (st st' : ApiInstance) :
  key ≠ "" ->
  rtc (cache_step key) st st' ->
  well_kept st -> well_kept st'.
Proof.
  intros Hkey. induction 1 as [st|st st1 st2 Hstep _ IH]; [auto|].
  intros Hkept. apply IH. destruct Hstep.
  - apply well_kept_get, Hkept.
  - apply well_kept_set; assumption.
  - apply well_kept_remove, Hkept.
Qed.

Lemma well_kept_new (options : TApiInstanceOptions) :
  (1 <= maxCacheSize (new_ApiInstance options))%Z ->
  well_kept (new_ApiInstance options).
Proof.
  intros Hmax. split; [exact Hmax|]. split; [split|].
  - simpl in *. rewrite map_size_empty. lia.
  - split; simpl; [constructor|].
    intros k. rewrite lookup_empty. split; [inversion 1|intros [v Hv]; discriminate].
  - simpl. inversion 1.
Qed.

Lemma well_kept_clear (st : ApiInstance) : well_kept st -> well_kept (clearCache st).
Proof.
  intros (Hmax & _ & _). split; [exact Hmax|]. split; [split|].
  - simpl. rewrite map_size_empty. lia.
  - split; simpl; [constructor|].
    intros k. rewrite lookup_empty. split; [inversion 1|intros [v Hv]; discriminate].
  - simpl. inversion 1.
Qed.

Lemma run_op_well_kept `{Platform} (op : Op) (st : ApiInstance) (w : World) :
  well_kept st ->
  "" ∉ set_keys [op] ->
  exists st' w',
    run_op op (st, w) = Some (Ok tt, (st', w'))
    /\ well_kept st'
    /\ maxCacheSize st' = maxCacheSize st.
Proof.
  intros Hkept Hkeys. destruct op as [config|key|key d t|key|]; simpl.
  - destruct (request_ends config st w) as (r & st' & w' & Hrun & Hshape).
    exists st', w'. split.
    + unfold try_catch, bind. rewrite Hrun. destruct r; reflexivity.
    + destruct (handleInterceptors st config) as [fc|e].
      * destruct Hshape as [_ Hsteps]. split.
        { apply (well_kept_steps _ _ _ (buildcacheKey_not_empty st fc) Hsteps Hkept). }
        { apply (cache_step_interceptors _ _ _ Hsteps). }
      * destruct Hshape as [-> _]. split; [exact Hkept|reflexivity].
  - unfold bind, on_this, getCache. simpl.
    destruct (getCacheEntry key st) as [entry st'] eqn:Hget.
    exists st', w. split; [reflexivity|].
    change st' with (snd (entry, st')). rewrite <- Hget. split.
    + apply well_kept_get, Hkept.
    + apply (cache_step_interceptors key st), rtc_once, step_get.
  - exists (setCache key d t (now w) st), w. split; [reflexivity|]. split.
    + apply well_kept_set; [|exact Hkept].
      intros ->. apply Hkeys. simpl. left.
    + apply (cache_step_interceptors key st), rtc_once, step_set.
  - exists (removeCache key st), w. split; [reflexivity|]. split; [|reflexivity].
    apply well_kept_remove, Hkept.
  - exists (clearCache st), w. split; [reflexivity|]. split; [|reflexivity].
    apply well_kept_clear, Hkept.
Qed.

(** As long as the empty string is not used as a key, every sequence of
    operations ends and keeps the cache within its bound, with the access
    order listing exactly the keys of the map. *)
Lemma run_ops_well_kept `{Platform} (ops : list Op) :
  forall (st : ApiInstance) (w : World),
    well_kept st ->
    "" ∉ set_keys ops ->
    exists st' w',
      run_ops ops (st, w) = Some (Ok tt, (st', w'))
      /\ well_kept st'
      /\ maxCacheSize st' = maxCacheSize st.
Proof.
  induction ops as [|op ops IH]; intros st w Hkept Hkeys.
  - exists st, w. split; [reflexivity|]. split; [exact Hkept|reflexivity].
  - assert (Hop : "" ∉ set_keys [op]).
    { intros Hin. apply Hkeys. unfold set_keys in *. simpl in *.
      rewrite app_nil_r in Hin. apply elem_of_app. left. exact Hin. }
    assert (Hrest : "" ∉ set_keys ops).
    { intros Hin. apply Hkeys. unfold set_keys in *. simpl.
      apply elem_of_app. right. exact Hin. }
    destruct (run_op_well_kept op st w Hkept Hop) as (st1 & w1 & Hrun1 & Hkept1 & Hmax1).
    destruct (IH st1 w1 Hkept1 Hrest) as (st' & w' & Hrun & Hkept' & Hmax').
    exists st', w'. split; [|split; [exact Hkept'|congruence]].
    cbn [run_ops]. unfold bind. rewrite Hrun1. exact Hrun.
Qed.

(** The invariant of the claim on the bound, for the sequences of
    operations in which [setCache] is not given the empty string as a
    key. *)
Lemma cache_bound_without_empty_key `{Platform} (options : TApiInstanceOptions)
    (ops : list Op) (w : World) :
  (1 <= maxCacheSize (new_ApiInstance options))%Z ->
  "" ∉ set_keys ops ->
  exists st' w',
    run_ops ops (new_ApiInstance options, w) = Some (Ok tt, (st', w'))
    /\ (Z.of_nat (size (cache_map st')) <= maxCacheSize (new_ApiInstance options))%Z
    /\ NoDup (cacheAccessOrder st')
    /\ (forall k, k ∈ cacheAccessOrder st' <-> is_Some (cache_map st' !! k)).
Proof.
  intros Hmax Hkeys.
  destruct (run_ops_well_kept ops (new_ApiInstance options) w
              (well_kept_new options Hmax) Hkeys)
    as (st' & w' & Hrun & Hkept & Hsame).
  exists st', w'. split; [exact Hrun|].
  destruct Hkept as (_ & [Hsize [Hnd Hdom]] & _).
  rewrite <- Hsame. repeat split; try assumption; apply Hdom.
Qed.

(** C2, on the code.  An instance with [maxCacheSize = 1] is given
    [setCache("", 1)] and then [setCache("a", 2)].  The second call finds
    the cache full and shifts the oldest key, the empty string, off the
    access order; the key being falsy, its entry is not deleted.  The map
    ends with two entries for a bound of one, and the access order lists
    only one of its two keys. *)
Theorem empty_key_overfills_cache :
  exists st' w',
    @run_ops sample_platform empty_key_ops (sample_instance 1, sample_world 0 [])
    = Some (Ok tt, (st', w'))
    /\ maxCacheSize st' = 1%Z
    /\ size (cache_map st') = 2
    /\ cacheAccessOrder st' = ["a"]
    /\ is_Some (cache_map st' !! "").
Proof.
  do 2 eexists. split; [reflexivity|]. simpl.
  repeat split; try reflexivity. eexists. reflexivity.
Qed.

(** C3, on the code.  The cache of an instance with [maxCacheSize = 1]
    holds one entry, under the empty string; it is at capacity and "a" is
    not in it.  [setCacheEntry("a", entry)] evicts nothing: the entry under
    the empty string, the least recently used one, is still there. *)
Theorem empty_key_is_not_evicted :
  let st := setCache "" (JNumber 1) None 0 (sample_instance 1) in
  let entry := {| data := JNumber 2; timestamp := 1; ttl := None |} in
  (maxCacheSize st <= Z.of_nat (size (cache_map st)))%Z
  /\ cache_map st !! "a" = None
  /\ cacheAccessOrder st = [""]
  /\ cache_map (setCacheEntry "a" entry st) !! "" = cache_map st !! ""
  /\ is_Some (cache_map (setCacheEntry "a" entry st) !! "")
  /\ size (cache_map (setCacheEntry "a" entry st)) = 2.
Proof.
  intros st entry.
  split; [vm_compute; discriminate|].
  split; [reflexivity|]. split; [reflexivity|]. split; [reflexivity|].
  split; [eexists; reflexivity|reflexivity].
Qed.

(* ===================================================================== *)
(** ** The cache: the entry evicted is the least recently used            *)
(* ===================================================================== *)

Lemma StronglySorted_filter_keep {A : Type} (R : relation A) (P : A -> Prop)
    `{forall x, Decision (P x)} (l : list A) :
  StronglySorted R l -> StronglySorted R (filter P l).
Proof.
  induction 1 as [|a l Hl IH Ha]; [constructor|].
  destruct (decide (P a)) as [Hp|Hp].
  - rewrite filter_cons_True by exact Hp. constructor; [exact IH|].
    apply Forall_forall. intros x Hx%list_elem_of_filter.
    rewrite Forall_forall in Ha. apply Ha, Hx.
  - rewrite filter_cons_False by exact Hp. exact IH.
Qed.

Lemma StronglySorted_change {A : Type} (R R' : relation A) (l : list A) :
  (forall a b, a ∈ l -> b ∈ l -> R a b -> R' a b) ->
  StronglySorted R l -> StronglySorted R' l.
Proof.
  intros Hext Hs. induction Hs as [|a l Hl IH Ha]; [constructor|].
  constructor.
  - apply IH. intros x y Hx Hy. apply Hext; right; assumption.
  - rewrite Forall_forall in *. intros x Hx.
    apply Hext; [left|right; exact Hx|apply Ha, Hx].
Qed.

Lemma last_access_other (last : gmap string nat) (key x : string) (time : nat) :
  x ≠ key -> last_access (<[key := time]> last) x = last_access last x.
Proof. intros Hne. unfold last_access. rewrite lookup_insert_ne by congruence. reflexivity. Qed.

Lemma last_access_same (last : gmap string nat) (key : string) (time : nat) :
  last_access (<[key := time]> last) key = time.
Proof. unfold last_access. rewrite lookup_insert_eq. reflexivity. Qed.

(** An access moves the key to the end of the order and gives it the
    latest time. *)
Lemma lru_sorted_touch (last : gmap string nat) (clock : nat) (key : string)
    (order : list string) :
  NoDup order ->
  lru_sorted last clock order ->
  lru_sorted (<[key := clock]> last) (S clock) (splice_first key order ++ [key]).
Proof.
  intros Hnd [Hsorted Hbound]. rewrite splice_first_filter by exact Hnd.
  rewrite Forall_forall in Hbound. split.
  - apply StronglySorted_app_2.
    + intros x1 x2 Hx1%list_elem_of_filter Hx2%list_elem_of_singleton. subst x2.
      destruct Hx1 as [Hne Hin].
      rewrite last_access_same, last_access_other by exact Hne. apply Hbound, Hin.
    + apply (StronglySorted_change
               (fun a b => last_access last a < last_access last b)).
      * intros a b Ha%list_elem_of_filter Hb%list_elem_of_filter Hab.
        rewrite !last_access_other by tauto. exact Hab.
      * apply StronglySorted_filter_keep, Hsorted.
    + repeat constructor.
  - apply Forall_forall. intros x Hx%elem_of_app.
    destruct Hx as [Hx%list_elem_of_filter|Hx%list_elem_of_singleton].
    + destruct Hx as [Hne Hin]. rewrite last_access_other by exact Hne.
      specialize (Hbound x Hin). lia.
    + subst x. rewrite last_access_same. lia.
Qed.

Lemma lru_sorted_tail (last : gmap string nat) (clock : nat) (a : string)
    (rest : list string) :
  lru_sorted last clock (a :: rest) -> lru_sorted last clock rest.
Proof.
  intros [Hsorted Hbound]. apply StronglySorted_cons in Hsorted as [_ Hsorted].
  apply Forall_cons in Hbound as [_ Hbound]. split; assumption.
Qed.

Lemma lru_sorted_remove (last : gmap string nat) (clock : nat) (key : string)
    (order : list string) :
  NoDup order ->
  lru_sorted last clock order ->
  lru_sorted last clock (splice_first key order).
Proof.
  intros Hnd [Hsorted Hbound]. rewrite splice_first_filter by exact Hnd. split.
  - apply StronglySorted_filter_keep, Hsorted.
  - rewrite Forall_forall in *. intros x Hx%list_elem_of_filter. apply Hbound, Hx.
Qed.

(** What [setCacheEntry] does to a well-kept cache: at capacity and with a
    new key, the first key of the access order leaves the map; otherwise
    nothing leaves. *)
Lemma setCacheEntry_evicts (key : string) (entry : TCacheEntry JsValue) (st : ApiInstance) :
  well_kept st ->
  if (maxCacheSize st <=? Z.of_nat (size (cache_map st)))%Z
     && negb (bool_decide (is_Some (cache_map st !! key)))
  then exists oldestKey rest,
         cacheAccessOrder st = oldestKey :: rest
         /\ oldestKey ≠ key
         /\ is_Some (cache_map st !! oldestKey)
         /\ cache_map (setCacheEntry key entry st)
            = <[key := entry]> (delete oldestKey (cache_map st))
         /\ cacheAccessOrder (setCacheEntry key entry st) = splice_first key rest ++ [key]
  else cache_map (setCacheEntry key entry st) = <[key := entry]> (cache_map st)
       /\ cacheAccessOrder (setCacheEntry key entry st)
          = splice_first key (cacheAccessOrder st) ++ [key].
Proof.
  intros (Hmax & [Hsize Hinv] & Hne). unfold setCacheEntry.
  destruct (_ && _) eqn:Hevict; [|split; reflexivity].
  apply andb_true_iff in Hevict as [Hfull Habsent].
  apply Z.leb_le in Hfull. apply negb_true_iff, bool_decide_eq_false in Habsent.
  destruct (full_cache_has_oldest st Hinv Hmax Hfull) as (oldest & rest & Horder).
  assert (Hold : oldest ≠ "").
  { intros ->. apply Hne. rewrite Horder. left. }
  destruct (order_inv_evict st oldest rest Horder Hold Hinv) as (Hev & _ & _).
  assert (Hin : is_Some (cache_map st !! oldest)).
  { apply Hinv. rewrite Horder. left. }
  exists oldest, rest. rewrite Hev. simpl.
  repeat split; try assumption. intros ->. contradiction.
Qed.

Lemma tracked_call_inv (c : CacheCall) (t : Tracked) :
  ~ writes_empty_key c -> tracked_inv t -> tracked_inv (tracked_call c t).
Proof.
  intros Hc [Hkept Hlru]. pose proof Hkept as (_ & [_ [Hnd _]] & _).
  destruct c as [key|key entry|key|]; unfold tracked_inv, tracked_call, accessed.
  - destruct (cache_map (tk_instance t) !! key) as [entry|] eqn:Hget; [|split; assumption].
    cbn [tk_instance tk_clock tk_last].
    split; [apply well_kept_get, Hkept|].
    unfold getCacheEntry. rewrite Hget. simpl. apply lru_sorted_touch; assumption.
  - cbn [tk_instance tk_clock tk_last].
    split; [apply well_kept_set; [exact Hc|exact Hkept]|].
    pose proof (setCacheEntry_evicts key entry (tk_instance t) Hkept) as Hset.
    destruct (_ && _).
    + destruct Hset as (oldest & rest & Horder & _ & _ & _ & ->).
      rewrite Horder in Hnd, Hlru. apply NoDup_cons in Hnd as [_ Hnd].
      apply lru_sorted_touch; [exact Hnd|]. apply (lru_sorted_tail _ _ oldest), Hlru.
    + destruct Hset as [_ ->]. apply lru_sorted_touch; assumption.
  - cbn [tk_instance tk_clock tk_last].
    split; [apply well_kept_remove, Hkept|].
    apply lru_sorted_remove; assumption.
  - cbn [tk_instance tk_clock tk_last].
    split; [apply well_kept_clear, Hkept|]. split; constructor.
Qed.

Lemma tracked_run_inv (calls : list CacheCall) :
  forall t : Tracked,
    Forall (fun c => ~ writes_empty_key c) calls ->
    tracked_inv t -> tracked_inv (tracked_run calls t).
Proof.
  induction calls as [|c calls IH]; intros t Hcalls Hinv; [exact Hinv|].
  apply Forall_cons in Hcalls as [Hc Hcalls]. unfold tracked_run. simpl.
  apply IH; [exact Hcalls|]. apply tracked_call_inv; assumption.
Qed.

Lemma tracked_new_inv (options : TApiInstanceOptions) :
  (1 <= maxCacheSize (new_ApiInstance options))%Z -> tracked_inv (tracked_new options).
Proof.
  intros Hmax. split; [apply well_kept_new, Hmax|]. split; constructor.
Qed.

(** The eviction of the claim on the least recently used entry, for the
    histories in which nothing is written under the empty string.  After any
    sequence of cache calls on a new instance with a bound of at least one,
    inserting a key that is not in a cache at capacity removes exactly one
    entry, and no key of the cache was last accessed before the key of that
    entry. *)
Lemma eviction_is_least_recently_used (options : TApiInstanceOptions)
    (calls : list CacheCall) (key : string) (entry : TCacheEntry JsValue) :
  (1 <= maxCacheSize (new_ApiInstance options))%Z ->
  Forall (fun c => ~ writes_empty_key c) calls ->
  let t := tracked_run calls (tracked_new options) in
  let st := tk_instance t in
  (maxCacheSize st <= Z.of_nat (size (cache_map st)))%Z ->
  cache_map st !! key = None ->
  exists oldestKey,
    is_Some (cache_map st !! oldestKey)
    /\ cache_map (setCacheEntry key entry st)
       = <[key := entry]> (delete oldestKey (cache_map st))
    /\ (forall k, is_Some (cache_map st !! k) -> k ≠ oldestKey ->
          last_access (tk_last t) oldestKey < last_access (tk_last t) k).
Proof.
  intros Hmax Hcalls t st Hfull Habsent.
  destruct (tracked_run_inv calls (tracked_new options) Hcalls (tracked_new_inv options Hmax))
    as [Hkept [Hsorted _]].
  fold t in Hkept, Hsorted. fold st in Hkept, Hsorted.
  pose proof (setCacheEntry_evicts key entry st Hkept) as Hset.
  replace (maxCacheSize st <=? Z.of_nat (size (cache_map st)))%Z with true in Hset
    by (symmetry; apply Z.leb_le; exact Hfull).
  rewrite Habsent in Hset.
  rewrite bool_decide_eq_false_2 in Hset by (intros [v Hv]; discriminate).
  simpl in Hset.
  destruct Hset as (oldest & rest & Horder & _ & Hin & Hmap & _).
  exists oldest. split; [exact Hin|]. split; [exact Hmap|].
  intros k Hk Hne. destruct Hkept as (_ & [_ [_ Hdom]] & _).
  apply Hdom in Hk. rewrite Horder in Hk, Hsorted.
  apply StronglySorted_cons in Hsorted as [Hfirst _].
  rewrite Forall_forall in Hfirst. apply Hfirst.
  apply elem_of_cons in Hk as [->|Hk]; [contradiction|exact Hk].
Qed.

(* ===================================================================== *)
(** * Further properties of the code                                      *)
(* ===================================================================== *)

(* ===================================================================== *)
(** ** The cache                                                          *)
(* ===================================================================== *)

Lemma cache_bound_without_empty_key_witness :
  exists st' w',
    @run_ops sample_platform sample_ops (new_ApiInstance (sample_options 2), sample_world 0 [])
    = Some (Ok tt, (st', w'))
    /\ (Z.of_nat (size (cache_map st')) <= maxCacheSize (new_ApiInstance (sample_options 2)))%Z
    /\ NoDup (cacheAccessOrder st')
    /\ (forall k, k ∈ cacheAccessOrder st' <-> is_Some (cache_map st' !! k)).
Proof.
  apply (@cache_bound_without_empty_key sample_platform (sample_options 2) sample_ops
           (sample_world 0 [])).
  - vm_compute. discriminate.
  - apply (bool_decide_unpack _). vm_compute. exact I.
Defined.

Lemma eviction_is_least_recently_used_witness :
  let t := tracked_run sample_calls (tracked_new (sample_options 2)) in
  let st := tk_instance t in
  exists oldestKey,
    is_Some (cache_map st !! oldestKey)
    /\ cache_map (setCacheEntry "c" (sample_entry 3) st)
       = <["c" := sample_entry 3]> (delete oldestKey (cache_map st))
    /\ (forall k, is_Some (cache_map st !! k) -> k ≠ oldestKey ->
          last_access (tk_last t) oldestKey < last_access (tk_last t) k).
Proof.
  apply (eviction_is_least_recently_used (sample_options 2) sample_calls "c" (sample_entry 3)).
  - vm_compute. discriminate.
  - repeat constructor; simpl; try discriminate; auto.
  - vm_compute. discriminate.
  - vm_compute. reflexivity.
Defined.

(** The eviction step removes the first key of the access order and no
    other. *)
Lemma evict_oldest_lookup (st : ApiInstance) (k : string) :
  head (cacheAccessOrder st) ≠ Some k ->
  cache_map (evict_oldest st) !! k = cache_map st !! k.
Proof.
  intros Hhead. unfold evict_oldest.
  destruct (cacheAccessOrder st) as [|oldest rest]; [reflexivity|].
  destruct (negb (String.eqb oldest "")); [|reflexivity].
  simpl. apply lookup_delete_ne. intros ->. apply Hhead. reflexivity.
Qed.

(** [setCacheEntry] touches the entry it writes and, at most, the entry of
    the first key of the access order: every other key keeps its entry,
    from any state of the instance. *)
Theorem setCacheEntry_keeps_other_keys (key : string) (entry : TCacheEntry JsValue)
    (st : ApiInstance) (k : string) :
  k ≠ key ->
  head (cacheAccessOrder st) ≠ Some k ->
  cache_map (setCacheEntry key entry st) !! k = cache_map st !! k.
Proof.
  intros Hne Hhead. unfold setCacheEntry. rewrite cache_map_with_cache.
  rewrite lookup_insert_ne by congruence.
  destruct (_ && _); [apply evict_oldest_lookup, Hhead|reflexivity].
Qed.

Lemma setCacheEntry_keeps_other_keys_witness :
  cache_map (setCacheEntry "c" (sample_entry 3)
               (tk_instance (tracked_run sample_calls (tracked_new (sample_options 2)))))
    !! "a"
  = cache_map (tk_instance (tracked_run sample_calls (tracked_new (sample_options 2)))) !! "a".
Proof.
  apply (setCacheEntry_keeps_other_keys "c" (sample_entry 3)
           (tk_instance (tracked_run sample_calls (tracked_new (sample_options 2)))) "a").
  - discriminate.
  - vm_compute. discriminate.
Defined.

(** A key that has just been read is not the one the next insertion
    evicts, as long as the cache holds another key: reading refreshes the
    key. *)
Theorem read_key_survives_next_insert (st : ApiInstance) (k k' key : string)
    (e e' entry : TCacheEntry JsValue) :
  order_inv st ->
  cache_map st !! k = Some e ->
  cache_map st !! k' = Some e' ->
  k' ≠ k ->
  key ≠ k ->
  cache_map (setCacheEntry key entry (snd (getCacheEntry k st))) !! k = Some e.
Proof.
  intros [Hnd Hdom] Hk Hk' Hne Hkey.
  assert (Hst1 : snd (getCacheEntry k st)
                 = with_cache st (cache_map st) (splice_first k (cacheAccessOrder st) ++ [k])).
  { unfold getCacheEntry. rewrite Hk. reflexivity. }
  rewrite Hst1. unfold setCacheEntry. rewrite cache_map_with_cache.
  rewrite lookup_insert_ne by congruence.
  assert (Hhead : head (splice_first k (cacheAccessOrder st) ++ [k]) ≠ Some k).
  { rewrite splice_first_filter by exact Hnd.
    assert (Hin : k' ∈ filter (fun x => x ≠ k) (cacheAccessOrder st)).
    { apply list_elem_of_filter. split; [exact Hne|]. apply Hdom. eauto. }
    destruct (filter (fun x => x ≠ k) (cacheAccessOrder st)) as [|a l] eqn:Hf.
    - inversion Hin.
    - simpl. intros [= ->].
      assert (Ha : k ∈ filter (fun x => x ≠ k) (cacheAccessOrder st)).
      { rewrite Hf. left. }
      apply list_elem_of_filter in Ha as [Ha _]. apply Ha. reflexivity. }
  destruct (_ && _).
  - rewrite evict_oldest_lookup; [exact Hk|]. rewrite order_with_cache. exact Hhead.
  - rewrite cache_map_with_cache. exact Hk.
Qed.

Lemma read_key_survives_next_insert_witness :
  let st := tk_instance (tracked_run [CallSet "a" (sample_entry 1); CallSet "b" (sample_entry 2)]
                           (tracked_new (sample_options 2))) in
  cache_map (setCacheEntry "c" (sample_entry 3) (snd (getCacheEntry "a" st))) !! "a"
  = Some (sample_entry 1).
Proof.
  intros st.
  apply (read_key_survives_next_insert st "a" "b" "c" (sample_entry 1) (sample_entry 2)
           (sample_entry 3)).
  - apply (tracked_run_inv [CallSet "a" (sample_entry 1); CallSet "b" (sample_entry 2)]
             (tracked_new (sample_options 2))).
    + repeat constructor; simpl; discriminate.
    + apply tracked_new_inv. vm_compute. discriminate.
  - reflexivity.
  - reflexivity.
  - discriminate.
  - discriminate.
Defined.

(** Writing under a key that is in the cache replaces its entry and evicts
    nothing, however full the cache is. *)
Theorem setCacheEntry_existing_key (key : string) (entry : TCacheEntry JsValue)
    (st : ApiInstance) :
  is_Some (cache_map st !! key) ->
  cache_map (setCacheEntry key entry st) = <[key := entry]> (cache_map st)
  /\ size (cache_map (setCacheEntry key entry st)) = size (cache_map st)
  /\ forall k, k ≠ key -> cache_map (setCacheEntry key entry st) !! k = cache_map st !! k.
Proof.
  intros Hin. unfold setCacheEntry.
  rewrite (bool_decide_eq_true_2 _ Hin), andb_false_r. rewrite cache_map_with_cache.
  split; [reflexivity|]. split.
  - apply map_size_insert_Some, Hin.
  - intros k Hk. apply lookup_insert_ne. congruence.
Qed.

Lemma setCacheEntry_existing_key_witness :
  let st := tk_instance (tracked_run sample_calls (tracked_new (sample_options 2))) in
  cache_map (setCacheEntry "b" (sample_entry 9) st) = <["b" := sample_entry 9]> (cache_map st)
  /\ size (cache_map (setCacheEntry "b" (sample_entry 9) st)) = size (cache_map st)
  /\ forall k, k ≠ "b" ->
       cache_map (setCacheEntry "b" (sample_entry 9) st) !! k = cache_map st !! k.
Proof.
  intros st. apply (setCacheEntry_existing_key "b" (sample_entry 9) st).
  vm_compute. eexists. reflexivity.
Defined.

Lemma removeCacheEntry_other (key k : string) (st : ApiInstance) :
  k ≠ key -> cache_map (removeCacheEntry key st) !! k = cache_map st !! k.
Proof. intros Hne. unfold removeCacheEntry. simpl. apply lookup_delete_ne. congruence. Qed.

(** [removeCache(k)] takes [k] out of the map and out of the access order
    and nothing else; a [getCache(k)] after it finds nothing and leaves the
    instance as it is. *)
Theorem removeCache_forgets_key (k : string) (st : ApiInstance) :
  order_inv st ->
  getCache k (removeCache k st) = (None, removeCache k st)
  /\ (k ∉ cacheAccessOrder (removeCache k st))
  /\ (forall k', k' ≠ k -> cache_map (removeCache k st) !! k' = cache_map st !! k')
  /\ (forall k', k' ≠ k ->
        (k' ∈ cacheAccessOrder (removeCache k st) <-> k' ∈ cacheAccessOrder st))
  /\ order_inv (removeCache k st).
Proof.
  intros Hinv. pose proof Hinv as [Hnd _]. unfold removeCache.
  split; [|split; [|split; [|split]]].
  - unfold getCache, getCacheEntry. rewrite removeCacheEntry_lookup. reflexivity.
  - unfold removeCacheEntry. simpl. rewrite splice_first_filter by exact Hnd.
    rewrite list_elem_of_filter. tauto.
  - intros k' Hne. apply removeCacheEntry_other, Hne.
  - intros k' Hne. unfold removeCacheEntry. simpl.
    rewrite splice_first_filter by exact Hnd. rewrite list_elem_of_filter. tauto.
  - apply order_inv_remove, Hinv.
Qed.

Lemma removeCache_forgets_key_witness :
  let st := tk_instance (tracked_run sample_calls (tracked_new (sample_options 2))) in
  getCache "a" (removeCache "a" st) = (None, removeCache "a" st)
  /\ ("a" ∉ cacheAccessOrder (removeCache "a" st))
  /\ (forall k', k' ≠ "a" -> cache_map (removeCache "a" st) !! k' = cache_map st !! k')
  /\ (forall k', k' ≠ "a" ->
        (k' ∈ cacheAccessOrder (removeCache "a" st) <-> k' ∈ cacheAccessOrder st))
  /\ order_inv (removeCache "a" st).
Proof.
  intros st. apply (removeCache_forgets_key "a" st).
  apply (tracked_run_inv sample_calls (tracked_new (sample_options 2))).
  - repeat constructor; simpl; try discriminate; auto.
  - apply tracked_new_inv. vm_compute. discriminate.
Defined.

(* ===================================================================== *)
(** ** The hash and the length of the cache key                           *)
(* ===================================================================== *)

(** [hash] computes the polynomial hash of base 31 over the character
    codes, as a signed 32-bit integer. *)
Theorem hash_is_base31_polynomial (codes : list Z) :
  hash_codes codes = ToInt32 (poly31 codes)
  /\ ((hash_codes codes - poly31 codes) mod 2 ^ 32 = 0)%Z
  /\ (- 2 ^ 31 <= hash_codes codes < 2 ^ 31)%Z.
Proof.
  rewrite hash_codes_poly31. split; [reflexivity|]. split; [|apply ToInt32_range].
  pose proof (ToInt32_mod (poly31 codes)) as Hmod.
  change (2 ^ 32)%Z with 4294967296%Z in *.
  Z.div_mod_to_equations. lia.
Qed.

Lemma digit_value_digit36 (d : Z) : (0 <= d < 36)%Z -> digit_value (digit36 d) = d.
Proof.
  intros Hd.
  assert (Hcases : In d (map Z.of_nat (seq 0 36))).
  { apply in_map_iff. exists (Z.to_nat d). split; [lia|]. apply in_seq. lia. }
  simpl in Hcases.
  repeat (destruct Hcases as [<-|Hcases]; [reflexivity|]). contradiction.
Qed.

(** Reading the digits back gives the number. *)
Lemma value36_digits36 (fuel : nat) :
  forall (n : Z) (acc : string),
    (0 <= n < 36 ^ Z.of_nat fuel)%Z ->
    value36 0 (digits36 fuel n acc) = value36 n acc.
Proof.
  induction fuel as [|fuel IH]; intros n acc Hn.
  - simpl in *. replace n with 0%Z by lia. reflexivity.
  - cbn [digits36].
    assert (Hmod : (0 <= n mod 36 < 36)%Z) by (apply Z.mod_pos_bound; lia).
    destruct (Z.eqb_spec (n / 36) 0) as [Hq|Hq].
    + cbn [value36]. rewrite digit_value_digit36 by exact Hmod.
      f_equal. pose proof (Z.div_mod n 36 ltac:(lia)). lia.
    + rewrite IH.
      * cbn [value36]. rewrite digit_value_digit36 by exact Hmod.
        f_equal. pose proof (Z.div_mod n 36 ltac:(lia)). lia.
      * rewrite Nat2Z.inj_succ, Z.pow_succ_r in Hn by lia.
        split; [apply Z.div_pos; lia|]. apply Z.div_lt_upper_bound; lia.
Qed.

Lemma digits36_head (fuel : nat) :
  forall (n : Z) (acc : string),
    (0 <= n)%Z ->
    exists d rest, (0 <= d < 36)%Z /\ digits36 (S fuel) n acc = String (digit36 d) rest.
Proof.
  induction fuel as [|fuel IH]; intros n acc Hn.
  - exists (n mod 36)%Z, acc. split; [apply Z.mod_pos_bound; lia|].
    cbn [digits36]. destruct (n / 36 =? 0)%Z; reflexivity.
  - change (digits36 (S (S fuel)) n acc)
      with (let acc' := String (digit36 (n mod 36)) acc in
            if (n / 36 =? 0)%Z then acc' else digits36 (S fuel) (n / 36) acc').
    cbv zeta. destruct (n / 36 =? 0)%Z.
    + exists (n mod 36)%Z, acc. split; [apply Z.mod_pos_bound; lia|reflexivity].
    + apply IH. apply Z.div_pos; lia.
Qed.

Lemma toString36_fuel (m : Z) : (0 <= m)%Z -> (m < 36 ^ Z.of_nat (S (Z.to_nat (Z.log2 m))))%Z.
Proof.
  intros Hm. rewrite Nat2Z.inj_succ, Z2Nat.id by apply Z.log2_nonneg.
  destruct (Z.eq_dec m 0%Z) as [->|Hpos]; [reflexivity|].
  pose proof (Z.log2_spec m ltac:(lia)) as [_ Hlt].
  pose proof (Z.log2_nonneg m) as Hlog.
  assert (2 ^ Z.succ (Z.log2 m) <= 36 ^ Z.succ (Z.log2 m))%Z.
  { apply Z.pow_le_mono_l. lia. }
  lia.
Qed.

(** The numeral that [toString(36)] prints reads back as the number: no
    digit is lost to the bound of the loop. *)
Lemma parse36_toString36 (n : Z) : parse36 (toString36 n) = n.
Proof.
  unfold toString36.
  set (fuel := S (Z.to_nat (Z.log2 (Z.abs n)))).
  assert (Hval : value36 0 (digits36 fuel (Z.abs n) "") = Z.abs n).
  { rewrite value36_digits36; [reflexivity|].
    split; [lia|]. apply toString36_fuel. lia. }
  destruct (Z.ltb_spec n 0) as [Hneg|Hpos].
  - cbn [parse36]. change (Ascii.eqb "-" "-") with true. cbv iota. rewrite Hval. lia.
  - destruct (digits36_head (Z.to_nat (Z.log2 (Z.abs n))) (Z.abs n) "" ltac:(lia))
      as (d & rest & Hd & Hhead).
    fold fuel in Hhead. rewrite Hhead in *. cbn [parse36].
    destruct (Ascii.eqb_spec (digit36 d) "-") as [Heq|_].
    + exfalso. pose proof (digit_value_digit36 d Hd) as Hdv.
      rewrite Heq in Hdv. vm_compute in Hdv. lia.
    + rewrite Hval. lia.
Qed.

(** Two strings get the same hash text exactly when their base-31
    polynomials agree modulo 2^32. *)
Theorem hash_collides_iff (s1 s2 : string) :
  hash s1 = hash s2
  <-> (poly31 (charCodes s1) mod 2 ^ 32 = poly31 (charCodes s2) mod 2 ^ 32)%Z.
Proof.
  unfold hash. rewrite !hash_codes_poly31. split.
  - intros Heq. apply (f_equal parse36) in Heq. rewrite !parse36_toString36 in Heq.
    rewrite <- (ToInt32_mod (poly31 (charCodes s1))), <- (ToInt32_mod (poly31 (charCodes s2))).
    rewrite Heq. reflexivity.
  - intros Hmod. f_equal. apply ToInt32_congr, Hmod.
Qed.

Lemma length_append (a b : string) :
  String.length (a +:+ b) = String.length a + String.length b.
Proof. induction a as [|c a IH]; simpl; [reflexivity|]. rewrite IH. reflexivity. Qed.

Lemma digits36_length (fuel : nat) :
  forall (n : Z) (acc : string) (k : nat),
    (0 <= n < 36 ^ Z.of_nat k)%Z -> 1 <= k ->
    String.length (digits36 fuel n acc) <= String.length acc + k.
Proof.
  induction fuel as [|fuel IH]; intros n acc k Hn Hk; [simpl; lia|].
  cbn [digits36]. destruct (Z.eqb_spec (n / 36) 0) as [Hq|Hq]; [simpl; lia|].
  destruct k as [|[|k]]; [lia| |].
  - exfalso. apply Hq. apply Z.div_small. simpl in Hn. lia.
  - specialize (IH (n / 36)%Z (String (digit36 (n mod 36)) acc) (S k)).
    simpl String.length in IH. etransitivity; [apply IH; [|lia]|lia].
    rewrite (Nat2Z.inj_succ (S k)), Z.pow_succ_r in Hn by lia.
    split; [apply Z.div_pos; lia|]. apply Z.div_lt_upper_bound; lia.
Qed.

Lemma hash_length (str : string) : String.length (hash str) <= 7.
Proof.
  unfold hash, toString36.
  pose proof (hash_codes_range (charCodes str)) as Hrange.
  set (h := hash_codes (charCodes str)) in *.
  assert (Hdigits : String.length
                      (digits36 (S (Z.to_nat (Z.log2 (Z.abs h)))) (Z.abs h) "") <= 0 + 6).
  { apply digits36_length; [|lia].
    change (2 ^ 31)%Z with 2147483648%Z in Hrange.
    change (36 ^ Z.of_nat 6)%Z with 2176782336%Z. lia. }
  destruct (h <? 0)%Z; cbn [String.length]; lia.
Qed.

(** The cache key is short whatever the request: it is at most 201
    characters longer than the source of the instance, the hash of a long
    key text having at most 7 characters. *)
Theorem buildcacheKey_length_bound `{Platform} (this : ApiInstance) (config : TApiConfig) :
  String.length (buildcacheKey this config) <= String.length (source this) + 201
  /\ (200 < String.length
              (JSON_stringify (JObject [("url", JString (url config));
                                        ("params", params config)])) ->
      String.length (buildcacheKey this config) <= String.length (source this) + 8).
Proof.
  unfold buildcacheKey.
  set (keyString := JSON_stringify _).
  destruct (Nat.ltb_spec 200 (String.length keyString)) as [Hlong|Hshort].
  - rewrite !length_append. simpl String.length.
    pose proof (hash_length keyString). split; [lia|intros _; lia].
  - rewrite !length_append. simpl String.length. split; [lia|intros Hc; lia].
Qed.

Lemma buildcacheKey_length_bound_witness :
  String.length (@buildcacheKey sample_platform (sample_instance 2) (plain_get long_url))
  <= String.length (source (sample_instance 2)) + 8.
Proof.
  apply (@buildcacheKey_length_bound sample_platform (sample_instance 2) (plain_get long_url)).
  vm_compute. lia.
Defined.

(* ===================================================================== *)
(** ** buildURL                                                           *)
(* ===================================================================== *)

Lemma append_not_self (a b : string) : b ≠ "" -> a +:+ b ≠ a.
Proof.
  intros Hb Heq. apply (f_equal String.length) in Heq. rewrite length_append in Heq.
  destruct b; [contradiction|]. simpl in Heq. lia.
Qed.

Lemma prefix_append (a b : string) : String.prefix a (a +:+ b) = true.
Proof.
  induction a as [|c a IH]; simpl; [destruct b; reflexivity|].
  destruct (ascii_dec c c) as [_|Hc]; [exact IH|contradiction].
Qed.

(** [buildURL] only appends: the url it is given is a prefix of the
    result.  The result is the url itself exactly when [params] is falsy;
    a truthy [params] always adds a separator, "&" when the url has a
    question mark and "?" otherwise, even when [params] has no entries. *)
Theorem buildURL_appends `{Platform} (url' : string) (params' : JsValue) :
  String.prefix url' (buildURL url' params') = true
  /\ (buildURL url' params' = url' <-> truthy params' = false)
  /\ (truthy params' = true -> Object_entries params' = [] ->
      buildURL url' params' = url' +:+ (if includes "?" url' then "&" else "?")).
Proof.
  unfold buildURL. destruct (truthy params') eqn:Htruthy; simpl.
  - split; [|split].
    + destruct (includes "?" url'); apply prefix_append.
    + split; [|discriminate]. intros Heq. exfalso.
      destruct (includes "?" url'); revert Heq; apply append_not_self; discriminate.
    + intros _ ->. simpl. destruct (includes "?" url'); reflexivity.
  - split; [|split].
    + clear Htruthy. induction url' as [|c u IH]; simpl; [reflexivity|].
      destruct (ascii_dec c c) as [_|Hc]; [exact IH|contradiction].
    + split; reflexivity.
    + discriminate.
Qed.

Lemma buildURL_appends_witness :
  @buildURL sample_platform "/users?page=1" (JObject [])
  = "/users?page=1" +:+ (if includes "?" "/users?page=1" then "&" else "?").
Proof.
  apply (@buildURL_appends sample_platform "/users?page=1" (JObject [])); reflexivity.
Defined.

(* ===================================================================== *)
(** ** fetchWithRetry: waiting time, negative counts, error bodies        *)
(* ===================================================================== *)

Lemma total_delay_app (a b : list Event) :
  total_delay (a ++ b) = (total_delay a + total_delay b)%Z.
Proof.
  induction a as [|ev a IH]; simpl; [reflexivity|].
  destruct ev; rewrite IH; lia.
Qed.

Lemma total_delay_retry_trace xhr input init (n : nat) :
  forall attempt : Z,
    (0 <= attempt)%Z ->
    total_delay (retry_trace xhr input init attempt (S n))
    = (200 * 2 ^ attempt * (2 ^ Z.of_nat n - 1))%Z.
Proof.
  induction n as [|n IH]; intros attempt Hattempt.
  - simpl. lia.
  - change (retry_trace xhr input init attempt (S (S n)))
      with (EvFetch xhr input init :: EvDelay (2 ^ attempt * 200)
            :: retry_trace xhr input init (attempt + 1) (S n)).
    cbn [total_delay]. rewrite IH by lia.
    rewrite Z.pow_add_r, Nat2Z.inj_succ, Z.pow_succ_r by lia.
    change (2 ^ 1)%Z with 2%Z. ring.
Qed.

(** When every one of the [r + 1] rounds fails, and none with an abort,
    [fetchWithRetry] makes [r + 1] network calls, waits [200 * (2^r - 1)] ms
    in all and throws the error of the last round. *)
Theorem fetchWithRetry_gives_up `{Platform} (input : string) (init : RequestInit)
    (r : Z) (signal' : option nat) (onUpload' onDownload' : bool) (w : World) :
  (0 <= r)%Z ->
  (forall i, i <= Z.to_nat r ->
     exists e, round_outcome w i = Throw e /\ isAbortError e = false) ->
  exists w',
    fetchWithRetry input init r signal' onUpload' onDownload' w
    = Some (round_outcome w (Z.to_nat r), w')
    /\ sent w' = sent w + (Z.to_nat r + 1)
    /\ total_delay (log w') = (total_delay (log w) + 200 * (2 ^ r - 1))%Z.
Proof.
  intros Hr Hall.
  destruct (fetchWithRetry_runs input init r signal' onUpload' onDownload' w Hr)
    as (n & w' & Hn & Hrun & Hsent & Hlog & _ & Hstop).
  assert (n = S (Z.to_nat r)) as ->.
  { destruct (decide (n < Z.to_nat r + 1)) as [Hlt|]; [|lia].
    specialize (Hstop Hlt).
    destruct (Hall (n - 1) ltac:(lia)) as (e & He & Hab).
    rewrite He in Hstop. congruence. }
  exists w'. replace (S (Z.to_nat r) - 1) with (Z.to_nat r) in Hrun by lia.
  split; [exact Hrun|]. split; [lia|].
  rewrite Hlog, total_delay_app, total_delay_retry_trace by lia.
  rewrite Z2Nat.id by lia. change (2 ^ 0)%Z with 1%Z. lia.
Qed.

Lemma fetchWithRetry_gives_up_witness :
  let w := sample_world 0 [Throw network_failed; Ok (sample_response 500 JNull)] in
  exists w',
    @fetchWithRetry sample_platform "/users" sample_init 2 None false false w
    = Some (@round_outcome sample_platform w (Z.to_nat 2), w')
    /\ sent w' = sent w + (Z.to_nat 2 + 1)
    /\ total_delay (log w') = (total_delay (log w) + 200 * (2 ^ 2 - 1))%Z.
Proof.
  intros w.
  apply (@fetchWithRetry_gives_up sample_platform "/users" sample_init 2 None false false w).
  - lia.
  - intros i Hi.
    assert (Hcases : i = 0 \/ i = 1 \/ i = 2) by (change (Z.to_nat 2) with 2 in Hi; lia).
    destruct Hcases as [-> | [-> | ->]]; eexists; split; reflexivity.
Defined.

Lemma get_field_throws (v : JsValue) (name : string) (e : Thrown) :
  get_field v name = Throw e -> e = cannot_read.
Proof. destruct v; simpl; congruence. Qed.

Lemma first_truthy_throws `{Platform} (error' meta : JsValue) (name : string)
    (fallback : JsValue) (e : Thrown) :
  first_truthy error' meta name fallback = Throw e -> e = cannot_read.
Proof.
  unfold first_truthy, rbind.
  destruct (get_field error' name) as [a|e1] eqn:Ha; [|intros [= <-]; eauto using get_field_throws].
  destruct (truthy a); [discriminate|].
  destruct (get_field meta name) as [b|e2] eqn:Hb; [|intros [= <-]; eauto using get_field_throws].
  destruct (truthy b); discriminate.
Qed.

(** What a response that is not ok makes a round throw is an abort only
    when reading its body was aborted. *)
Lemma notOk_thrown_abort `{Platform} (res : Response) :
  isAbortError (notOk_thrown res) = true ->
  exists e, json res = Throw e /\ isAbortError e = true.
Proof.
  unfold notOk_thrown, rbind.
  destruct (json res) as [error'|e]; [|eauto].
  destruct (get_field error' "meta") as [meta|e1] eqn:Hmeta;
    [|rewrite (get_field_throws _ _ _ Hmeta); discriminate].
  destruct (get_field error' "status") as [st|e2] eqn:Hst;
    [|rewrite (get_field_throws _ _ _ Hst); discriminate].
  destruct (truthy (js_or meta st)); [|discriminate].
  destruct (first_truthy error' meta "code" _) as [code|e3] eqn:Hcode;
    [|rewrite (first_truthy_throws _ _ _ _ _ Hcode); discriminate].
  destruct (first_truthy error' meta "message" _) as [message|e4] eqn:Hmessage;
    [|rewrite (first_truthy_throws _ _ _ _ _ Hmessage); discriminate].
  destruct (first_truthy error' meta "status" _) as [status'|e5] eqn:Hstatus;
    [|rewrite (first_truthy_throws _ _ _ _ _ Hstatus); discriminate].
  discriminate.
Qed.

(** A response with an error status whose body can be read is always
    retried: when rounds are left, the loop waits [2 ^ attempt * 200] ms and
    goes on with the next round, the thrown body being the last error. *)
Theorem error_status_is_retried `{Platform} (fuel : nat) (xhr : bool) (input : string)
    (init : RequestInit) (retry' attempt : Z) (lastErr : Thrown) (w : World)
    (res : Response) (body' : JsValue) :
  (attempt < retry')%Z ->
  reply (net w (sent w)) = Ok res ->
  ok res = false ->
  json res = Ok body' ->
  fetchWithRetry_loop (S fuel) xhr input init retry' attempt lastErr w
  = fetchWithRetry_loop fuel xhr input init retry' (attempt + 1) (notOk_thrown res)
      {| now := (now w + elapsed (net w (sent w)) + 2 ^ attempt * 200)%Z;
         net := net w;
         sent := S (sent w);
         log := log w ++ [EvFetch xhr input init; EvDelay (2 ^ attempt * 200)] |}.
Proof.
  intros Hlt Hreply Hok Hjson.
  rewrite fetchWithRetry_loop_S.
  replace (attempt <=? retry')%Z with true by (symmetry; apply Z.leb_le; lia).
  unfold try_catch. rewrite attempt_once_outcome.
  unfold round_outcome. rewrite Nat.add_0_r, Hreply, Hok. simpl negb. cbv iota.
  destruct (isAbortError (notOk_thrown res)) eqn:Habort.
  { apply notOk_thrown_abort in Habort as (e & He & _). congruence. }
  replace (attempt =? retry')%Z with false by (symmetry; apply Z.eqb_neq; lia).
  unfold bind, sleep, after_network. simpl. rewrite <- app_assoc. reflexivity.
Qed.

Lemma error_status_is_retried_witness :
  let w := sample_world 0 [Ok response_500; Ok (sample_response 200 JNull)] in
  @fetchWithRetry_loop sample_platform (S 1) false "/users" sample_init 1 0
    (ThrownValue JUndefined) w
  = @fetchWithRetry_loop sample_platform 1 false "/users" sample_init 1 (0 + 1)
      (@notOk_thrown sample_platform response_500)
      {| now := (now w + elapsed (net w (sent w)) + 2 ^ 0 * 200)%Z;
         net := net w;
         sent := S (sent w);
         log := log w ++ [EvFetch false "/users" sample_init; EvDelay (2 ^ 0 * 200)] |}.
Proof.
  intros w.
  apply (@error_status_is_retried sample_platform 1 false "/users" sample_init 1 0
           (ThrownValue JUndefined) w response_500 (JObject [("message", JString "boom")]));
    [lia|reflexivity|reflexivity|reflexivity].
Defined.

(** Three shapes of error body.  A body without [meta] and [status] is
    thrown as it is, a plain value and no [Error].  A body with a [status],
    no [meta] and no [code] throws a [TypeError]: [error.meta.code] is read
    off [undefined].  So does the body [null]. *)
Theorem notOk_thrown_edges `{Platform} (res : Response) (props : list (string * JsValue)) :
  (json res = Ok (JObject props) ->
   truthy (assoc_get "meta" props) = false ->
   truthy (assoc_get "status" props) = false ->
   notOk_thrown res = ThrownValue (JObject props))
  /\ (json res = Ok (JObject props) ->
      (assoc_get "meta" props = JUndefined \/ assoc_get "meta" props = JNull) ->
      truthy (assoc_get "status" props) = true ->
      truthy (assoc_get "code" props) = false ->
      notOk_thrown res = cannot_read)
  /\ (json res = Ok JNull -> notOk_thrown res = cannot_read).
Proof.
  split; [|split].
  - intros Hjson Hmeta Hstatus. unfold notOk_thrown, rbind. rewrite Hjson. simpl.
    unfold js_or. rewrite Hmeta, Hstatus. reflexivity.
  - intros Hjson Hmeta Hstatus Hcode. unfold notOk_thrown, rbind. rewrite Hjson. simpl.
    unfold js_or.
    assert (Hfalsy : truthy (assoc_get "meta" props) = false).
    { destruct Hmeta as [-> | ->]; reflexivity. }
    rewrite Hfalsy, Hstatus. unfold first_truthy, rbind. simpl. rewrite Hcode.
    destruct Hmeta as [-> | ->]; reflexivity.
  - intros Hjson. unfold notOk_thrown, rbind. rewrite Hjson. reflexivity.
Qed.

Lemma notOk_thrown_edges_witness :
  @notOk_thrown sample_platform (sample_response 422 (JObject [("status", JString "fail")]))
  = cannot_read.
Proof.
  apply (proj1 (proj2 (@notOk_thrown_edges sample_platform
                         (sample_response 422 (JObject [("status", JString "fail")]))
                         [("status", JString "fail")])));
    [reflexivity|left; reflexivity|reflexivity|reflexivity].
Defined.

(* ===================================================================== *)
(** ** request: what it does to the cache and to the network              *)
(* ===================================================================== *)

(** The instance after the network part of a request: a response that was
    parsed is stored when the cache is wanted; nothing else changes. *)
Lemma request_network_state `{Platform} (this : ApiInstance) (fc : TApiConfig)
    (key : string) (st st' : ApiInstance) (w w' : World)
    (r : Result (TApiResponse JsValue)) :
  request_network this fc key (st, w) = Some (r, (st', w')) ->
  match r with
  | Ok resp =>
      fromCache resp = false
      /\ st' = (if cache_wanted fc
                then setCacheEntry key
                       {| data := res_data resp; timestamp := now w';
                          ttl := revalidate_of fc |} st
                else st)
  | Throw _ => st' = st
  end.
Proof.
  rewrite request_network_unfold.
  destruct (fetchWithRetry _ _ _ _ _ _ w) as [[[response|e] w1]|]; [| |discriminate].
  - destruct r as [resp|e].
    + intros Hfin. apply request_finish_ok in Hfin as (-> & Hnet & _ & _ & ->).
      split; [exact Hnet|reflexivity].
    + unfold request_finish, bind, lift_result.
      destruct (handleResponse this response) as [fr|e']; [|intros [= _ <- _]; reflexivity].
      destruct (ok fr); simpl; [|intros [= _ <- _]; reflexivity].
      destruct (read_body fr) as [d|e']; [|intros [= _ <- _]; reflexivity].
      destruct (cache_wanted fc); unfold Date_now, update_this, ret, bind; simpl;
        discriminate.
  - intros [= <- <- _]. reflexivity.
Qed.

Lemma handleInterceptors_none (this : ApiInstance) (config : TApiConfig) :
  icp_request (interceptors this) = None -> handleInterceptors this config = Ok config.
Proof. intros Hnone. unfold handleInterceptors. rewrite Hnone. reflexivity. Qed.

Lemma request_uncached_state `{Platform} (this : ApiInstance) (config fc : TApiConfig)
    (w : World) (r : Result (TApiResponse JsValue)) (s' : ApiInstance * World) :
  handleInterceptors this config = Ok fc ->
  cache_wanted fc = false ->
  request config (this, w) = Some (r, s') ->
  fst s' = this.
Proof.
  intros Hfc Hwanted. rewrite request_unfold, request_try_unfold, Hfc, request_from_unfold.
  cbv zeta. rewrite Hwanted.
  destruct (request_network this fc (buildcacheKey this fc) (this, w))
    as [[r0 [st' w']]|] eqn:Hnet; [|discriminate].
  apply request_network_state in Hnet. rewrite Hwanted in Hnet.
  destruct r0 as [resp|e].
  - destruct Hnet as [_ ->]. intros [= _ <-]. reflexivity.
  - subst st'. intros [= _ <-]. reflexivity.
Qed.

(** A request that is not a GET with [cache.enabled] leaves the instance
    as it is: the cache is neither read nor written, and no access is
    recorded.  So do [post], [put], [patch] and [delete] on an instance
    without a request interceptor, whatever [cache] their config asks
    for. *)
Theorem uncached_request_keeps_instance `{Platform} (this : ApiInstance) (w : World) :
  (forall config fc r s',
      handleInterceptors this config = Ok fc ->
      cache_wanted fc = false ->
      request config (this, w) = Some (r, s') ->
      fst s' = this)
  /\ (icp_request (interceptors this) = None ->
      forall url' body' config r s',
        (post url' body' config (this, w) = Some (r, s')
         \/ put url' body' config (this, w) = Some (r, s')
         \/ patch url' body' config (this, w) = Some (r, s')
         \/ delete_ url' body' config (this, w) = Some (r, s')) ->
        fst s' = this).
Proof.
  split.
  - intros config fc r s'. apply request_uncached_state.
  - intros Hnone url' body' config r s' Hrun.
    assert (Hverb : forall m, m ≠ GET ->
              request (with_url_method config url' m body') (this, w) = Some (r, s') ->
              fst s' = this).
    { intros m Hm. apply (request_uncached_state this _ (with_url_method config url' m body')).
      - apply handleInterceptors_none, Hnone.
      - unfold cache_wanted. simpl. destruct (cache config) as [cc|]; [|reflexivity].
        destruct m; [contradiction|..]; apply andb_false_r. }
    destruct Hrun as [Hrun|[Hrun|[Hrun|Hrun]]];
      [apply (Hverb POST)|apply (Hverb PUT)|apply (Hverb PATCH)|apply (Hverb DELETE)];
      (discriminate || exact Hrun).
Qed.

Lemma uncached_request_keeps_instance_witness :
  exists r s',
    @post sample_platform "/users" (JNumber 1) (sample_get "/users" (Some 10%Z) None)
      (zero_ttl_instance, sample_world 0 [Ok (sample_response 200 JNull)]) = Some (r, s')
    /\ fst s' = zero_ttl_instance.
Proof.
  do 2 eexists. split; [vm_compute; reflexivity|].
  apply (proj2 (@uncached_request_keeps_instance sample_platform zero_ttl_instance
                  (sample_world 0 [Ok (sample_response 200 JNull)]))
           eq_refl "/users" (JNumber 1) (sample_get "/users" (Some 10%Z) None)
           (Ok {| res_data := JNull;
                  cacheKey := Some (@buildcacheKey sample_platform zero_ttl_instance
                                      (sample_get "/users" (Some 10%Z) None));
                  fromCache := false |})).
  left. vm_compute. reflexivity.
Defined.

Lemma cache_step_source (key : string) (st st' : ApiInstance) :
  rtc (cache_step key) st st' ->
  source st' = source st /\ interceptors st' = interceptors st.
Proof.
  intros Hsteps. split; [|apply (cache_step_interceptors _ _ _ Hsteps)].
  induction Hsteps as [st|st st1 st2 Hstep _ IH]; [reflexivity|].
  rewrite IH. destruct Hstep.
  - unfold getCacheEntry. destruct (cache_map st !! key); reflexivity.
  - unfold setCacheEntry. simpl. destruct (_ && _); [|reflexivity].
    unfold evict_oldest. destruct (cacheAccessOrder st) as [|k rest]; [reflexivity|].
    destruct (negb _); reflexivity.
  - reflexivity.
Qed.

Lemma request_try_same_config `{Platform} (config : TApiConfig) (this : ApiInstance)
    (w : World) (r : Result (TApiResponse JsValue)) (s' : ApiInstance * World) :
  request_try config (this, w) = Some (r, s') ->
  source (fst s') = source this /\ interceptors (fst s') = interceptors this.
Proof.
  rewrite request_try_unfold.
  destruct (handleInterceptors this config) as [fc|e].
  - destruct (request_from_ends this fc this w)
      as (r0 & st' & w' & n & Hrun & _ & _ & Hsteps).
    rewrite Hrun. intros [= _ <-]. simpl. apply (cache_step_source _ _ _ Hsteps).
  - intros [= _ <-]. split; reflexivity.
Qed.

(** A response that the [try] block got from the network is in the cache
    afterwards. *)
Lemma request_try_stores `{Platform} (this : ApiInstance) (config fc : TApiConfig)
    (w : World) (resp : TApiResponse JsValue) (s' : ApiInstance * World) :
  handleInterceptors this config = Ok fc ->
  cache_wanted fc = true ->
  request_try config (this, w) = Some (Ok resp, s') ->
  fromCache resp = false ->
  cache_map (fst s') !! buildcacheKey this fc
  = Some {| data := res_data resp; timestamp := now (snd s'); ttl := revalidate_of fc |}.
Proof.
  intros Hfc Hwanted Hrun Hnet.
  rewrite request_try_unfold, Hfc, request_from_unfold in Hrun. cbv zeta in Hrun.
  rewrite Hwanted in Hrun. destruct s' as [st' w'].
  assert (Hstore : forall st,
             request_network this fc (buildcacheKey this fc) (st, w)
             = Some (Ok resp, (st', w')) ->
             cache_map st' !! buildcacheKey this fc
             = Some {| data := res_data resp; timestamp := now w'; ttl := revalidate_of fc |}).
  { intros st Hn. apply request_network_state in Hn as [_ ->].
    rewrite Hwanted. apply setCacheEntry_lookup. }
  destruct (cache_map this !! buildcacheKey this fc) as [entry|]; [|exact (Hstore _ Hrun)].
  destruct (expired entry (now w)); [exact (Hstore _ Hrun)|].
  injection Hrun as <- _ _. discriminate.
Qed.

(** A GET with [cache.enabled] that was answered by the network is
    answered from the cache the next time: the same request on the
    instance it left, at a time within [cache.revalidate] of the store (or
    at any time when [revalidate] is absent or 0), resolves to the same
    data with [fromCache = true] and calls no network. *)
Theorem cached_response_is_served_again `{Platform} (this : ApiInstance)
    (config fc : TApiConfig) (w w2 : World) (resp : TApiResponse JsValue)
    (s1 : ApiInstance * World) :
  handleInterceptors this config = Ok fc ->
  cache_wanted fc = true ->
  request_try config (this, w) = Some (Ok resp, s1) ->
  fromCache resp = false ->
  (revalidate_of fc = None \/ revalidate_of fc = Some 0%Z
   \/ exists t, revalidate_of fc = Some t /\ (now w2 - now (snd s1) <= t)%Z) ->
  exists this2,
    request config (fst s1, w2)
    = Some (Ok {| res_data := res_data resp;
                  cacheKey := Some (buildcacheKey this fc);
                  fromCache := true |}, (this2, w2))
    /\ cache_map this2 = cache_map (fst s1).
Proof.
  intros Hfc Hwanted Hrun Hnet Hfresh.
  destruct (request_try_same_config config this w _ s1 Hrun) as [Hsource Hicp].
  pose proof (request_try_stores this config fc w resp s1 Hfc Hwanted Hrun Hnet) as Hentry.
  assert (Hkey : buildcacheKey (fst s1) fc = buildcacheKey this fc).
  { unfold buildcacheKey. rewrite Hsource. reflexivity. }
  assert (Hfc1 : handleInterceptors (fst s1) config = Ok fc).
  { unfold handleInterceptors in *. rewrite Hicp. exact Hfc. }
  rewrite <- Hkey in Hentry.
  exists (snd (getCacheEntry (buildcacheKey (fst s1) fc) (fst s1))). split.
  - rewrite (request_fresh_hit (fst s1) config fc w2 _ Hfc1 Hwanted Hentry).
    + rewrite Hkey. reflexivity.
    + unfold expired. simpl.
      destruct Hfresh as [-> | [-> | (t & -> & Hle)]]; [reflexivity|reflexivity|].
      destruct (t =? 0)%Z; [reflexivity|]. simpl. apply Z.ltb_ge. exact Hle.
  - unfold getCacheEntry. rewrite Hentry. reflexivity.
Qed.

Lemma cached_response_is_served_again_witness :
  let this := sample_instance 2 in
  let config := sample_get "/users" (Some 1000%Z) None in
  let w := sample_world 0 [Ok (sample_response 200 (JString "fresh"))] in
  let resp := {| res_data := JString "fresh";
                 cacheKey := Some (@buildcacheKey sample_platform this config);
                 fromCache := false |} in
  let s1 := (setCacheEntry (@buildcacheKey sample_platform this config)
               {| data := JString "fresh"; timestamp := 10; ttl := Some 1000%Z |} this,
             after_network false (@request_url sample_platform this config)
               (init_with_signal (@request_init sample_platform this config) None) w) in
  exists this2,
    @request sample_platform config (fst s1, sample_world 900 [])
    = Some (Ok {| res_data := res_data resp;
                  cacheKey := Some (@buildcacheKey sample_platform this config);
                  fromCache := true |}, (this2, sample_world 900 []))
    /\ cache_map this2 = cache_map (fst s1).
Proof.
  intros this config w resp s1.
  apply (@cached_response_is_served_again sample_platform this config config w
           (sample_world 900 []) resp s1).
  - reflexivity.
  - reflexivity.
  - vm_compute. reflexivity.
  - reflexivity.
  - right. right. exists 1000%Z. split; [reflexivity|]. vm_compute. discriminate.
Defined.

(** When an expired entry is looked up and the request then fails, the
    entry is gone: the stale data is not kept. *)
Theorem failed_revalidation_drops_entry `{Platform} (this : ApiInstance)
    (config fc : TApiConfig) (w : World) (entry : TCacheEntry JsValue)
    (e : Thrown) (s' : ApiInstance * World) :
  handleInterceptors this config = Ok fc ->
  cache_wanted fc = true ->
  cache_map this !! buildcacheKey this fc = Some entry ->
  expired entry (now w) = true ->
  request_try config (this, w) = Some (Throw e, s') ->
  cache_map (fst s') !! buildcacheKey this fc = None
  /\ forall k, k ≠ buildcacheKey this fc -> cache_map (fst s') !! k = cache_map this !! k.
Proof.
  intros Hfc Hwanted Hentry Hexpired.
  rewrite request_try_unfold, Hfc, request_from_unfold. cbv zeta.
  rewrite Hwanted, Hentry, Hexpired. destruct s' as [st' w']. intros Hrun.
  apply request_network_state in Hrun. subst st'. cbn [fst]. split.
  - apply removeCacheEntry_lookup.
  - intros k Hk. rewrite removeCacheEntry_other by exact Hk.
    unfold getCacheEntry. rewrite Hentry. reflexivity.
Qed.

Lemma failed_revalidation_drops_entry_witness :
  let this := setCache (@buildcacheKey sample_platform (sample_instance 2)
                          (sample_get "/users" (Some 5%Z) None))
                (JString "old") (Some 5%Z) 0 (sample_instance 2) in
  let config := sample_get "/users" (Some 5%Z) None in
  let w := sample_world 100 [] in
  exists s',
    @request_try sample_platform config (this, w) = Some (Throw network_failed, s')
    /\ cache_map (fst s') !! @buildcacheKey sample_platform this config = None
    /\ forall k, k ≠ @buildcacheKey sample_platform this config ->
                 cache_map (fst s') !! k = cache_map this !! k.
Proof.
  intros this config w.
  eexists. split; [vm_compute; reflexivity|].
  apply (@failed_revalidation_drops_entry sample_platform this config config w
           {| data := JString "old"; timestamp := 0; ttl := Some 5%Z |} network_failed);
    [reflexivity|reflexivity|vm_compute; reflexivity|reflexivity|vm_compute; reflexivity].
Defined.

(** The number of network calls of one run of [fetchWithRetry]. *)
Lemma fetchWithRetry_calls `{Platform} input init (r : Z) signal' up down (w : World)
    (res : Result Response) (w' : World) :
  fetchWithRetry input init r signal' up down w = Some (res, w') ->
  sent w <= sent w' <= sent w + Z.to_nat (r + 1).
Proof.
  intros Hrun. destruct (Z_lt_le_dec r 0) as [Hneg|Hpos].
  - rewrite fetchWithRetry_negative in Hrun by exact Hneg.
    injection Hrun as _ <-. lia.
  - destruct (fetchWithRetry_runs input init r signal' up down w Hpos)
      as (n & w1 & Hn & Hrun1 & Hsent & _).
    rewrite Hrun1 in Hrun. injection Hrun as _ <-. lia.
Qed.

Lemma request_network_calls `{Platform} (this : ApiInstance) (fc : TApiConfig)
    (key : string) (st : ApiInstance) (w : World)
    (r : Result (TApiResponse JsValue)) (s' : ApiInstance * World) :
  request_network this fc key (st, w) = Some (r, s') ->
  sent w <= sent (snd s') <= sent w + Z.to_nat (default 0%Z (retry fc) + 1).
Proof.
  rewrite request_network_unfold.
  destruct (fetchWithRetry _ _ _ _ _ _ w) as [[[response|e] w1]|] eqn:Hfetch;
    [| |discriminate]; apply fetchWithRetry_calls in Hfetch.
  - destruct (request_finish_ends this fc key response st w1) as (r0 & st' & Hfin).
    rewrite Hfin. intros [= _ <-]. exact Hfetch.
  - intros [= _ <-]. exact Hfetch.
Qed.

(** One request makes at most [retry + 1] network calls ([retry] being 0
    when the config has none), and none when the request interceptor
    throws or when the retry count is negative. *)
Theorem request_calls_bound `{Platform} (config : TApiConfig) (this : ApiInstance)
    (w : World) (r : Result (TApiResponse JsValue)) (s' : ApiInstance * World) :
  request config (this, w) = Some (r, s') ->
  match handleInterceptors this config with
  | Ok fc => sent w <= sent (snd s') <= sent w + Z.to_nat (default 0%Z (retry fc) + 1)
  | Throw _ => sent (snd s') = sent w
  end.
Proof.
  rewrite request_unfold, request_try_unfold.
  destruct (handleInterceptors this config) as [fc|e].
  - rewrite request_from_unfold. cbv zeta.
    assert (Hnet : forall st,
               match request_network this fc (buildcacheKey this fc) (st, w) with
               | Some (Throw e, s'0) => Some (handleError (fst s'0) e, s'0)
               | other => other
               end = Some (r, s') ->
               sent w <= sent (snd s') <= sent w + Z.to_nat (default 0%Z (retry fc) + 1)).
    { intros st.
      destruct (request_network this fc (buildcacheKey this fc) (st, w))
        as [[r0 s0]|] eqn:Hrun; [|discriminate].
      apply request_network_calls in Hrun.
      destruct r0; intros [= _ <-]; exact Hrun. }
    destruct (cache_wanted fc); [|apply Hnet].
    destruct (cache_map this !! buildcacheKey this fc) as [entry|]; [|apply Hnet].
    destruct (expired entry (now w)); [apply Hnet|].
    intros [= _ <-]. simpl. lia.
  - intros [= _ <-]. reflexivity.
Qed.

Lemma request_calls_bound_witness :
  exists r s',
    @request sample_platform (plain_get_retry "/users" 1)
      (sample_instance 2, sample_world 0 [Throw network_failed; Ok (sample_response 200 JNull)])
    = Some (r, s')
    /\ 0 <= sent (snd s') <= 0 + Z.to_nat (1 + 1).
Proof.
  do 2 eexists. split; [vm_compute; reflexivity|].
  apply (@request_calls_bound sample_platform (plain_get_retry "/users" 1) (sample_instance 2)
           (sample_world 0 [Throw network_failed; Ok (sample_response 200 JNull)])
           (Ok {| res_data := JNull;
                  cacheKey := Some (@buildcacheKey sample_platform (sample_instance 2)
                                      (plain_get_retry "/users" 1));
                  fromCache := false |})).
  vm_compute. reflexivity.
Defined.

(** With a negative retry count a request that is not served from the
    cache calls no network: the loop of [fetchWithRetry] is not entered and
    the request fails with [undefined]. *)
Theorem negative_retry_calls_nothing `{Platform} (this : ApiInstance)
    (config fc : TApiConfig) (w : World) (r : Z) :
  handleInterceptors this config = Ok fc ->
  cache_wanted fc = false ->
  retry fc = Some r ->
  (r < 0)%Z ->
  request config (this, w) = Some (handleError this (ThrownValue JUndefined), (this, w)).
Proof.
  intros Hfc Hwanted Hretry Hneg.
  rewrite request_unfold, request_try_unfold, Hfc, request_from_unfold. cbv zeta.
  rewrite Hwanted, request_network_unfold, Hretry. simpl default.
  rewrite fetchWithRetry_negative by exact Hneg. reflexivity.
Qed.

Lemma negative_retry_calls_nothing_witness :
  @request sample_platform (plain_get_retry "/users" (-1))
    (sample_instance 2, sample_world 0 [Ok (sample_response 200 JNull)])
  = Some (Throw (ThrownValue JUndefined),
          (sample_instance 2, sample_world 0 [Ok (sample_response 200 JNull)])).
Proof.
  apply (@negative_retry_calls_nothing sample_platform (sample_instance 2)
           (plain_get_retry "/users" (-1)) (plain_get_retry "/users" (-1))
           (sample_world 0 [Ok (sample_response 200 JNull)]) (-1)%Z);
    [reflexivity|reflexivity|reflexivity|lia].
Defined.

(** The headers sent: a header of the request config wins over the default
    headers of the instance, which win over the default content type; the
    content type defaults to JSON unless the body is a [FormData]. *)
Theorem request_init_headers `{Platform} (this : ApiInstance) (fc : TApiConfig)
    (name : string) :
  let sent_header := init_headers (request_init this fc) !! name in
  (forall v, default ∅ (headers fc) !! name = Some v -> sent_header = Some v)
  /\ (forall v, default ∅ (headers fc) !! name = None ->
                defaultHeaders this !! name = Some v -> sent_header = Some v)
  /\ (default ∅ (headers fc) !! name = None ->
      defaultHeaders this !! name = None ->
      sent_header
      = match body fc with
        | JFormData _ => None
        | _ => if decide (name = "Content-Type") then Some "application/json" else None
        end).
Proof.
  intros sent_header. subst sent_header. unfold request_init. cbn [init_headers].
  split; [|split].
  - intros v Hv. apply lookup_union_Some_l, lookup_union_Some_l, Hv.
  - intros v Hnone Hv. apply lookup_union_Some_l. rewrite lookup_union_r by exact Hnone.
    exact Hv.
  - intros Hnone Hdef. rewrite lookup_union_r.
    + destruct (body fc); try apply lookup_empty;
        (destruct (decide (name = "Content-Type")) as [->|Hne];
         [apply lookup_singleton_eq|apply lookup_singleton_ne; congruence]).
    + rewrite lookup_union_r by exact Hnone. exact Hdef.
Qed.

Lemma request_init_headers_witness :
  init_headers (@request_init sample_platform (sample_instance 2)
                  (sample_post "/upload" (JFormData [("file", "bytes")])))
    !! "Content-Type" = None.
Proof.
  apply (proj2 (proj2 (@request_init_headers sample_platform (sample_instance 2)
                         (sample_post "/upload" (JFormData [("file", "bytes")]))
                         "Content-Type"))); reflexivity.
Defined.

(* ===================================================================== *)
(** ** useMutation: what deduplication shares                             *)
(* ===================================================================== *)

Lemma deduplicated_call_clears_key_witness :
  let hook := sample_mutation "/save" POST in
  let request' := JObject [("name", JString "a")] in
  let rt := snd (snd (@mutate_begin sample_platform request' (hook, fresh_runtime))) in
  let s1 := snd (@mutate_begin sample_platform request' (hook, rt)) in
  pendingRequests (snd s1) !! @requestKey sample_platform hook request' = None
  /\ fst (@mutate_begin sample_platform request' (hook, snd s1))
     = Awaiting (@requestKey sample_platform hook request') (length (issued rt)).
Proof.
  intros hook request' rt.
  apply (@deduplicated_call_clears_key sample_platform hook rt request' 0).
  reflexivity.
Defined.

Lemma mutation_request_signal `{Platform} (hook : MutationHook) (request' : JsValue)
    (controller : nat) :
  signal (mutation_request hook request' controller) = Some controller
  /\ headers (mutation_request hook request' controller) = mh_config hook ≫= mo_headers.
Proof. unfold mutation_request. destruct (mutation_method hook); split; reflexivity. Qed.

(** Two calls of [mutate] in a row on the same hook, with the same
    request: the second is answered with the promise of the first, and it
    has aborted the controller whose signal the request of the first
    carries.  The request both callers wait for is the one that was
    aborted. *)
Theorem second_mutate_aborts_shared_request `{Platform} (hook : MutationHook)
    (rt : Runtime) (request' : JsValue) :
  pendingRequests rt !! requestKey hook request' = None ->
  let first := mutate_begin request' (hook, rt) in
  let second := mutate_begin request' (snd first) in
  let promise := length (issued rt) in
  fst first = Awaiting (requestKey hook request') promise
  /\ fst second = Deduplicated promise
  /\ exists config,
       issued (snd (snd second)) !! promise = Some config
       /\ signal config = Some (controllers rt)
       /\ controllers rt ∈ aborted (snd (snd second)).
Proof.
  intros Hfree first second promise.
  assert (Hfirst : first
            = (Awaiting (requestKey hook request') promise,
               (set_mutation_state hook (Some (controllers rt))
                  {| mut_isLoading := true;
                     mut_cacheKey := mut_cacheKey (mh_state hook);
                     mut_progress := None |},
                with_pending
                  (snd (issue (mutation_request hook request' (controllers rt))
                          (snd (renew_controller (mh_controller hook) rt))))
                  (<[requestKey hook request' := promise]> (pendingRequests rt))))).
  { unfold first, mutate_begin. simpl. rewrite Hfree. reflexivity. }
  subst second. rewrite Hfirst. cbn [fst snd].
  split; [reflexivity|].
  unfold mutate_begin. cbn [mh_controller set_mutation_state renew_controller].
  change (requestKey (set_mutation_state hook (Some (controllers rt)) _) request')
    with (requestKey hook request').
  cbn [pendingRequests with_pending]. rewrite lookup_insert_eq. cbn [fst snd].
  split; [reflexivity|].
  exists (mutation_request hook request' (controllers rt)). split; [|split].
  - simpl. apply list_lookup_middle. reflexivity.
  - apply mutation_request_signal.
  - simpl. apply elem_of_app. right. left.
Qed.

Lemma second_mutate_aborts_shared_request_witness :
  let hook := sample_mutation "/save" POST in
  let request' := JObject [("name", JString "a")] in
  let first := @mutate_begin sample_platform request' (hook, fresh_runtime) in
  let second := @mutate_begin sample_platform request' (snd first) in
  fst first = Awaiting (@requestKey sample_platform hook request') 0
  /\ fst second = Deduplicated 0
  /\ exists config,
       issued (snd (snd second)) !! 0 = Some config
       /\ signal config = Some 0
       /\ 0 ∈ aborted (snd (snd second)).
Proof.
  intros hook request'.
  apply (@second_mutate_aborts_shared_request sample_platform hook fresh_runtime request').
  reflexivity.
Defined.

(** The key of a mutation is made of the url, the method and the request,
    not of the headers or the cache settings: a hook with other headers
    that calls [mutate] while the request of the first hook is pending is
    answered with that request, and its own headers are never sent. *)
Theorem mutate_shares_across_hooks `{Platform} (hook1 hook2 : MutationHook)
    (rt : Runtime) (request' : JsValue) :
  mh_url hook1 = mh_url hook2 ->
  mutation_method hook1 = mutation_method hook2 ->
  pendingRequests rt !! requestKey hook1 request' = None ->
  let first := mutate_begin request' (hook1, rt) in
  let second := mutate_begin request' (hook2, snd (snd first)) in
  fst second = Deduplicated (length (issued rt))
  /\ issued (snd (snd second))
     = issued rt ++ [mutation_request hook1 request' (controllers rt)]
  /\ headers (mutation_request hook1 request' (controllers rt)) = mh_config hook1 ≫= mo_headers.
Proof.
  intros Hurl Hmethod Hfree first second.
  destruct (mutate_begin_first hook1 rt request' Hfree) as (h1 & rt1 & Hrun1 & Hpending & Hissued).
  assert (Hkey : requestKey hook2 request' = requestKey hook1 request').
  { unfold requestKey. rewrite Hurl, Hmethod. reflexivity. }
  rewrite <- Hkey in Hpending.
  destruct (mutate_begin_pending hook2 rt1 request' _ Hpending)
    as (h2 & rt2 & Hrun2 & Hissued2 & _).
  subst second first. rewrite Hrun1. cbn [fst snd]. rewrite Hrun2. cbn [fst snd].
  split; [reflexivity|]. split; [congruence|]. apply mutation_request_signal.
Qed.

Lemma mutate_shares_across_hooks_witness :
  let hook1 := sample_mutation_with "/save" POST {[ "Authorization" := "alice" ]} in
  let hook2 := sample_mutation_with "/save" POST {[ "Authorization" := "bob" ]} in
  let request' := JObject [("name", JString "a")] in
  let first := @mutate_begin sample_platform request' (hook1, fresh_runtime) in
  let second := @mutate_begin sample_platform request' (hook2, snd (snd first)) in
  fst second = Deduplicated (length (issued fresh_runtime))
  /\ issued (snd (snd second))
     = issued fresh_runtime
       ++ [@mutation_request sample_platform hook1 request' (controllers fresh_runtime)]
  /\ headers (@mutation_request sample_platform hook1 request' (controllers fresh_runtime))
     = mh_config hook1 ≫= mo_headers.
Proof.
  intros hook1 hook2 request'.
  apply (@mutate_shares_across_hooks sample_platform hook1 hook2 fresh_runtime request');
    reflexivity.
Defined.

(* ===================================================================== *)
(** ** useInfiniteFetch: pages, failures, parameters                      *)
(* ===================================================================== *)

Lemma fetchNextPage_success_witness :
  let s := first_page_loaded in
  let resp := page_response (page 1) in
  let st := ih_state (fst s) in
  let st' := ih_state (fst (@fetchNextPage_settled sample_platform (Ok resp) s)) in
  let nextOffset :=
    setOffset (ih_options (fst s)) (res_data resp)
      (fetchPage_items (fst s) ++ [res_data resp]) (offset st) in
  items st' = items st ++ [res_data resp]
  /\ offset st' = default (offset st) nextOffset
  /\ hasNextPage st' = bool_decide (is_Some nextOffset)
  /\ isFetchingNextPage st' = false
  /\ length (issued (snd (@fetchNextPage_settled sample_platform (Ok resp) s)))
     = S (length (issued (snd s))).
Proof.
  apply (@fetchNextPage_success sample_platform first_page_loaded (page_response (page 1)));
    reflexivity.
Defined.

Lemma fetchPage_begin_state `{Platform} (offsetValue : Z) (append : bool)
    (hook : InfiniteHook) (rt : Runtime) :
  fetchPage_begin offsetValue append (hook, rt)
  = (length (issued rt),
     (with_infinite hook (Some (controllers rt))
        {| items := items (ih_state hook);
           offset := offset (ih_state hook);
           isLoading := if negb append then true else isLoading (ih_state hook);
           isFetchingNextPage :=
             if negb append then isFetchingNextPage (ih_state hook) else true;
           hasNextPage := hasNextPage (ih_state hook);
           error := error (ih_state hook) |},
      snd (issue (page_request hook offsetValue (controllers rt))
             (snd (renew_controller (ih_controller hook) rt))))).
Proof. reflexivity. Qed.

(** While a next page is being fetched, [fetchNextPage] makes no second
    request and changes nothing. *)
Theorem fetchNextPage_while_fetching `{Platform} (s : InfiniteHook * Runtime) :
  hasNextPage (ih_state (fst s)) = true ->
  isFetchingNextPage (ih_state (fst s)) = false ->
  let first := fetchNextPage s in
  fst first = Some (length (issued (snd s)))
  /\ isFetchingNextPage (ih_state (fst (snd first))) = true
  /\ fetchNextPage (snd first) = (None, snd first).
Proof.
  intros Hnext Hfetching first. destruct s as [hook rt]. simpl in Hnext, Hfetching.
  subst first. unfold fetchNextPage. simpl. rewrite Hnext, Hfetching. simpl.
  repeat split.
Qed.

Lemma fetchNextPage_while_fetching_witness :
  let first := @fetchNextPage sample_platform first_page_loaded in
  fst first = Some (length (issued (snd first_page_loaded)))
  /\ isFetchingNextPage (ih_state (fst (snd first))) = true
  /\ @fetchNextPage sample_platform (snd first) = (None, snd first).
Proof.
  apply (@fetchNextPage_while_fetching sample_platform first_page_loaded); reflexivity.
Defined.


Lemma fetchNextPage_exhausted_witness :
  @fetchNextPage sample_platform single_page_loaded = (None, single_page_loaded)
  /\ @fetchNextPage_settled sample_platform (Ok (page_response (page 1))) single_page_loaded
     = single_page_loaded.
Proof.
  apply (@fetchNextPage_exhausted sample_platform single_page_loaded
           (Ok (page_response (page 1)))).
  reflexivity.
Defined.

(** A next page that fails leaves the pages, the offset and [hasNextPage]
    as they were, and records the error unless it is an abort; the next
    [fetchNextPage] asks for the same page again. *)
Theorem failed_page_is_asked_again `{Platform} (s : InfiniteHook * Runtime) (e : Thrown) :
  hasNextPage (ih_state (fst s)) = true ->
  isFetchingNextPage (ih_state (fst s)) = false ->
  let failed := fetchNextPage_settled (Throw e) s in
  let st := ih_state (fst s) in
  let st' := ih_state (fst failed) in
  items st' = items st
  /\ offset st' = offset st
  /\ hasNextPage st' = true
  /\ isFetchingNextPage st' = false
  /\ error st' = (if isAbortError e then error st else Some e)
  /\ exists first again,
       issued (snd failed) = issued (snd s) ++ [first]
       /\ issued (snd (snd (fetchNextPage failed))) = issued (snd s) ++ [first; again]
       /\ url again = url first
       /\ params again = params first.
Proof.
  intros Hnext Hfetching failed st st'. destruct s as [hook rt].
  simpl in Hnext, Hfetching. subst failed st st'.
  unfold fetchNextPage_settled, fetchNextPage. simpl. rewrite Hnext, Hfetching. simpl.
  repeat split.
  do 2 eexists. split; [reflexivity|]. rewrite <- app_assoc. simpl.
  split; [reflexivity|]. split; reflexivity.
Qed.

Lemma failed_page_is_asked_again_witness :
  let s := first_page_loaded in
  let failed := @fetchNextPage_settled sample_platform (Throw network_failed) s in
  let st := ih_state (fst s) in
  let st' := ih_state (fst failed) in
  items st' = items st
  /\ offset st' = offset st
  /\ hasNextPage st' = true
  /\ isFetchingNextPage st' = false
  /\ error st' = (if isAbortError network_failed then error st else Some network_failed)
  /\ exists first again,
       issued (snd failed) = issued (snd s) ++ [first]
       /\ issued (snd (snd (@fetchNextPage sample_platform failed)))
          = issued (snd s) ++ [first; again]
       /\ url again = url first
       /\ params again = params first.
Proof.
  apply (@failed_page_is_asked_again sample_platform first_page_loaded network_failed);
    reflexivity.
Defined.

Lemma assoc_get_set_prop (key k : string) (value : JsValue) (props : list (string * JsValue)) :
  assoc_get k (set_prop key value props)
  = if String.eqb k key then value else assoc_get k props.
Proof.
  induction props as [|[k0 v0] props IH]; simpl.
  - rewrite (String.eqb_sym key k). destruct (String.eqb k key); reflexivity.
  - destruct (String.eqb_spec k0 key) as [->|Hk0]; simpl.
    + rewrite (String.eqb_sym key k). destruct (String.eqb k key); reflexivity.
    + rewrite IH. destruct (String.eqb_spec k0 k) as [->|Hk]; [|reflexivity].
      destruct (String.eqb_spec k key) as [->|_]; [contradiction|reflexivity].
Qed.

Lemma set_prop_length (key : string) (value : JsValue) (props : list (string * JsValue)) :
  length (set_prop key value props)
  = if decide (key ∈ props.*1) then length props else S (length props).
Proof.
  induction props as [|[k0 v0] props IH]; simpl; [reflexivity|].
  destruct (String.eqb_spec k0 key) as [->|Hk0]; simpl.
  - rewrite decide_True by left. reflexivity.
  - rewrite IH. destruct (decide (key ∈ props.*1)) as [Hin|Hnot].
    + rewrite decide_True by (right; exact Hin). reflexivity.
    + rewrite decide_False; [reflexivity|].
      intros Hin. apply elem_of_cons in Hin as [->|Hin]; contradiction.
Qed.

(** The params of a page request: the offset parameter, named [offsetKey]
    or "offset", carries the offset asked for; every other parameter of the
    config is passed on unchanged; a parameter of the config with the name
    of the offset parameter is replaced, not repeated. *)
Theorem page_params_offset `{Platform} (hook : InfiniteHook) (offsetValue : Z) :
  let offsetName := default "offset" (offsetKey (ih_options hook)) in
  let base := match ih_config hook with
              | Some c => match params c with
                          | JUndefined | JNull => []
                          | p => Object_entries p
                          end
              | None => []
              end in
  exists props,
    params (page_request hook offsetValue 0) = JObject props
    /\ assoc_get offsetName props = JNumber offsetValue
    /\ (forall k, k ≠ offsetName -> assoc_get k props = assoc_get k base)
    /\ length props = if decide (offsetName ∈ base.*1) then length base else S (length base).
Proof.
  intros offsetName base.
  exists (set_prop offsetName (JNumber offsetValue) base).
  split; [reflexivity|]. split; [|split].
  - rewrite assoc_get_set_prop, String.eqb_refl. reflexivity.
  - intros k Hk. rewrite assoc_get_set_prop.
    destruct (String.eqb_spec k offsetName); [contradiction|reflexivity].
  - apply set_prop_length.
Qed.

(** [refetch] starts over: when its page arrives, the pages are that page
    alone, whatever was loaded before, and [setOffset] is asked with that
    page, the list holding that page only, and the initial offset. *)
Theorem refetch_starts_over `{Platform} (s : InfiniteHook * Runtime)
    (resp : TApiResponse JsValue) :
  let started := infinite_refetch s in
  let options := ih_options (fst s) in
  let nextOffset :=
    setOffset options (res_data resp) [res_data resp] (initialOffset options) in
  let st' := ih_state (fetchPage_settle (initialOffset options) false (Ok resp)
                         (fst (snd started))) in
  items (ih_state (fst (snd started))) = []
  /\ (exists config,
        issued (snd (snd started)) = issued (snd s) ++ [config]
        /\ assoc_get (default "offset" (offsetKey options))
             (match params config with JObject props => props | _ => [] end)
           = JNumber (initialOffset options))
  /\ items st' = [res_data resp]
  /\ offset st' = default (initialOffset options) nextOffset
  /\ hasNextPage st' = bool_decide (is_Some nextOffset).
Proof.
  intros started options nextOffset st'. destruct s as [hook rt].
  subst started options nextOffset st'. unfold infinite_refetch.
  rewrite fetchPage_begin_state. cbn [fst snd]. split; [reflexivity|]. split.
  - eexists. split; [reflexivity|]. simpl.
    rewrite assoc_get_set_prop, String.eqb_refl. reflexivity.
  - simpl. destruct (setOffset _ _ _ _); repeat split.
Qed.

(* ===================================================================== *)
(** ** useFetch                                                           *)
(* ===================================================================== *)

(** A hook that is not enabled makes no request on its own: its
    [fetchData()] returns an idle state and changes nothing.  [refetch()]
    makes the request all the same. *)
Theorem useFetch_disabled (hook : FetchHook) (rt : Runtime) :
  fh_enabled hook = false ->
  fetchData_begin false (hook, rt)
  = (FetchReturned {| fs_data := None; fs_error := None;
                      fs_isLoading := false; fs_cacheKey := None |}, (hook, rt))
  /\ fst (fetchData_begin true (hook, rt)) = FetchWaiting (length (issued rt))
  /\ issued (snd (snd (fetchData_begin true (hook, rt))))
     = issued rt ++ [fetch_request hook (controllers rt)]
  /\ fs_isLoading (fh_state (fst (snd (fetchData_begin true (hook, rt))))) = true.
Proof.
  intros Hdisabled. unfold fetchData_begin. rewrite Hdisabled. simpl.
  repeat split. destruct (fs_isLoading (fh_state hook)) eqn:Hloading; [exact Hloading|reflexivity].
Qed.

Lemma useFetch_disabled_witness :
  fetchData_begin false (useFetch "/users" None false, fresh_runtime)
  = (FetchReturned {| fs_data := None; fs_error := None;
                      fs_isLoading := false; fs_cacheKey := None |},
     (useFetch "/users" None false, fresh_runtime))
  /\ fst (fetchData_begin true (useFetch "/users" None false, fresh_runtime))
     = FetchWaiting (length (issued fresh_runtime))
  /\ issued (snd (snd (fetchData_begin true (useFetch "/users" None false, fresh_runtime))))
     = issued fresh_runtime
       ++ [fetch_request (useFetch "/users" None false) (controllers fresh_runtime)]
  /\ fs_isLoading
       (fh_state (fst (snd (fetchData_begin true
                              (useFetch "/users" None false, fresh_runtime))))) = true.
Proof.
  apply (useFetch_disabled (useFetch "/users" None false) fresh_runtime). reflexivity.
Defined.

(** Data that was loaded is kept while a refetch is in flight.  When the
    refetch fails the data is replaced by [null] and the error is recorded;
    when it is aborted nothing is set: the data stays and so does
    [isLoading = true]. *)
Theorem useFetch_refetch_outcomes (hook : FetchHook) (rt : Runtime)
    (resp : TApiResponse JsValue) (e : Thrown) :
  let loaded := snd (fetchData_settle (Ok resp) hook) in
  let refetching := fst (snd (fetchData_begin true (loaded, rt))) in
  let settled := snd (fetchData_settle (Throw e) refetching) in
  fh_state refetching
  = {| fs_data := Some (res_data resp); fs_error := None;
       fs_isLoading := true; fs_cacheKey := cacheKey resp |}
  /\ (isAbortError e = false ->
      fh_state settled
      = {| fs_data := None; fs_error := Some e; fs_isLoading := false; fs_cacheKey := None |})
  /\ (isAbortError e = true -> fh_state settled = fh_state refetching).
Proof.
  intros loaded refetching settled. subst loaded refetching settled.
  unfold fetchData_begin, fetchData_settle. simpl.
  rewrite andb_false_r. simpl. split; [reflexivity|].
  split; intros ->; reflexivity.
Qed.

Lemma useFetch_refetch_outcomes_witness :
  let hook := useFetch "/users" None true in
  let loaded := snd (fetchData_settle (Ok (page_response (page 0))) hook) in
  let refetching := fst (snd (fetchData_begin true (loaded, fresh_runtime))) in
  fh_state (snd (fetchData_settle (Throw network_failed) refetching))
  = {| fs_data := None; fs_error := Some network_failed;
       fs_isLoading := false; fs_cacheKey := None |}.
Proof.
  intros hook loaded refetching.
  apply (proj1 (proj2 (useFetch_refetch_outcomes hook fresh_runtime
                         (page_response (page 0)) network_failed))).
  reflexivity.
Defined.
